(** * AgentFlow: the goal-execution scheduler

    A shallow embedding of the checklist ([types.ts]), of the
    orchestrator, of the tool registry, of the [evaluate] and [decompose]
    methods of [AnthropicLLM], and of the configuration and
    authentication managers with the start of the [run] command.

    - The numbers of a task and of a tool result are rationals ([Q]); a
      confidence returned by the oracle is a JavaScript number, which may
      be [NaN] or infinite ([JS.num]); the [NaN] of a [0/0] failure rate
      is modelled by an [option].
    - A [Map<string, Task>] is an association list in insertion order with
      the semantics of [Map.prototype.set]: an existing key keeps its place.
    - Asynchronous code is written in a state-and-exception monad over a
      world made of the orchestrator's execution history, the trace of the
      calls made to the outside (oracle, tools) and the state of the
      outside itself, which stays abstract. *)

From Stdlib Require Import List String Ascii ZArith QArith Qround Bool Lia.
From Stdlib Require Import DecimalString.
From Stdlib Require DecimalPos DecimalZ.
Import ListNotations.

Local Open Scope string_scope.
Set Implicit Arguments.

(* ------------------------------------------------------------------ *)
(** ** JavaScript idioms *)

Module JS.

(** [x || d] on a number that may be absent: [undefined] and [0] are
    falsy. *)
Definition num_or (x : option Q) (d : Q) : Q :=
  match x with
  | Some q => if Qeq_bool q 0%Q then d else q
  | None => d
  end.

(** [x || d] on a string that may be absent: [undefined] and the empty
    string are falsy. *)
Definition str_or (x : option string) (d : string) : string :=
  match x with
  | Some EmptyString => d
  | Some s => s
  | None => d
  end.

(** [x || false] on a boolean that may be absent. *)
Definition bool_or (x : option bool) (d : bool) : bool :=
  match x with
  | Some true => true
  | _ => d
  end.

(** [x || []] on an array that may be absent (an array is truthy). *)
Definition arr_or {A} (x : option (list A)) (d : list A) : list A :=
  match x with
  | Some l => l
  | None => d
  end.

(** A JavaScript number: [NaN], an infinity, or a rational. *)
Inductive num :=
| NaN
| NegInf
| Fin (q : Q)
| PosInf.

(** [a <= b]: false as soon as one side is [NaN]. *)
Definition le (a b : num) : bool :=
  match a, b with
  | NaN, _ | _, NaN => false
  | NegInf, _ | _, PosInf => true
  | Fin x, Fin y => Qle_bool x y
  | _, _ => false
  end.

(** [a < b], [a >= b], [a > b]: each is false as soon as one side is
    [NaN], so that [a < b] is not the negation of [a >= b]. *)
Definition lt (a b : num) : bool :=
  match a, b with
  | NaN, _ | _, NaN => false
  | _, _ => negb (le b a)
  end.
Definition ge (a b : num) : bool := le b a.
Definition gt (a b : num) : bool := lt b a.

(** [Math.min(a, b)] and [Math.max(a, b)]: [NaN] as soon as one argument
    is [NaN]. *)
Definition min (a b : num) : num :=
  match a, b with
  | NaN, _ | _, NaN => NaN
  | _, _ => if le a b then a else b
  end.
Definition max (a b : num) : num :=
  match a, b with
  | NaN, _ | _, NaN => NaN
  | _, _ => if le a b then b else a
  end.

(** A value as [JSON.parse] gives it, as far as [||] and the conversion
    to a number look at it. Where the text of the value decides, the
    outcome of the runtime's conversion comes with the value: the number
    read in a string ([NaN] when it is no numeric literal), the number an
    array converts to through its text ([None] when the conversion throws
    a [TypeError]), and, for an object, whether it has a property
    [toString] of its own, which is then no function. *)
Inductive value :=
| JNull
| JBool (b : bool)
| JNumber (n : num)
| JString (s : string) (asNumber : num)
| JArray (asNumber : option num)
| JObject (ownToString : bool).

(** What [||] takes for true: everything but [null], [false], [0], [NaN]
    and the empty string. *)
Definition truthy (v : value) : bool :=
  match v with
  | JNull => false
  | JBool b => b
  | JNumber NaN => false
  | JNumber (Fin q) => negb (Qeq_bool q 0%Q)
  | JNumber _ => true
  | JString EmptyString _ => false
  | JString _ _ => true
  | JArray _ => true
  | JObject _ => true
  end.

(** The conversion that [Math.min] and [Math.max] apply to an argument;
    [None] is a [TypeError]. A plain object converts through the text
    ["[object Object]"], which is no number. *)
Definition toNumber (v : value) : option num :=
  match v with
  | JNull => Some (Fin 0)
  | JBool true => Some (Fin 1)
  | JBool false => Some (Fin 0)
  | JNumber n => Some n
  | JString _ n => Some n
  | JArray r => r
  | JObject true => None
  | JObject false => Some NaN
  end.

(** [arr.slice(-n)]: the last [n] elements. *)
Definition slice_last {A} (n : nat) (l : list A) : list A :=
  skipn (List.length l - n) l.

(** [arr.slice(0, n)]. *)
Definition slice_first {A} (n : nat) (l : list A) : list A := firstn n l.

(** The decimal text of an integer, as in a template literal. *)
Definition show_int (z : Z) : string := NilZero.string_of_int (Z.to_int z).

(** What a [catch] clause may receive: an [Error] object or any other
    thrown value, kept as the text [String(value)] gives. *)
Inductive exn :=
| ErrorObj (message : string)
| Thrown (text : string).

(** [error instanceof Error ? error.message : String(error)] *)
Definition message_of (e : exn) : string :=
  match e with
  | ErrorObj m => m
  | Thrown s => s
  end.

End JS.

(** A rational is a number. *)
Coercion JS.Fin : Q >-> JS.num.
Bind Scope Q_scope with JS.num.
Arguments JS.le : simpl never.
Arguments JS.lt : simpl never.
Arguments JS.ge : simpl never.
Arguments JS.gt : simpl never.
Arguments JS.min : simpl never.
Arguments JS.max : simpl never.

(* ------------------------------------------------------------------ *)
(** ** types.ts *)

Inductive Status := pending | in_progress | completed | failed.

Definition Status_eqb (a b : Status) : bool :=
  match a, b with
  | pending, pending | in_progress, in_progress
  | completed, completed | failed, failed => true
  | _, _ => false
  end.

(** The payload of a tool or of the oracle is opaque to the scheduler. *)
Inductive Json := JsonText (text : string).

(** What [tool.execute] resolves to: [null], [undefined], or a value of
    which the scheduler reads the field [confidence] only. *)
Inductive ToolOutput :=
| OutNull
| OutUndefined
| OutObj (confidence : option Q) (payload : Json).

Module ToolResult.
Record t := mk {
  success : bool;
  tool : string;
  output : ToolOutput;
  duration : Z;
  confidence : Q;
  error : option string
}.
End ToolResult.

Module TaskResult.
Record t := mk {
  success : bool;
  confidence : JS.num;
  iterations : nat;
  results : list ToolResult.t;
  duration : option Z;
  error : option string
}.
End TaskResult.

Module Task.
Record t := mk {
  id : string;
  name : string;
  description : string;
  priority : Q;
  dependencies : option (list string);
  successThreshold : Q;
  estimatedComplexity : Q;
  requiresIterativeExecution : bool;
  maxIterations : option Q;
  requiredCapabilities : list string;
  status : Status;
  result : option TaskResult.t;
  completedAt : option Z
}.

Definition with_status (s : Status) (x : t) : t :=
  mk (id x) (name x) (description x) (priority x) (dependencies x)
     (successThreshold x) (estimatedComplexity x)
     (requiresIterativeExecution x) (maxIterations x)
     (requiredCapabilities x) s (result x) (completedAt x).

Definition with_priority (p : Q) (x : t) : t :=
  mk (id x) (name x) (description x) p (dependencies x)
     (successThreshold x) (estimatedComplexity x)
     (requiresIterativeExecution x) (maxIterations x)
     (requiredCapabilities x) (status x) (result x) (completedAt x).

(** The three assignments of [updateTaskStatus]. *)
Definition settle (r : TaskResult.t) (now : Z) (x : t) : t :=
  mk (id x) (name x) (description x) (priority x) (dependencies x)
     (successThreshold x) (estimatedComplexity x)
     (requiresIterativeExecution x) (maxIterations x)
     (requiredCapabilities x)
     (if TaskResult.success r then completed else failed)
     (Some r) (Some now).
End Task.

Record GoalDefinition := {
  originalGoal : string;
  successCriteria : list string;
  constraints : list string;
  expectedOutcomes : list string;
  challenges : list string
}.

Inductive RunStatus :=
| run_in_progress | run_completed | run_failed | run_no_viable_tasks.

(** One entry of [ExecutionResult.tasksCompleted]. The source puts the
    task object itself in the entry; [entry_task] shows that object as it
    is when the entry is pushed. *)
Record LedgerEntry := {
  entry_task : Task.t;
  entry_result : TaskResult.t;
  entry_timestamp : Z
}.

Module ExecutionResult.
Record t := mk {
  goal : string;
  startTime : Z;
  endTime : option Z;
  duration : option Z;
  iterations : nat;
  tasksCompleted : list LedgerEntry;
  status : RunStatus
}.
End ExecutionResult.

(* ------------------------------------------------------------------ *)
(** ** A [Map] with string keys, in insertion order *)

Module StrMap.
Section Defs.
Context {V : Type}.

Definition t := list (string * V).

Fixpoint get (k : string) (m : list (string * V)) : option V :=
  match m with
  | [] => None
  | (k', v) :: m' => if String.eqb k k' then Some v else get k m'
  end.

(** [Map.prototype.set]: overwrite in place, or append. *)
Fixpoint set (k : string) (v : V) (m : list (string * V)) : list (string * V) :=
  match m with
  | [] => [(k, v)]
  | (k', v') :: m' =>
      if String.eqb k k' then (k', v) :: m' else (k', v') :: set k v m'
  end.

(** Mutation of the object stored under [k], when there is one. *)
Fixpoint update (k : string) (f : V -> V) (m : list (string * V)) : list (string * V) :=
  match m with
  | [] => []
  | (k', v') :: m' =>
      if String.eqb k k' then (k', f v') :: m' else (k', v') :: update k f m'
  end.

Definition keys (m : list (string * V)) : list string := map fst m.
Definition values (m : list (string * V)) : list V := map snd m.

(** [new Map(entries)] *)
Definition of_entries (es : list (string * V)) : list (string * V) :=
  fold_left (fun m e => set (fst e) (snd e) m) es [].
End Defs.
End StrMap.

(* ------------------------------------------------------------------ *)
(** ** Adjustments produced by reflection *)

(** The [modifications] object of a [modify] adjustment: any subset of the
    fields of a task. *)
Module Patch.
Record t := mk {
  id : option string;
  name : option string;
  description : option string;
  priority : option Q;
  dependencies : option (list string);
  successThreshold : option Q;
  estimatedComplexity : option Q;
  requiresIterativeExecution : option bool;
  maxIterations : option Q;
  requiredCapabilities : option (list string);
  status : option Status;
  result : option TaskResult.t;
  completedAt : option Z
}.

Definition empty : t :=
  mk None None None None None None None None None None None None None.

Definition pick {A} (new : option A) (old : A) : A :=
  match new with Some v => v | None => old end.

Definition keep {A} (new old : option A) : option A :=
  match new with Some v => Some v | None => old end.

(** [Object.assign(task, modifications)] *)
Definition assign (p : t) (x : Task.t) : Task.t :=
  Task.mk (pick (id p) (Task.id x))
          (pick (name p) (Task.name x))
          (pick (description p) (Task.description x))
          (pick (priority p) (Task.priority x))
          (keep (dependencies p) (Task.dependencies x))
          (pick (successThreshold p) (Task.successThreshold x))
          (pick (estimatedComplexity p) (Task.estimatedComplexity x))
          (pick (requiresIterativeExecution p) (Task.requiresIterativeExecution x))
          (keep (maxIterations p) (Task.maxIterations x))
          (pick (requiredCapabilities p) (Task.requiredCapabilities x))
          (pick (status p) (Task.status x))
          (keep (result p) (Task.result x))
          (keep (completedAt p) (Task.completedAt x)).
End Patch.

(** The [task] object of an [add] adjustment: every field the code
    defaults may be missing. *)
Module TaskInput.
Record t := mk {
  id : option string;
  name : string;
  description : string;
  priority : option Q;
  dependencies : option (list string);
  successThreshold : option Q;
  estimatedComplexity : option Q;
  requiresIterativeExecution : option bool;
  maxIterations : option Q;
  requiredCapabilities : option (list string)
}.
End TaskInput.

Inductive Adjustment :=
| reorder (taskId : string) (newPriority : Q)
| modify (taskId : string) (modifications : Patch.t)
| add (task : TaskInput.t)
| other (type : string).

(** What [getProgressSummary] returns. *)
Module ProgressSummary.
Record t := mk {
  total : nat;
  completed : nat;
  failed : nat;
  pending : nat;
  inProgress : nat;
  completionRate : Q
}.
End ProgressSummary.

(* ------------------------------------------------------------------ *)
(** ** checklist.ts *)

Module Checklist.

Record t := mk {
  tasks : list (string * Task.t);
  goalDefinition : GoalDefinition
}.

Definition with_tasks (m : list (string * Task.t)) (cl : t) : t :=
  mk m (goalDefinition cl).

(** [constructor(tasks, goalDefinition)] *)
Definition new (ts : list Task.t) (g : GoalDefinition) : t :=
  mk (StrMap.of_entries
        (map (fun x => (Task.id x, Task.with_status pending x)) ts))
     g.

(** The assignments that [updateTaskStatus] makes under [if (task)],
    [now] being what [Date.now()] returned. *)
Definition settleTask (taskId : string) (r : TaskResult.t) (now : Z)
    (cl : t) : t :=
  with_tasks (StrMap.update taskId (Task.settle r now) (tasks cl)) cl.

Definition setTaskInProgress (taskId : string) (cl : t) : t :=
  with_tasks (StrMap.update taskId (Task.with_status in_progress) (tasks cl)) cl.

Definition getTask (taskId : string) (cl : t) : option Task.t :=
  StrMap.get taskId (tasks cl).

Definition getAllTasks (cl : t) : list Task.t := StrMap.values (tasks cl).

(** The [for (const depId of task.dependencies)] loop of
    [getAvailableTasks], [false] standing for its early [return false]. *)
Fixpoint deps_loop (cl : t) (deps : list string) : bool :=
  match deps with
  | [] => true
  | depId :: rest =>
      match getTask depId cl with
      | None => false
      | Some dep =>
          if negb (Status_eqb (Task.status dep) completed) then false
          else deps_loop cl rest
      end
  end.

(** The predicate given to [filter] in [getAvailableTasks]. *)
Definition available (cl : t) (task : Task.t) : bool :=
  if negb (Status_eqb (Task.status task) pending) then false
  else
    match Task.dependencies task with
    | Some (d :: ds) => deps_loop cl (d :: ds)
    | _ => true
    end.

Definition getAvailableTasks (cl : t) : list Task.t :=
  filter (available cl) (getAllTasks cl).

(** The array that [getAvailableTasks] returns holds the task objects of
    the map themselves: what the checklist later does to the object
    stored under a key is seen through the element of the array. An
    element is kept here with the key under which the map holds the
    object, which tells the object from any other, and with the object as
    it was when the array was made. The tasks of these entries are
    [getAvailableTasks], in the same order. *)
Definition availableEntries (cl : t) : list (string * Task.t) :=
  filter (fun entry => available cl (snd entry)) (tasks cl).

(** The object an element of such an array stands for, as it is now.
    (While a batch is in flight the map loses no key and no key is given
    another object: only an [add] does that, during reflection.) *)
Definition current (entry : string * Task.t) (cl : t) : Task.t :=
  match getTask (fst entry) cl with
  | Some x => x
  | None => snd entry
  end.

Definition getCompletedTasks (cl : t) : list Task.t :=
  filter (fun x => Status_eqb (Task.status x) completed) (getAllTasks cl).

Definition getFailedTasks (cl : t) : list Task.t :=
  filter (fun x => Status_eqb (Task.status x) failed) (getAllTasks cl).

Definition getPendingTasks (cl : t) : list Task.t :=
  filter (fun x => Status_eqb (Task.status x) pending) (getAllTasks cl).

Definition getInProgressTasks (cl : t) : list Task.t :=
  filter (fun x => Status_eqb (Task.status x) in_progress) (getAllTasks cl).

Definition getProgressSummary (cl : t) : ProgressSummary.t :=
  let all := getAllTasks cl in
  let completed := getCompletedTasks cl in
  let failed := getFailedTasks cl in
  let pending := getPendingTasks cl in
  let inProgress := getInProgressTasks cl in
  ProgressSummary.mk
    (List.length all) (List.length completed) (List.length failed)
    (List.length pending) (List.length inProgress)
    (match List.length all with
     | O => 0%Q
     | S n => (inject_Z (Z.of_nat (List.length completed))
               / inject_Z (Z.of_nat (S n)))%Q
     end).

(** The object literal built for an [add] adjustment, [i] being the id
    already chosen. *)
Definition newTask (i : string) (a : TaskInput.t) : Task.t :=
  Task.mk i
          (TaskInput.name a)
          (TaskInput.description a)
          (JS.num_or (TaskInput.priority a) 5)
          (Some (JS.arr_or (TaskInput.dependencies a) []))
          (JS.num_or (TaskInput.successThreshold a) 0.8)
          (JS.num_or (TaskInput.estimatedComplexity a) 5)
          (JS.bool_or (TaskInput.requiresIterativeExecution a) false)
          (Some (JS.num_or (TaskInput.maxIterations a) 10))
          (JS.arr_or (TaskInput.requiredCapabilities a) [])
          pending None None.

Section WithClock.
(** [Date.now()] reads a clock that belongs to the outside. *)
Context {C : Type} (date_now : C -> Z * C).

(** [updateTaskStatus(taskId, result)]: the clock is read only when a
    task is stored under [taskId]. *)
Definition updateTaskStatus (taskId : string) (r : TaskResult.t) (cl : t)
    (c : C) : t * C :=
  match getTask taskId cl with
  | Some _ =>
      let (now, c') := date_now c in
      (settleTask taskId r now cl, c')
  | None => (cl, c)
  end.

(** [adj.task.id || `task_${Date.now()}`]: the clock is read only when
    the id is missing or empty. *)
Definition chooseId (a : TaskInput.t) (c : C) : string * C :=
  match TaskInput.id a with
  | Some (String ch rest) => (String ch rest, c)
  | _ => let (n, c') := date_now c in ("task_" ++ JS.show_int n, c')
  end.

(** The body of the [forEach] of [applyAdjustments]. *)
Definition applyAdjustment (adj : Adjustment) (cl : t) (c : C) : t * C :=
  match adj with
  | reorder taskId newPriority =>
      (with_tasks (StrMap.update taskId (Task.with_priority newPriority) (tasks cl)) cl, c)
  | modify taskId modifications =>
      (with_tasks (StrMap.update taskId (Patch.assign modifications) (tasks cl)) cl, c)
  | add a =>
      let (i, c') := chooseId a c in
      (with_tasks (StrMap.set i (newTask i a) (tasks cl)) cl, c')
  | other _ => (cl, c)
  end.

Fixpoint applyAdjustments (adjustments : list Adjustment) (cl : t) (c : C)
    : t * C :=
  match adjustments with
  | [] => (cl, c)
  | adj :: rest =>
      let (cl', c') := applyAdjustment adj cl c in
      applyAdjustments rest cl' c'
  end.
End WithClock.

End Checklist.

(* ------------------------------------------------------------------ *)
(** ** The outside: clock, oracle and tools *)

(** A call either returns or throws. *)
Inductive Res (A : Type) :=
| Ok (value : A)
| Throw (error : JS.exn).
Arguments Ok {A} value.
Arguments Throw {A} error.

(** [Date.now()] *)
Class Clock (Env : Type) := {
  date_now : Env -> Z * Env
}.

(** What [selectTools] shows of a tool in its prompt. *)
Record ToolInfo := {
  info_id : string;
  info_name : string;
  info_description : string;
  info_capabilities : list string
}.

(** The fields of the reply of [analyze] that [defineGoal] reads. *)
Record Analysis := {
  a_successCriteria : option (list string);
  a_constraints : option (list string);
  a_expectedOutcomes : option (list string);
  a_challenges : option (list string)
}.

(** [LLMInterface]. Every method of the source takes a prompt, a text
    built from the values listed here as arguments; a method reads and
    changes the state of the outside, and may throw. *)
Module LLM.
Class LLMInterface (Env : Type) := {
  analyze : string -> Json -> Env -> Res Analysis * Env;
  decompose : GoalDefinition -> Env -> Res (list Task.t) * Env;
  selectTools : Task.t -> list ToolInfo -> Env -> Res (list string) * Env;
  selectTask : list Task.t -> list LedgerEntry -> GoalDefinition ->
               Env -> Res string * Env;
  generateToolInput : string -> Json -> Task.t -> Json -> list ToolResult.t ->
                      Env -> Res Json * Env;
  evaluate : Task.t -> list ToolResult.t -> Env -> Res JS.num * Env;
  strategize : list LedgerEntry -> Env -> Res (option (list Adjustment)) * Env;
  assess : GoalDefinition -> list Task.t -> option Q -> Env -> Res bool * Env
}.
End LLM.

Module Tool.
Record t (Env : Type) := mk {
  id : string;
  name : string;
  description : string;
  capabilities : list string;
  inputSchema : Json;
  outputSchema : Json;
  execute : Json -> Env -> Res ToolOutput * Env
}.
Arguments mk {Env}.
Arguments id {Env}.
Arguments name {Env}.
Arguments description {Env}.
Arguments capabilities {Env}.
Arguments inputSchema {Env}.
Arguments outputSchema {Env}.
Arguments execute {Env}.

Definition info {Env} (x : t Env) : ToolInfo :=
  Build_ToolInfo (id x) (name x) (description x) (capabilities x).
End Tool.

(** tool-registry.ts *)
Module ToolRegistry.
Section Defs.
Context {Env : Type}.

Definition t := list (string * Tool.t Env).

Definition registerTool (tool : Tool.t Env) (r : list (string * Tool.t Env))
    : list (string * Tool.t Env) :=
  StrMap.set (Tool.id tool) tool r.

Definition getTool (toolId : string) (r : list (string * Tool.t Env))
    : option (Tool.t Env) :=
  StrMap.get toolId r.

Definition getAvailableTools (r : list (string * Tool.t Env))
    : list (Tool.t Env) :=
  StrMap.values r.

Definition getToolsByCapability (capability : string)
    (r : list (string * Tool.t Env)) : list (Tool.t Env) :=
  filter (fun tool => existsb (String.eqb capability) (Tool.capabilities tool))
         (StrMap.values r).
End Defs.
End ToolRegistry.

(** An element of the array the model returns for [decompose]: any field
    may be missing. *)
Module RawTask.
Record t := mk {
  id : option string;
  name : option string;
  description : option string;
  priority : option Q;
  dependencies : option (list string);
  successThreshold : option Q;
  estimatedComplexity : option Q;
  requiresIterativeExecution : option bool;
  maxIterations : option Q;
  requiredCapabilities : option (list string)
}.
End RawTask.

(** llm.ts, [AnthropicLLM.evaluate]. *)
Module AnthropicLLM.

(** What [JSON.parse(response)] gives, as far as [evaluate] reads it:
    a syntax error or [null], of which no field can be read, or a value
    whose field [confidence] is missing or is any JSON value. *)
Inductive Parsed :=
| Malformed
| Object (confidence : option JS.value).

(** [result.confidence || 0] *)
Definition confidence_or_0 (confidence : option JS.value) : JS.value :=
  match confidence with
  | Some v => if JS.truthy v then v else JS.JNumber (JS.Fin 0)
  | None => JS.JNumber (JS.Fin 0)
  end.

(** The [try] block and its [catch]:
    [Math.max(0, Math.min(1, result.confidence || 0))], and [0] when
    something throws. *)
Definition clamp (p : Parsed) : JS.num :=
  match p with
  | Object confidence =>
      match JS.toNumber (confidence_or_0 confidence) with
      | Some n => JS.max (JS.Fin 0) (JS.min (JS.Fin 1) n)
      | None => JS.Fin 0
      end
  | Malformed => JS.Fin 0
  end.

(** [request] stands for [makeRequest] followed by [JSON.parse] of the
    text it returns; what [makeRequest] throws is not caught here. *)
Definition evaluate {Env} (request : Env -> Res Parsed * Env)
    : Env -> Res JS.num * Env :=
  fun env =>
    match request env with
    | (Ok p, env') => (Ok (clamp p), env')
    | (Throw e, env') => (Throw e, env')
    end.

(** What [JSON.parse(response)] gives in the other methods: a syntax
    error, or a value. *)
Inductive Reply (A : Type) :=
| Garbled
| Answer (value : A).
Arguments Garbled {A}.
Arguments Answer {A} value.

(** The callback of [tasks.map] in [decompose]. *)
Definition defaultTask (index : nat) (task : RawTask.t) : Task.t :=
  Task.mk
    (JS.str_or (RawTask.id task) ("task_" ++ JS.show_int (Z.of_nat index + 1)))
    (JS.str_or (RawTask.name task) ("Task " ++ JS.show_int (Z.of_nat index + 1)))
    (JS.str_or (RawTask.description task) "")
    (JS.num_or (RawTask.priority task) 5)
    (Some (JS.arr_or (RawTask.dependencies task) []))
    (JS.num_or (RawTask.successThreshold task) 0.8)
    (JS.num_or (RawTask.estimatedComplexity task) 5)
    (JS.bool_or (RawTask.requiresIterativeExecution task) false)
    (Some (JS.num_or (RawTask.maxIterations task) 10))
    (JS.arr_or (RawTask.requiredCapabilities task) [])
    pending None None.

(** [array.map((x, index) => f(index, x))], counting from [index]. *)
Fixpoint mapi {A B} (f : nat -> A -> B) (index : nat) (l : list A) : list B :=
  match l with
  | [] => []
  | x :: rest => f index x :: mapi f (S index) rest
  end.

(** The elements of the array when all of them are objects; the callback
    throws a [TypeError] on a [null] element. *)
Fixpoint objects {A} (l : list (option A)) : option (list A) :=
  match l with
  | [] => Some []
  | Some x :: rest => option_map (cons x) (objects rest)
  | None :: _ => None
  end.

(** [decompose]: the reply is an array of objects (a reply that is no
    array makes [tasks.map] throw, which the [catch] turns into the same
    error as a syntax error). *)
Definition decompose {Env}
    (request : Env -> Res (Reply (list (option RawTask.t))) * Env)
    : Env -> Res (list Task.t) * Env :=
  fun env =>
    match request env with
    | (Ok (Answer tasks), env') =>
        match objects tasks with
        | Some tasks' => (Ok (mapi defaultTask 0 tasks'), env')
        | None =>
            (Throw (JS.ErrorObj "Failed to parse task decomposition response"),
             env')
        end
    | (Ok Garbled, env') =>
        (Throw (JS.ErrorObj "Failed to parse task decomposition response"), env')
    | (Throw e, env') => (Throw e, env')
    end.

End AnthropicLLM.

(* ------------------------------------------------------------------ *)
(** ** The world of a run and its monad *)

(** One entry of [executionHistory]. *)
Record HistoryEntry := {
  h_tool : string;
  h_task : string;
  h_input : Json;
  h_output : ToolOutput;
  h_duration : Z;
  h_timestamp : Z
}.

(** The calls that leave the scheduler, in the order they are made. An
    evaluation is recorded with the confidence it returned, if any. *)
Inductive Event :=
| EvSelectTools (task : string)
| EvGenerateToolInput (tool : string)
| EvExecute (tool : string)
| EvEvaluate (confidence : option JS.num)
| EvStrategize
| EvAssess.

Record World (Env : Type) := {
  executionHistory : list HistoryEntry;
  trace : list Event;
  outside : Env
}.
Arguments Build_World {Env}.
Arguments executionHistory {Env}.
Arguments trace {Env}.
Arguments outside {Env}.

Definition M (Env A : Type) : Type := World Env -> Res A * World Env.

Definition ret {Env A} (a : A) : M Env A := fun w => (Ok a, w).

Definition bind {Env A B} (m : M Env A) (k : A -> M Env B) : M Env B :=
  fun w =>
    match m w with
    | (Ok a, w') => k a w'
    | (Throw e, w') => (Throw e, w')
    end.

Definition throw {Env A} (e : JS.exn) : M Env A := fun w => (Throw e, w).

(** [try { m } catch (error) { h error }]: what [m] did to the world
    before it threw stays done. *)
Definition try_catch {Env A} (m : M Env A) (h : JS.exn -> M Env A) : M Env A :=
  fun w =>
    match m w with
    | (Ok a, w') => (Ok a, w')
    | (Throw e, w') => h e w'
    end.

(** A call to the outside, recorded in the trace when it is made. *)
Definition call {Env A} (ev : Res A -> Event) (f : Env -> Res A * Env) : M Env A :=
  fun w =>
    let (r, env') := f (outside w) in
    (r, Build_World (executionHistory w) (trace w ++ [ev r]) env').

Definition now {Env} {clock : Clock Env} : M Env Z :=
  fun w =>
    let (n, env') := date_now (outside w) in
    (Ok n, Build_World (executionHistory w) (trace w) env').

Definition push_history {Env} (h : HistoryEntry) : M Env unit :=
  fun w => (Ok tt, Build_World (executionHistory w ++ [h]) (trace w) (outside w)).

Declare Scope monad_scope.
Delimit Scope monad_scope with monad.
Notation "x <- m ;; k" := (bind m (fun x => k))
  (at level 61, m at next level, right associativity) : monad_scope.
Notation "' p <- m ;; k" := (bind m (fun p => k))
  (at level 61, p pattern, m at next level, right associativity) : monad_scope.
Notation "m ;;; k" := (bind m (fun _ => k))
  (at level 61, right associativity) : monad_scope.

(* ------------------------------------------------------------------ *)
(** ** orchestrator.ts

    The spinner and the console are not modelled. A batch is run one task
    after the other in the order of submission; [p-limit] may interleave
    the calls the tasks make to the outside, but it touches neither the
    checklist nor the ledger, which only the main loop writes. *)

Module Orchestrator.
Section Defs.
Context {Env : Type} {clock : Clock Env} {llm : LLM.LLMInterface Env}.

(** The fields of [AIAgentOrchestrator] the loop reads. *)
Variable maxIterations : Z.
Variable toolRegistry : list (string * Tool.t Env).

Local Open Scope monad_scope.

(** The outcome of an evaluation as the trace records it. *)
Definition seen (r : Res JS.num) : option JS.num :=
  match r with Ok c => Some c | Throw _ => None end.

Definition selectTools (task : Task.t) : M Env (list (Tool.t Env)) :=
  let availableTools := ToolRegistry.getAvailableTools toolRegistry in
  selection <- call (fun _ => EvSelectTools (Task.id task))
                    (LLM.selectTools task (map Tool.info availableTools)) ;;
  ret (flat_map
         (fun toolId =>
            match ToolRegistry.getTool toolId toolRegistry with
            | Some tool => [tool]
            | None => []
            end)
         selection).

Definition prepareToolInput (tool : Tool.t Env) (task : Task.t) (context : Json)
    (previousResults : list ToolResult.t) : M Env Json :=
  call (fun _ => EvGenerateToolInput (Tool.name tool))
       (LLM.generateToolInput (Tool.name tool) (Tool.inputSchema tool)
                              task context previousResults).

(** [result.confidence || 1], which throws a [TypeError] when the tool
    resolved to [null] or to [undefined]. *)
Definition reportedConfidence (result : ToolOutput) : M Env Q :=
  match result with
  | OutObj c _ => ret (JS.num_or c 1)
  | OutNull =>
      throw (JS.ErrorObj "Cannot read properties of null (reading 'confidence')")
  | OutUndefined =>
      throw (JS.ErrorObj
               "Cannot read properties of undefined (reading 'confidence')")
  end.

Definition callTool (tool : Tool.t Env) (task : Task.t) (context : Json)
    (previousResults : list ToolResult.t) : M Env ToolResult.t :=
  try_catch
    (toolInput <- prepareToolInput tool task context previousResults ;;
     startTime <- now ;;
     result <- call (fun _ => EvExecute (Tool.name tool))
                    (Tool.execute tool toolInput) ;;
     endTime <- now ;;
     let duration := (endTime - startTime)%Z in
     timestamp <- now ;;
     push_history
       (Build_HistoryEntry (Tool.name tool) (Task.id task) toolInput result
                           duration timestamp) ;;;
     confidence <- reportedConfidence result ;;
     ret (ToolResult.mk true (Tool.name tool) result duration confidence None))
    (fun error =>
       ret (ToolResult.mk false (Tool.name tool) OutNull 0 0
                          (Some (JS.message_of error)))).

Definition evaluateProgress (task : Task.t) (results : list ToolResult.t)
    : M Env JS.num :=
  call (fun r => EvEvaluate (seen r)) (LLM.evaluate task results).

Definition executeSingleTask (task : Task.t) (tools : list (Tool.t Env))
    (context : Json) : M Env TaskResult.t :=
  match tools with
  | [] =>
      ret (TaskResult.mk false 0 1 [] None
                         (Some "No suitable tools found for this task"))
  | tool :: _ =>
      result <- callTool tool task context [] ;;
      ret (TaskResult.mk (ToolResult.success result)
                         (JS.num_or (Some (ToolResult.confidence result)) 1)
                         1 [result] None None)
  end.

(** The [for (const tool of tools)] loop of [executeIterativeTask]; it
    returns the variables [results] and [confidence] as the loop leaves
    them, by [break] or at the end of the list. *)
Fixpoint toolLoop (task : Task.t) (context : Json) (tools : list (Tool.t Env))
    (results : list ToolResult.t) (confidence : JS.num)
    : M Env (list ToolResult.t * JS.num) :=
  match tools with
  | [] => ret (results, confidence)
  | tool :: rest =>
      result <- callTool tool task context results ;;
      let results := (results ++ [result])%list in
      confidence <- evaluateProgress task results ;;
      if JS.ge confidence (Task.successThreshold task)
      then ret (results, confidence)
      else toolLoop task context rest results confidence
  end.

(** The [while] loop of [executeIterativeTask]. Its body runs at most
    once per unit of [fuel]; [iterativeBudget] gives enough of it. *)
Fixpoint whileLoop (fuel : nat) (task : Task.t) (tools : list (Tool.t Env))
    (context : Json) (maxTaskIterations : Q)
    (results : list ToolResult.t) (confidence : JS.num) (iterations : nat)
    : M Env (list ToolResult.t * JS.num * nat) :=
  match fuel with
  | O => ret (results, confidence, iterations)
  | S fuel' =>
      if JS.lt confidence (Task.successThreshold task)
         && JS.lt (inject_Z (Z.of_nat iterations)) maxTaskIterations
      then
        ' (results, confidence) <- toolLoop task context tools results confidence ;;
        whileLoop fuel' task tools context maxTaskIterations
                  results confidence (S iterations)
      else ret (results, confidence, iterations)
  end.

(** The least number of rounds after which [iterations < maxTaskIterations]
    is false. *)
Definition iterativeBudget (maxTaskIterations : Q) : nat :=
  Z.to_nat (Qceiling maxTaskIterations).

Definition executeIterativeTask (task : Task.t) (tools : list (Tool.t Env))
    (context : Json) : M Env TaskResult.t :=
  let maxTaskIterations := JS.num_or (Task.maxIterations task) 10 in
  ' (results, confidence, iterations) <-
      whileLoop (iterativeBudget maxTaskIterations) task tools context
                maxTaskIterations [] 0 0 ;;
  ret (TaskResult.mk (JS.ge confidence (Task.successThreshold task))
                     confidence iterations results None None).

Definition executeTask (task : Task.t) (context : Json) : M Env TaskResult.t :=
  selectedTools <- selectTools task ;;
  if Task.requiresIterativeExecution task
  then executeIterativeTask task selectedTools context
  else executeSingleTask task selectedTools context.

(** [task] is an element of [tasksToExecute], an object of the checklist
    (see [Checklist.availableEntries]). [setTaskInProgress] is given the
    id this object has; the executor then works on the object itself,
    which is marked if it is the one stored under that id. *)
Definition executeTaskWithProgress (task : string * Task.t) (context : Json)
    (checklist : Checklist.t) : M Env (TaskResult.t * Checklist.t) :=
  let checklist :=
    Checklist.setTaskInProgress (Task.id (Checklist.current task checklist))
                                checklist in
  result <- try_catch
              (executeTask (Checklist.current task checklist) context)
              (fun error =>
                 ret (TaskResult.mk false 0 1 [] None
                                    (Some (JS.message_of error)))) ;;
  ret (result, checklist).

(** [Promise.all] over the batch, one task after the other. *)
Fixpoint runBatch (tasksToExecute : list (string * Task.t)) (context : Json)
    (checklist : Checklist.t) : M Env (list TaskResult.t * Checklist.t) :=
  match tasksToExecute with
  | [] => ret ([], checklist)
  | task :: rest =>
      ' (result, checklist) <- executeTaskWithProgress task context checklist ;;
      ' (taskResults, checklist) <- runBatch rest context checklist ;;
      ret (result :: taskResults, checklist)
  end.

(** [Date.now()] as the methods of the checklist read it. *)
Definition world_now (w : World Env) : Z * World Env :=
  let (n, env') := date_now (outside w) in
  (n, Build_World (executionHistory w) (trace w) env').

(** [checklist.updateTaskStatus(taskId, result)] in the world of the
    run. *)
Definition updateTaskStatus (taskId : string) (result : TaskResult.t)
    (checklist : Checklist.t) : M Env Checklist.t :=
  fun w =>
    let (checklist', w') :=
      Checklist.updateTaskStatus world_now taskId result checklist w in
    (Ok checklist', w').

(** The [for] loop that follows the join: [updateTaskStatus] with the id
    of the task object, then the push on [tasksCompleted]. The entry of
    the ledger holds the task object, shown here as it is at that
    moment. *)
Fixpoint recordResults (tasksToExecute : list (string * Task.t))
    (taskResults : list TaskResult.t) (checklist : Checklist.t)
    (tasksCompleted : list LedgerEntry)
    : M Env (Checklist.t * list LedgerEntry) :=
  match taskResults, tasksToExecute with
  | result :: taskResults', task :: tasksToExecute' =>
      checklist <- updateTaskStatus
                     (Task.id (Checklist.current task checklist))
                     result checklist ;;
      timestamp <- now ;;
      recordResults tasksToExecute' taskResults' checklist
        (tasksCompleted
         ++ [Build_LedgerEntry (Checklist.current task checklist)
                               result timestamp])%list
  | _, _ => ret (checklist, tasksCompleted)
  end.

(** [filter(t => !t.result.success).length / recentTasks.length]; [None]
    is the [NaN] of [0 / 0]. *)
Definition failureRate (recentTasks : list LedgerEntry) : option Q :=
  let failures :=
    List.length (filter (fun t => negb (TaskResult.success (entry_result t)))
                        recentTasks) in
  match List.length recentTasks with
  | O => None
  | S n => Some (inject_Z (Z.of_nat failures) / inject_Z (Z.of_nat (S n)))%Q
  end.

(** [failureRate > 0.6]; a comparison with [NaN] is false. *)
Definition tooManyFailures (rate : option Q) : bool :=
  match rate with
  | Some r => JS.gt r 0.6
  | None => false
  end.


Definition reflectAndAdapt (checklist : Checklist.t)
    (executionResult : ExecutionResult.t) : M Env Checklist.t :=
  let recentTasks :=
    JS.slice_last 5 (ExecutionResult.tasksCompleted executionResult) in
  if tooManyFailures (failureRate recentTasks)
  then
    adjustments <- call (fun _ => EvStrategize) (LLM.strategize recentTasks) ;;
    (fun w =>
       let (checklist', w') :=
         Checklist.applyAdjustments world_now
           (JS.arr_or adjustments []) checklist w in
       (Ok checklist', w'))
  else ret checklist.

Definition isGoalAchieved (goalDefinition : GoalDefinition)
    (checklist : Checklist.t) : M Env bool :=
  let completedTasks := Checklist.getCompletedTasks checklist in
  let totalTasks := List.length (Checklist.getAllTasks checklist) in
  let completionRate :=
    match totalTasks with
    | O => None
    | S n => Some (inject_Z (Z.of_nat (List.length completedTasks))
                   / inject_Z (Z.of_nat (S n)))%Q
    end in
  call (fun _ => EvAssess) (LLM.assess goalDefinition completedTasks completionRate).

Definition with_status (s : RunStatus) (r : ExecutionResult.t)
    : ExecutionResult.t :=
  ExecutionResult.mk (ExecutionResult.goal r) (ExecutionResult.startTime r)
    (ExecutionResult.endTime r) (ExecutionResult.duration r)
    (ExecutionResult.iterations r) (ExecutionResult.tasksCompleted r) s.

Definition with_ledger (l : list LedgerEntry) (r : ExecutionResult.t)
    : ExecutionResult.t :=
  ExecutionResult.mk (ExecutionResult.goal r) (ExecutionResult.startTime r)
    (ExecutionResult.endTime r) (ExecutionResult.duration r)
    (ExecutionResult.iterations r) l (ExecutionResult.status r).

Definition next_iteration (r : ExecutionResult.t) : ExecutionResult.t :=
  ExecutionResult.mk (ExecutionResult.goal r) (ExecutionResult.startTime r)
    (ExecutionResult.endTime r) (ExecutionResult.duration r)
    (S (ExecutionResult.iterations r)) (ExecutionResult.tasksCompleted r)
    (ExecutionResult.status r).

(** From the dispatch of a batch to the end of the [for] loop that
    records its results. *)
Definition dispatch (tasksToExecute : list (string * Task.t)) (context : Json)
    (checklist : Checklist.t) (executionResult : ExecutionResult.t)
    : M Env (Checklist.t * ExecutionResult.t) :=
  ' (taskResults, checklist) <- runBatch tasksToExecute context checklist ;;
  ' (checklist, tasksCompleted) <-
      recordResults tasksToExecute taskResults checklist
                    (ExecutionResult.tasksCompleted executionResult) ;;
  ret (checklist, with_ledger tasksCompleted executionResult).

(** One turn of the main loop of [achieveGoal]; [true] stands for
    [break]. *)
Definition iteration (goalDefinition : GoalDefinition) (context : Json)
    (checklist : Checklist.t) (executionResult : ExecutionResult.t)
    : M Env (bool * Checklist.t * ExecutionResult.t) :=
  achieved <- isGoalAchieved goalDefinition checklist ;;
  if achieved : bool
  then ret (true, checklist, with_status run_completed executionResult)
  else
    let availableTasks := Checklist.availableEntries checklist in
    match availableTasks with
    | [] => ret (true, checklist, with_status run_no_viable_tasks executionResult)
    | _ :: _ =>
        let tasksToExecute := JS.slice_first 3 availableTasks in
        ' (checklist, executionResult) <-
            dispatch tasksToExecute context checklist executionResult ;;
        checklist <- reflectAndAdapt checklist executionResult ;;
        ret (false, checklist, next_iteration executionResult)
    end.

(** [while (executionResult.iterations < this.maxIterations)]; the body
    runs at most once per unit of [fuel]. *)
Fixpoint mainLoop (fuel : nat) (goalDefinition : GoalDefinition)
    (context : Json) (checklist : Checklist.t)
    (executionResult : ExecutionResult.t)
    : M Env (Checklist.t * ExecutionResult.t) :=
  match fuel with
  | O => ret (checklist, executionResult)
  | S fuel' =>
      if (Z.of_nat (ExecutionResult.iterations executionResult) <? maxIterations)%Z
      then
        ' (stop, checklist, executionResult) <-
            iteration goalDefinition context checklist executionResult ;;
        if stop : bool
        then ret (checklist, executionResult)
        else mainLoop fuel' goalDefinition context checklist executionResult
      else ret (checklist, executionResult)
  end.

Definition defineGoal (goal : string) (context : Json) : M Env GoalDefinition :=
  definition <- (fun w =>
                   let (r, env') := LLM.analyze goal context (outside w) in
                   (r, Build_World (executionHistory w) (trace w) env')) ;;
  ret (Build_GoalDefinition goal
         (JS.arr_or (a_successCriteria definition) [])
         (JS.arr_or (a_constraints definition) [])
         (JS.arr_or (a_expectedOutcomes definition) [])
         (JS.arr_or (a_challenges definition) [])).

Definition createChecklist (goalDefinition : GoalDefinition)
    : M Env Checklist.t :=
  tasks <- (fun w =>
              let (r, env') := LLM.decompose goalDefinition (outside w) in
              (r, Build_World (executionHistory w) (trace w) env')) ;;
  ret (Checklist.new tasks goalDefinition).

Definition achieveGoal (goal : string) (context : Json)
    : M Env ExecutionResult.t :=
  goalDefinition <- defineGoal goal context ;;
  checklist <- createChecklist goalDefinition ;;
  startTime <- now ;;
  let executionResult :=
    ExecutionResult.mk goal startTime None None 0 [] run_in_progress in
  ' (checklist, executionResult) <-
      mainLoop (Z.to_nat maxIterations) goalDefinition context
               checklist executionResult ;;
  endTime <- now ;;
  ret (ExecutionResult.mk goal startTime (Some endTime)
         (Some (endTime - startTime)%Z)
         (ExecutionResult.iterations executionResult)
         (ExecutionResult.tasksCompleted executionResult)
         (ExecutionResult.status executionResult)).

Definition selectNextTask (checklist : Checklist.t)
    (executionResult : ExecutionResult.t) : M Env (option Task.t) :=
  let availableTasks := Checklist.getAvailableTasks checklist in
  match availableTasks with
  | [] => ret None
  | _ :: _ =>
      selection <- (fun w =>
                      let (r, env') :=
                        LLM.selectTask availableTasks
                          (ExecutionResult.tasksCompleted executionResult)
                          (Checklist.goalDefinition checklist) (outside w) in
                      (r, Build_World (executionHistory w) (trace w) env')) ;;
      ret (find (fun t => String.eqb (Task.id t) selection) availableTasks)
  end.
End Defs.
End Orchestrator.

(* ------------------------------------------------------------------ *)
(** ** config.ts, auth.ts and the start of [run] in cli.ts

    The file system and the environment are a state of their own; a
    configuration manager is the configuration object it holds in
    memory. [JSON.stringify] followed by [JSON.parse] is the identity on
    the configurations that occur (no top-level field is ever
    [undefined]), so the file is shown as the value it holds. *)

Module ConfigManager.

Record Anthropic := mkAnthropic {
  apiKey : option string;
  disabled : option bool;
  model : option string
}.

(** [providers] is [None] when the value under that key has no
    [anthropic] object, so that reading a field of it throws; another key
    is [None] when the file gives [null] for it. *)
Record AgentFlowConfig := mkConfig {
  providers : option Anthropic;
  maxIterations : option Q;
  confidenceThreshold : option Q;
  parallelExecution : option bool
}.

(** The object parsed from the file: any top-level key may be missing. *)
Record UserConfig := mkUser {
  u_providers : option (option Anthropic);
  u_maxIterations : option (option Q);
  u_confidenceThreshold : option (option Q);
  u_parallelExecution : option (option bool)
}.

(** [~/.agentflow.json]: absent, unreadable or not JSON, or an object. *)
Inductive ConfigFile :=
| Missing
| Unreadable
| Readable (userConfig : UserConfig).

(** The file, whether it can be written (and the text of the error if
    not), and [process.env.ANTHROPIC_API_KEY]. *)
Record Process := mkProcess {
  file : ConfigFile;
  writeError : option string;
  envKey : option string
}.

Definition defaultConfig : AgentFlowConfig :=
  mkConfig (Some (mkAnthropic None (Some false)
                              (Some "claude-3-5-sonnet-20241022")))
           (Some 100%Q) (Some 0.8%Q) (Some true).

Definition over {A} (new : option A) (old : A) : A :=
  match new with Some v => v | None => old end.

(** [{ ...base, ...updates }] *)
Definition spread (base : AgentFlowConfig) (updates : UserConfig)
    : AgentFlowConfig :=
  mkConfig (over (u_providers updates) (providers base))
           (over (u_maxIterations updates) (maxIterations base))
           (over (u_confidenceThreshold updates) (confidenceThreshold base))
           (over (u_parallelExecution updates) (parallelExecution base)).

(** A configuration as an object with every key present. *)
Definition whole (c : AgentFlowConfig) : UserConfig :=
  mkUser (Some (providers c)) (Some (maxIterations c))
         (Some (confidenceThreshold c)) (Some (parallelExecution c)).

Definition loadConfig (p : Process) : AgentFlowConfig :=
  match file p with
  | Readable userConfig => spread defaultConfig userConfig
  | Unreadable => defaultConfig
  | Missing => defaultConfig
  end.

(** [new ConfigManager()] *)
Definition new (p : Process) : AgentFlowConfig := loadConfig p.

(** The [TypeError] of reading or setting a field of the [anthropic]
    object when there is none. Its message names the field and says
    whether [null] or [undefined] stands in the way; one text stands here
    for all of them, and no property depends on it. *)
Definition typeError {A} : Res A :=
  Throw (JS.ErrorObj "Cannot read properties of undefined").

Definition saveConfig (c : AgentFlowConfig) (p : Process) : Res unit * Process :=
  match writeError p with
  | None => (Ok tt, mkProcess (Readable (whole c)) None (envKey p))
  | Some text => (Throw (JS.ErrorObj ("Failed to save config: " ++ text)), p)
  end.

(** [updateConfig(updates)]: the new configuration stays in memory also
    when saving it throws. *)
Definition updateConfig (updates : UserConfig) (c : AgentFlowConfig)
    (p : Process) : Res unit * AgentFlowConfig * Process :=
  let c' := spread c updates in
  let (r, p') := saveConfig c' p in
  (r, c', p').

Definition truthy (x : option string) : bool :=
  match x with
  | Some (String _ _) => true
  | _ => false
  end.

(** [this.config.providers.anthropic.apiKey || process.env.ANTHROPIC_API_KEY] *)
Definition getAnthropicApiKey (c : AgentFlowConfig) (p : Process)
    : Res (option string) :=
  match providers c with
  | None => typeError
  | Some a => Ok (if truthy (apiKey a) then apiKey a else envKey p)
  end.

Definition setAnthropicApiKey (key : string) (c : AgentFlowConfig)
    (p : Process) : Res unit * AgentFlowConfig * Process :=
  match providers c with
  | None => (typeError, c, p)
  | Some a =>
      let c' := mkConfig (Some (mkAnthropic (Some key) (disabled a) (model a)))
                         (maxIterations c) (confidenceThreshold c)
                         (parallelExecution c) in
      let (r, p') := saveConfig c' p in
      (r, c', p')
  end.

Definition isAnthropicEnabled (c : AgentFlowConfig) (p : Process) : Res bool :=
  match providers c with
  | None => typeError
  | Some a =>
      match disabled a with
      | Some true => Ok false
      | _ => Ok (truthy (if truthy (apiKey a) then apiKey a else envKey p))
      end
  end.

End ConfigManager.

Module AuthManager.
Import ConfigManager.

(** The answer to the question of [ensureAuthenticated]. *)
Inductive Method := enter | env | exit | unknown.

(** [promptForApiKey], [key] being the accepted input once trimmed (the
    prompt accepts only an input that starts with [sk-ant-]). *)
Definition promptForApiKey (key : string) (c : AgentFlowConfig) (p : Process)
    : bool * AgentFlowConfig * Process :=
  match setAnthropicApiKey key c p with
  | (Ok _, c', p') => (true, c', p')
  | (Throw _, c', p') => (false, c', p')
  end.

Definition ensureAuthenticated (method : Method) (key : string)
    (c : AgentFlowConfig) (p : Process) : Res bool * AgentFlowConfig * Process :=
  match getAnthropicApiKey c p with
  | Throw e => (Throw e, c, p)
  | Ok apiKey =>
      if truthy apiKey then (Ok true, c, p)
      else
        match method with
        | enter =>
            match promptForApiKey key c p with
            | (b, c', p') => (Ok b, c', p')
            end
        | _ => (Ok false, c, p)
        end
  end.

(** [login], [overwrite] being the answer to the confirmation. *)
Definition login (overwrite : bool) (key : string) (c : AgentFlowConfig)
    (p : Process) : Res unit * AgentFlowConfig * Process :=
  match getAnthropicApiKey c p with
  | Throw e => (Throw e, c, p)
  | Ok apiKey =>
      if truthy apiKey && negb overwrite then (Ok tt, c, p)
      else
        match promptForApiKey key c p with
        | (_, c', p') => (Ok tt, c', p')
        end
  end.

Definition logout (c : AgentFlowConfig) (p : Process)
    : Res unit * AgentFlowConfig * Process :=
  match providers c with
  | None => (typeError, c, p)
  | Some a =>
      if truthy (apiKey a)
      then
        let c' := mkConfig (Some (mkAnthropic None (disabled a) (model a)))
                           (maxIterations c) (confidenceThreshold c)
                           (parallelExecution c) in
        updateConfig (whole c') c' p
      else (Ok tt, c, p)
  end.

End AuthManager.

Module Cli.
Import ConfigManager.

(** The constructor of [AnthropicLLM]: the key and the model it will
    use. *)
Definition newAnthropicLLM (c : AgentFlowConfig) (p : Process)
    : Res (string * string) :=
  match getAnthropicApiKey c p with
  | Throw e => Throw e
  | Ok apiKey =>
      match apiKey with
      | Some (String ch rest) =>
          match providers c with
          | Some a =>
              Ok (String ch rest,
                  JS.str_or (model a) "claude-3-5-sonnet-20241022")
          | None => typeError
          end
      | _ => Throw (JS.ErrorObj "Anthropic API key not found")
      end
  end.

(** How [run] starts. *)
Inductive Start :=
| Exit1
| Failed (error : JS.exn)
| Ready (apiKey model : string).

(** The module creates one manager for itself and [AuthManager] creates
    another; [run] asks the second to authenticate and builds the oracle
    from the first (a goal is given on the command line and the context,
    if any, is well-formed JSON). *)
Definition runStart (method : AuthManager.Method) (key : string) (p : Process)
    : Start * Process :=
  let configManager := ConfigManager.new p in
  let authManager := ConfigManager.new p in
  match AuthManager.ensureAuthenticated method key authManager p with
  | (Throw e, _, p') => (Failed e, p')
  | (Ok false, _, p') => (Exit1, p')
  | (Ok true, _, p') =>
      match newAnthropicLLM configManager p' with
      | Ok (apiKey, model) => (Ready apiKey model, p')
      | Throw e => (Failed e, p')
      end
  end.

End Cli.

(* ------------------------------------------------------------------ *)
(** ** A scripted outside, for the examples *)

Module Fixture.

(** The clock stands still, as it does for calls that fall in the same
    millisecond; the oracle reads its answers from the script. *)
Record Env := mk {
  time : Z;
  confidences : list JS.num;
  unreachable : list string;
  selection : list string;
  advice : option (list Adjustment)
}.

#[global] Instance clock : Clock Env := {
  date_now := fun e => (time e, e)
}.

Definition down {A} : Res A := Throw (JS.ErrorObj "LLM request failed").

(** The next scripted confidence, as an oracle that returns it as it is.
    (The oracle cannot be reached when asked about a task or a tool named
    in [unreachable].) *)
Definition next_confidence (e : Env) : Res JS.num * Env :=
  match confidences e with
  | c :: rest => (Ok c, mk (time e) rest (unreachable e) (selection e) (advice e))
  | [] => (down, e)
  end.

(** The next scripted confidence, as the reply of the remote model that
    [AnthropicLLM.evaluate] parses. *)
Definition next_reply (e : Env) : Res AnthropicLLM.Parsed * Env :=
  match confidences e with
  | c :: rest =>
      (Ok (AnthropicLLM.Object (Some (JS.JNumber c))),
       mk (time e) rest (unreachable e) (selection e) (advice e))
  | [] => (down, e)
  end.

Definition scripted (evaluate : Env -> Res JS.num * Env)
    : LLM.LLMInterface Env := {|
  LLM.analyze := fun _ _ e => (Ok (Build_Analysis None None None None), e);
  LLM.decompose := fun _ e => (Ok [], e);
  LLM.selectTools := fun task _ e =>
    if existsb (String.eqb (Task.id task)) (unreachable e)
    then (down, e) else (Ok (selection e), e);
  LLM.selectTask := fun _ _ _ e => (down, e);
  LLM.generateToolInput := fun toolName _ _ _ _ e =>
    if existsb (String.eqb toolName) (unreachable e)
    then (down, e) else (Ok (JsonText "{}"), e);
  LLM.evaluate := fun _ _ => evaluate;
  LLM.strategize := fun _ e => (Ok (advice e), e);
  LLM.assess := fun _ _ _ e => (Ok false, e)
|}.

(** An implementation of [LLMInterface] that hands over what it is given. *)
Definition raw : LLM.LLMInterface Env := scripted next_confidence.

(** [AnthropicLLM] as far as [evaluate] goes. *)
Definition anthropic : LLM.LLMInterface Env :=
  scripted (AnthropicLLM.evaluate next_reply).

(** [AnthropicLLM] in front of a model that answers every evaluation
    with the JSON text [{"confidence": {}}]. *)
Definition vague : LLM.LLMInterface Env :=
  scripted (AnthropicLLM.evaluate
              (fun e => (Ok (AnthropicLLM.Object (Some (JS.JObject false))), e))).

(** The same oracle, except that it decomposes every goal into [tasks]
    and picks [pick] as the next task. *)
Definition planning (tasks : list Task.t) (pick : string)
    : LLM.LLMInterface Env := {|
  LLM.analyze := @LLM.analyze _ raw;
  LLM.decompose := fun _ e => (Ok tasks, e);
  LLM.selectTools := @LLM.selectTools _ raw;
  LLM.selectTask := fun _ _ _ e => (Ok pick, e);
  LLM.generateToolInput := @LLM.generateToolInput _ raw;
  LLM.evaluate := @LLM.evaluate _ raw;
  LLM.strategize := @LLM.strategize _ raw;
  LLM.assess := @LLM.assess _ raw
|}.

Definition tool (i : string) (behaviour : Res ToolOutput) : Tool.t Env :=
  Tool.mk i i "" [] (JsonText "{}") (JsonText "{}") (fun _ e => (behaviour, e)).

Definition steady : Tool.t Env :=
  tool "steady" (Ok (OutObj (Some 0.9%Q) (JsonText "done"))).
Definition silent : Tool.t Env :=
  tool "silent" (Ok (OutObj None (JsonText "done"))).
Definition zero : Tool.t Env :=
  tool "zero" (Ok (OutObj (Some 0%Q) (JsonText "nothing"))).
Definition broken : Tool.t Env :=
  tool "broken" (Throw (JS.ErrorObj "boom")).

Definition registry : list (string * Tool.t Env) :=
  ToolRegistry.registerTool broken
    (ToolRegistry.registerTool zero
       (ToolRegistry.registerTool silent
          (ToolRegistry.registerTool steady []))).

Definition task (i : string) (deps : list string) (iterative : bool) : Task.t :=
  Task.mk i i "" 5 (Some deps) 0.8 5 iterative None [] pending None None.

Definition goal : GoalDefinition := Build_GoalDefinition "goal" [] [] [] [].

Definition context : Json := JsonText "{}".

Definition passed : TaskResult.t := TaskResult.mk true 1 1 [] None None.
Definition flunked : TaskResult.t :=
  TaskResult.mk false 0 1 [] None (Some "boom").

Definition env (cs : list Q) (sel : list string) : Env :=
  mk 1700000000000 (map JS.Fin cs) [] sel None.

Definition world (e : Env) : World Env := Build_World [] [] e.

(** Five tasks: [a] is free, [b] waits for [a], [c] and [d] wait for each
    other, [e] waits for a task that does not exist. *)
Definition graph : Checklist.t :=
  Checklist.new
    [task "a" [] false; task "b" ["a"] false; task "c" ["d"] false;
     task "d" ["c"] false; task "e" ["ghost"] false]
    goal.

(** Three free tasks; the oracle cannot be reached for the second. *)
Definition trio : Checklist.t :=
  Checklist.new
    [task "p" [] false; task "q" [] false; task "r" [] false] goal.

Definition trio_env : Env := mk 1700000000000 [] ["q"] ["steady"] None.

(** An [add] adjustment that gives a name and nothing else. *)
Definition bare (name : string) : Adjustment :=
  add (TaskInput.mk None name "" None None None None None None None).

(** An [add] adjustment that gives an id and a name. *)
Definition named (i name : string) : Adjustment :=
  add (TaskInput.mk (Some i) name "" None None None None None None None).

(** A [modify] adjustment that sets the status and nothing else. *)
Definition restatus (taskId : string) (s : Status) : Adjustment :=
  modify taskId
    (Patch.mk None None None None None None None None None None (Some s) None None).

(** A [modify] adjustment that sets the id and nothing else. *)
Definition rename (taskId newId : string) : Adjustment :=
  modify taskId
    (Patch.mk (Some newId) None None None None None None None None None
              None None None).

(** The three free tasks, once the task stored under [p] was given the
    id [z]. *)
Definition renamed : Checklist.t :=
  fst (Checklist.applyAdjustments date_now [rename "p" "z"] trio trio_env).

(** The oracle cannot be reached for any of the three tasks, and advises
    to put [p] back in progress. *)
Definition reopening : Env :=
  mk 1700000000000 [] ["p"; "q"; "r"] ["steady"]
     (Some [restatus "p" in_progress]).

(** A checklist whose only task is completed. *)
Definition done : Checklist.t :=
  fst (Checklist.updateTaskStatus date_now "a" passed
         (Checklist.new [task "a" [] false] goal) (env [] [])).

Definition entry (r : TaskResult.t) : LedgerEntry :=
  Build_LedgerEntry (task "x" [] false) r 0.

Definition ledger (l : list LedgerEntry) : ExecutionResult.t :=
  ExecutionResult.mk "goal" 0 None None 0 l run_in_progress.

End Fixture.

(* ------------------------------------------------------------------ *)
(** ** More examples *)

Module Scenario.

(** A clock that advances by one millisecond at each reading. *)
Definition tick (c : Z) : Z * Z := (c, (c + 1)%Z).

End Scenario.

(* ------------------------------------------------------------------ *)
(** ** Vocabulary of the properties *)

(** [completed] and [failed] are the terminal statuses. *)
Definition terminal (s : Status) : Prop := s = completed \/ s = failed.

(** The dependencies a task declares, none when the field is absent. *)
Definition deps_of (task : Task.t) : list string :=
  JS.arr_or (Task.dependencies task) [].

(** Every task is stored under its own id, as the constructor and [add]
    store it (the data model calls the identifier unique and stable). *)
Definition well_keyed (cl : Checklist.t) : Prop :=
  NoDup (StrMap.keys (Checklist.tasks cl)) /\
  forall k task, In (k, task) (Checklist.tasks cl) -> Task.id task = k.

(** A set of ids whose tasks wait for one another: each one is [pending]
    and has a dependency in the set. Every dependency cycle of a fresh
    checklist is one, and so is a task that depends on itself. *)
Definition blocked (cl : Checklist.t) (ids : list string) : Prop :=
  forall k task, In k ids -> Checklist.getTask k cl = Some task ->
    Task.status task = pending /\
    exists d, In d (deps_of task) /\ In d ids.

(** The checklist once [setTaskInProgress] has been called for every
    member of the batch. *)
Definition markAll (batch : list (string * Task.t)) (cl : Checklist.t)
    : Checklist.t :=
  fold_left
    (fun c task =>
       Checklist.setTaskInProgress (Task.id (Checklist.current task c)) c)
    batch cl.

(** A batch whose members are objects of the checklist, each one once and
    each one stored under its own id. *)
Definition batch_of (cl : Checklist.t) (batch : list (string * Task.t))
    : Prop :=
  NoDup (map fst batch) /\
  forall task, In task batch ->
    Checklist.getTask (fst task) cl = Some (snd task) /\
    Task.id (snd task) = fst task.

(** What [executeTaskWithProgress] makes of the execution of a task: its
    result, or a failed result with the message of what it threw. *)
Definition outcome (res : Res TaskResult.t) : TaskResult.t :=
  match res with
  | Ok r => r
  | Throw e => TaskResult.mk false 0 1 [] None (Some (JS.message_of e))
  end.

(** The results [rs] are those of the members of [batch], executed one
    after the other from the world [w], each one after it was marked in
    the checklist, [w'] being the world after the last one. *)
Fixpoint executed {Env} {clock : Clock Env} {llm : LLM.LLMInterface Env}
    (toolRegistry : list (string * Tool.t Env))
    (batch : list (string * Task.t)) (context : Json) (cl : Checklist.t)
    (w : World Env) (rs : list TaskResult.t) (w' : World Env) : Prop :=
  match batch, rs with
  | [], [] => w' = w
  | task :: rest, r :: rs' =>
      let cl1 :=
        Checklist.setTaskInProgress (Task.id (Checklist.current task cl)) cl in
      exists res w1,
        Orchestrator.executeTask toolRegistry (Checklist.current task cl1)
                                 context w = (res, w1) /\
        r = outcome res /\
        executed toolRegistry rest context cl1 w1 rs' w'
  | _, _ => False
  end.

(** An adjustment that cannot change the status of the task stored under
    [k]: a reorder, a modify that is for another task or carries no status,
    an add under an explicit id other than [k]. *)
Definition spares (k : string) (adj : Adjustment) : Prop :=
  match adj with
  | reorder _ _ => True
  | modify taskId modifications =>
      taskId <> k \/ Patch.status modifications = None
  | add a =>
      exists ch rest,
        TaskInput.id a = Some (String ch rest) /\ String ch rest <> k
  | other _ => True
  end.

(** An adjustment that renames no stored task: only a [modify] whose
    patch carries an id can. *)
Definition keeps_ids (adj : Adjustment) : Prop :=
  match adj with
  | modify _ modifications => Patch.id modifications = None
  | _ => True
  end.

(** The failure fraction among [recent] exceeds 0.6. *)
Definition failure_fraction_exceeds (recent : list LedgerEntry) : Prop :=
  recent <> [] /\
  (0.6 < inject_Z (Z.of_nat
                     (List.length
                        (filter (fun t => negb (TaskResult.success (entry_result t)))
                                recent)))
         / inject_Z (Z.of_nat (List.length recent)))%Q.

(** A number of the interval [0,1]. *)
Definition in_unit_interval (n : JS.num) : Prop :=
  match n with
  | JS.Fin q => (0 <= q <= 1)%Q
  | _ => False
  end.



(** Every tool of the registry is stored under its own id, as
    [registerTool] stores it. *)
Definition registered_by_id {Env} (r : list (string * Tool.t Env)) : Prop :=
  NoDup (StrMap.keys r) /\
  forall k tool, ToolRegistry.getTool k r = Some tool -> Tool.id tool = k.

(** The tools that the ids returned by the oracle stand for: an id that
    is not registered stands for nothing. *)
Definition resolved {Env} (r : list (string * Tool.t Env))
    (ids : list string) : list (Tool.t Env) :=
  flat_map
    (fun toolId =>
       match ToolRegistry.getTool toolId r with
       | Some tool => [tool]
       | None => []
       end)
    ids.

(** A computation that only adds to the execution history and to the
    trace: what was there before is still there, in place. *)
Definition grows {Env A} (m : M Env A) : Prop :=
  forall w r w', m w = (r, w') ->
    exists h t,
      executionHistory w' = (executionHistory w ++ h)%list /\
      trace w' = (trace w ++ t)%list.

(* ================================================================== *)
(** * Properties *)

Unset Implicit Arguments.

(* ------------------------------------------------------------------ *)
(** ** Numbers *)

Module NumFacts.

Lemma lt_Fin (a b : Q) : JS.lt (JS.Fin a) (JS.Fin b) = negb (Qle_bool b a).
Proof. reflexivity. Qed.

Lemma ge_Fin (a b : Q) : JS.ge (JS.Fin a) (JS.Fin b) = Qle_bool b a.
Proof. reflexivity. Qed.

Lemma gt_Fin (a b : Q) : JS.gt (JS.Fin a) (JS.Fin b) = negb (Qle_bool a b).
Proof. reflexivity. Qed.

(** [a >= b] excludes [a < b]. *)
Lemma ge_not_lt (a b : JS.num) : JS.ge a b = true -> JS.lt a b = false.
Proof.
  unfold JS.ge, JS.lt, JS.le. intros H.
  destruct a, b; try reflexivity; try discriminate H; now rewrite H.
Qed.




Lemma NaN_not_lt (b : JS.num) : JS.lt JS.NaN b = false.
Proof. reflexivity. Qed.

End NumFacts.

(* ------------------------------------------------------------------ *)
(** ** The insertion-ordered map *)

Module StrMapFacts.
Import StrMap.
Section Facts.
Context {V : Type}.
Implicit Types (m : list (string * V)) (k : string) (v : V).

Lemma get_update k k' f m :
  get k (update k' f m) =
  if String.eqb k k' then option_map f (get k m) else get k m.
Proof.
  induction m as [|[k0 v0] m IH]; simpl.
  - now destruct (String.eqb k k').
  - destruct (String.eqb k' k0) eqn:E0; simpl.
    + apply String.eqb_eq in E0; subst k0.
      destruct (String.eqb k k') eqn:E; simpl; reflexivity.
    + destruct (String.eqb k k0) eqn:E1; simpl.
      * apply String.eqb_eq in E1; subst k0.
        rewrite String.eqb_sym in E0. now rewrite E0.
      * exact IH.
Qed.

Lemma update_missing k f m : get k m = None -> update k f m = m.
Proof.
  induction m as [|[k0 v0] m IH]; simpl; [reflexivity|].
  destruct (String.eqb k k0); [discriminate|].
  intros H. now rewrite IH.
Qed.

Lemma get_update_same k f m :
  get k (update k f m) = option_map f (get k m).
Proof. rewrite get_update. now rewrite String.eqb_refl. Qed.

Lemma get_update_other k k' f m :
  k <> k' -> get k (update k' f m) = get k m.
Proof.
  intros Hne. rewrite get_update.
  apply String.eqb_neq in Hne. now rewrite Hne.
Qed.

Lemma keys_update k f m : keys (update k f m) = keys m.
Proof.
  unfold keys.
  induction m as [|[k0 v0] m IH]; simpl; [reflexivity|].
  destruct (String.eqb k k0); simpl; [reflexivity|].
  f_equal. exact IH.
Qed.

Lemma get_set k k' v m :
  get k (set k' v m) = if String.eqb k k' then Some v else get k m.
Proof.
  induction m as [|[k0 v0] m IH]; simpl.
  - reflexivity.
  - destruct (String.eqb k' k0) eqn:E0; simpl.
    + apply String.eqb_eq in E0; subst k0.
      now destruct (String.eqb k k').
    + destruct (String.eqb k k0) eqn:E1; simpl.
      * apply String.eqb_eq in E1; subst k0.
        rewrite String.eqb_sym in E0. now rewrite E0.
      * exact IH.
Qed.

Lemma get_some_keys k m : (exists v, get k m = Some v) <-> In k (keys m).
Proof.
  induction m as [|[k0 v0] m IH]; simpl.
  - split; [intros [v Hv]; discriminate | tauto].
  - destruct (String.eqb k k0) eqn:E.
    + apply String.eqb_eq in E; subst. split; eauto.
    + apply String.eqb_neq in E. rewrite IH. split.
      * tauto.
      * intros [Heq | Hin]; [congruence | exact Hin].
Qed.

Lemma get_none_keys k m : get k m = None <-> ~ In k (keys m).
Proof.
  rewrite <- get_some_keys. destruct (get k m) as [v|].
  - split; [discriminate | intros Hn; exfalso; eauto].
  - split; [intros _ [v Hv]; discriminate | reflexivity].
Qed.

Lemma keys_set k v m :
  keys (set k v m) =
  match get k m with Some _ => keys m | None => (keys m ++ [k])%list end.
Proof.
  unfold keys.
  induction m as [|[k0 v0] m IH]; simpl; [reflexivity|].
  destruct (String.eqb k k0) eqn:E; simpl; [reflexivity|].
  rewrite IH. now destruct (get k m).
Qed.

Lemma length_set k v m :
  List.length (set k v m) =
  match get k m with Some _ => List.length m | None => S (List.length m) end.
Proof.
  induction m as [|[k0 v0] m IH]; simpl; [reflexivity|].
  destruct (String.eqb k k0) eqn:E; simpl; [reflexivity|].
  rewrite IH. now destruct (get k m).
Qed.

Lemma length_update k f m : List.length (update k f m) = List.length m.
Proof.
  induction m as [|[k0 v0] m IH]; simpl; [reflexivity|].
  destruct (String.eqb k k0); simpl; congruence.
Qed.

Lemma NoDup_keys_set k v m : NoDup (keys m) -> NoDup (keys (set k v m)).
Proof.
  intros Hnd. rewrite keys_set. destruct (get k m) eqn:E; [exact Hnd|].
  apply get_none_keys in E.
  apply NoDup_app; [exact Hnd | | ].
  - constructor; [intros [] | constructor].
  - intros x Hx [Hk | []]. subst. exact (E Hx).
Qed.

Lemma NoDup_keys_of_entries (es : list (string * V)) : NoDup (keys (of_entries es)).
Proof.
  unfold of_entries.
  assert (G : forall acc, NoDup (keys acc) ->
            NoDup (keys (fold_left (fun m e => set (fst e) (snd e) m) es acc))).
  { induction es as [|e es IH]; intros acc Hacc; simpl; [exact Hacc|].
    apply IH. now apply NoDup_keys_set. }
  apply G. constructor.
Qed.

Lemma get_app k m1 m2 :
  get k (m1 ++ m2) =
  match get k m1 with Some v => Some v | None => get k m2 end.
Proof.
  induction m1 as [|[k0 v0] m1 IH]; simpl; [reflexivity|].
  now destruct (String.eqb k k0).
Qed.

(** [new Map(entries)] binds a key to the value of its last entry. *)
Lemma get_fold_set k (es acc : list (string * V)) :
  get k (fold_left (fun m e => set (fst e) (snd e) m) es acc) =
  match get k (rev es) with Some v => Some v | None => get k acc end.
Proof.
  revert acc. induction es as [|[k0 v0] es IH]; intros acc; simpl.
  - reflexivity.
  - rewrite IH, get_app. destruct (get k (rev es)); [reflexivity|].
    simpl. rewrite get_set. now destruct (String.eqb k k0).
Qed.

Lemma get_of_entries k (es : list (string * V)) :
  get k (of_entries es) = get k (rev es).
Proof.
  unfold of_entries. rewrite get_fold_set. now destruct (get k (rev es)).
Qed.

Lemma In_set (e : string * V) k v m :
  In e (set k v m) -> In e m \/ e = (k, v).
Proof.
  induction m as [|[k0 v0] m IH]; simpl.
  - intros [He | []]. now right.
  - destruct (String.eqb k k0) eqn:E; simpl.
    + apply String.eqb_eq in E. subst k0.
      intros [He | Hin]; [now right | left; now right].
    + intros [He | Hin]; [left; now left|].
      destruct (IH Hin); [left; now right | now right].
Qed.

Lemma In_of_entries (e : string * V) (es : list (string * V)) :
  In e (of_entries es) -> In e es.
Proof.
  unfold of_entries.
  assert (G : forall acc,
            In e (fold_left (fun m x => set (fst x) (snd x) m) es acc) ->
            In e acc \/ In e es).
  { induction es as [|[k0 v0] es IH]; intros acc Hin; simpl in *.
    - now left.
    - destruct (IH _ Hin) as [Hacc | Hes]; [|right; now right].
      apply In_set in Hacc. destruct Hacc; [now left | right; now left]. }
  intros Hin. destruct (G [] Hin) as [[] | H]; exact H.
Qed.

(** With distinct keys, the entries are exactly the bindings [get] sees. *)
Lemma In_get k v m : NoDup (keys m) -> In (k, v) m -> get k m = Some v.
Proof.
  induction m as [|[k0 v0] m IH]; simpl; intros Hnd Hin; [contradiction|].
  inversion Hnd as [|? ? Hnotin Hnd']; subst.
  destruct Hin as [Heq | Hin].
  - inversion Heq; subst. now rewrite String.eqb_refl.
  - destruct (String.eqb k k0) eqn:E.
    + apply String.eqb_eq in E; subst.
      exfalso. apply Hnotin. apply in_map_iff. exists (k0, v). auto.
    + now apply IH.
Qed.

Lemma get_In k v m : get k m = Some v -> In (k, v) m.
Proof.
  induction m as [|[k0 v0] m IH]; simpl; intros Hg; [discriminate|].
  destruct (String.eqb k k0) eqn:E.
  - apply String.eqb_eq in E; subst. inversion Hg; subst. now left.
  - right. now apply IH.
Qed.

End Facts.
End StrMapFacts.

(* ------------------------------------------------------------------ *)
(** ** The checklist *)

Lemma Status_eqb_eq a b : Status_eqb a b = true <-> a = b.
Proof. destruct a, b; simpl; split; congruence. Qed.

Lemma Status_eqb_neq a b : Status_eqb a b = false <-> a <> b.
Proof. destruct a, b; simpl; split; congruence. Qed.

Module ChecklistFacts.
Import Checklist.

Lemma In_values (cl : t) (task : Task.t) :
  In task (getAllTasks cl) <-> exists k, In (k, task) (tasks cl).
Proof.
  unfold getAllTasks, StrMap.values. rewrite in_map_iff. split.
  - intros [[k x] [Hx Hin]]. simpl in Hx. subst. eauto.
  - intros [k Hin]. exists (k, task). auto.
Qed.

Lemma getTask_In_values (cl : t) k task :
  getTask k cl = Some task -> In task (getAllTasks cl).
Proof.
  intros Hg. apply In_values. exists k. now apply StrMapFacts.get_In.
Qed.

(** A stored task is found again under its id when the checklist is
    well keyed. *)
Lemma well_keyed_getTask (cl : t) task :
  well_keyed cl -> In task (getAllTasks cl) ->
  getTask (Task.id task) cl = Some task.
Proof.
  intros [Hnd Hid] Hin. apply In_values in Hin. destruct Hin as [k Hin].
  rewrite (Hid _ _ Hin). now apply StrMapFacts.In_get.
Qed.

Lemma well_keyed_id (cl : t) k task :
  well_keyed cl -> getTask k cl = Some task -> Task.id task = k.
Proof.
  intros [_ Hid] Hg. apply Hid. now apply StrMapFacts.get_In.
Qed.

Lemma deps_loop_spec (cl : t) deps :
  deps_loop cl deps = true <->
  forall depId, In depId deps ->
    exists dep, getTask depId cl = Some dep /\ Task.status dep = completed.
Proof.
  induction deps as [|d deps IH]; simpl.
  - split; [intros _ ? [] | reflexivity].
  - destruct (getTask d cl) as [dep|] eqn:Hd.
    + destruct (Status_eqb (Task.status dep) completed) eqn:Hs; simpl.
      * apply Status_eqb_eq in Hs. rewrite IH. split.
        -- intros Hall x [Hx | Hx]; [subst; eauto | auto].
        -- intros Hall x Hx. apply Hall. now right.
      * apply Status_eqb_neq in Hs. split; [discriminate|].
        intros Hall. destruct (Hall d (or_introl eq_refl)) as [dep' [Hg Hc]].
        congruence.
    + split; [discriminate|].
      intros Hall. destruct (Hall d (or_introl eq_refl)) as [dep' [Hg _]].
      congruence.
Qed.

Lemma available_spec (cl : t) task :
  available cl task = true <->
  Task.status task = pending /\
  forall depId, In depId (deps_of task) ->
    exists dep, getTask depId cl = Some dep /\ Task.status dep = completed.
Proof.
  unfold available, deps_of.
  destruct (Status_eqb (Task.status task) pending) eqn:Hs; simpl.
  - apply Status_eqb_eq in Hs.
    destruct (Task.dependencies task) as [[|d ds]|]; simpl.
    + split; [intros _; split; [exact Hs | intros ? []] | reflexivity].
    + rewrite (deps_loop_spec cl (d :: ds)). tauto.
    + split; [intros _; split; [exact Hs | intros ? []] | reflexivity].
  - apply Status_eqb_neq in Hs. split; [discriminate | tauto].
Qed.

Lemma getTask_setTaskInProgress k k' (cl : t) :
  getTask k (setTaskInProgress k' cl) =
  if String.eqb k k'
  then option_map (Task.with_status in_progress) (getTask k cl)
  else getTask k cl.
Proof. unfold getTask, setTaskInProgress. simpl. apply StrMapFacts.get_update. Qed.

Lemma getTask_settle k k' r n (cl : t) :
  getTask k (settleTask k' r n cl) =
  if String.eqb k k'
  then option_map (Task.settle r n) (getTask k cl)
  else getTask k cl.
Proof. unfold getTask, settleTask. simpl. apply StrMapFacts.get_update. Qed.

(** A mutation that keeps the id keeps the checklist well keyed. *)
Lemma well_keyed_update k f (cl : t) :
  (forall x, Task.id (f x) = Task.id x) ->
  well_keyed cl -> well_keyed (with_tasks (StrMap.update k f (tasks cl)) cl).
Proof.
  intros Hf [Hnd Hid]. split; simpl.
  - now rewrite StrMapFacts.keys_update.
  - intros k0 task Hin.
    assert (Hnd' : NoDup (StrMap.keys (StrMap.update k f (tasks cl))))
      by now rewrite StrMapFacts.keys_update.
    apply (StrMapFacts.In_get _ _ _ Hnd') in Hin.
    rewrite StrMapFacts.get_update in Hin.
    destruct (String.eqb k0 k).
    + destruct (StrMap.get k0 (tasks cl)) as [x|] eqn:Hx; [|discriminate].
      simpl in Hin. inversion Hin; subst. rewrite Hf.
      apply Hid. now apply StrMapFacts.get_In.
    + apply Hid. now apply StrMapFacts.get_In.
Qed.

Lemma well_keyed_setTaskInProgress k (cl : t) :
  well_keyed cl -> well_keyed (setTaskInProgress k cl).
Proof. apply well_keyed_update. reflexivity. Qed.

Lemma well_keyed_settle k r n (cl : t) :
  well_keyed cl -> well_keyed (settleTask k r n cl).
Proof. apply well_keyed_update. reflexivity. Qed.

(** In a blocked set nobody is available. *)
Lemma blocked_unavailable (cl : t) ids k task :
  blocked cl ids -> In k ids -> getTask k cl = Some task ->
  available cl task = false.
Proof.
  intros Hb Hk Hg. destruct (available cl task) eqn:Ha; [|reflexivity].
  apply available_spec in Ha. destruct Ha as [_ Hdeps].
  destruct (Hb _ _ Hk Hg) as [_ [d [Hd Hdin]]].
  destruct (Hdeps d Hd) as [dep [Hgd Hc]].
  destruct (Hb _ _ Hdin Hgd) as [Hp _]. congruence.
Qed.

Lemma blocked_setTaskInProgress (cl : t) ids task :
  well_keyed cl -> blocked cl ids -> In task (getAvailableTasks cl) ->
  blocked (setTaskInProgress (Task.id task) cl) ids.
Proof.
  intros Hwk Hb Hav k x Hk Hg.
  apply filter_In in Hav. destruct Hav as [Hin Ha].
  rewrite getTask_setTaskInProgress in Hg.
  destruct (String.eqb k (Task.id task)) eqn:E.
  - apply String.eqb_eq in E. subst k.
    rewrite (well_keyed_getTask _ _ Hwk Hin) in Hg.
    pose proof (blocked_unavailable _ _ _ _ Hb Hk (well_keyed_getTask _ _ Hwk Hin)).
    congruence.
  - exact (Hb _ _ Hk Hg).
Qed.

Lemma blocked_settle (cl : t) ids k0 held r n :
  blocked cl ids -> getTask k0 cl = Some held ->
  Task.status held = in_progress ->
  blocked (settleTask k0 r n cl) ids.
Proof.
  intros Hb Hheld Hs k x Hk Hg.
  rewrite getTask_settle in Hg.
  destruct (String.eqb k k0) eqn:E.
  - apply String.eqb_eq in E. subst k0.
    destruct (Hb _ _ Hk Hheld) as [Hp _]. congruence.
  - exact (Hb _ _ Hk Hg).
Qed.

(** [settleTask] on a key that is not in the checklist changes
    nothing. *)
Lemma settleTask_unknown k r n (cl : t) :
  getTask k cl = None -> settleTask k r n cl = cl.
Proof.
  intros H. unfold settleTask. unfold getTask in H.
  rewrite (StrMapFacts.update_missing _ _ _ H). destruct cl. reflexivity.
Qed.

(** What [updateTaskStatus] does to the checklist is [settleTask] at the
    time of the clock; it reads the clock when the task exists, and only
    then. *)
Lemma updateTaskStatus_fst {C : Type} (date_now : C -> Z * C) k r (cl : t) c :
  fst (updateTaskStatus date_now k r cl c)
  = settleTask k r (fst (date_now c)) cl.
Proof.
  unfold updateTaskStatus. destruct (getTask k cl) eqn:E.
  - destruct (date_now c). reflexivity.
  - simpl. symmetry. now apply settleTask_unknown.
Qed.

Lemma updateTaskStatus_snd {C : Type} (date_now : C -> Z * C) k r (cl : t) c :
  snd (updateTaskStatus date_now k r cl c)
  = match getTask k cl with
    | Some _ => snd (date_now c)
    | None => c
    end.
Proof.
  unfold updateTaskStatus. destruct (getTask k cl); [|reflexivity].
  destruct (date_now c). reflexivity.
Qed.

Lemma getTask_settle_some k k' r n (cl : t) :
  getTask k cl <> None -> getTask k (settleTask k' r n cl) <> None.
Proof.
  intros H. rewrite getTask_settle.
  destruct (String.eqb k k'); [|exact H].
  destruct (getTask k cl); [discriminate | now elim H].
Qed.

Lemma getTask_mark_some k k' (cl : t) :
  getTask k cl <> None -> getTask k (setTaskInProgress k' cl) <> None.
Proof.
  intros H. rewrite getTask_setTaskInProgress.
  destruct (String.eqb k k'); [|exact H].
  destruct (getTask k cl); [discriminate | now elim H].
Qed.

(** The object of an entry, in a checklist that holds its key. *)
Lemma current_some (entry : string * Task.t) (cl : t) x :
  getTask (fst entry) cl = Some x -> current entry cl = x.
Proof. intros H. unfold current. now rewrite H. Qed.

Lemma current_id (entry : string * Task.t) (cl : t) :
  well_keyed cl -> getTask (fst entry) cl <> None ->
  Task.id (current entry cl) = fst entry.
Proof.
  intros Hwk H. unfold current.
  destruct (getTask (fst entry) cl) as [x|] eqn:E; [|now elim H].
  exact (well_keyed_id _ _ _ Hwk E).
Qed.

Lemma filter_map_snd {A B} (P : B -> bool) (l : list (A * B)) :
  filter P (map snd l) = map snd (filter (fun e => P (snd e)) l).
Proof.
  induction l as [|[a b] l IH]; simpl; [reflexivity|].
  destruct (P b); simpl; now rewrite IH.
Qed.

(** The tasks of the available entries are the available tasks. *)
Lemma availableEntries_tasks (cl : t) :
  getAvailableTasks cl = map snd (availableEntries cl).
Proof.
  unfold getAvailableTasks, availableEntries, getAllTasks, StrMap.values.
  apply filter_map_snd.
Qed.

Lemma availableEntries_In (cl : t) (entry : string * Task.t) :
  In entry (availableEntries cl) <->
  In entry (tasks cl) /\ available cl (snd entry) = true.
Proof. unfold availableEntries. apply filter_In. Qed.

End ChecklistFacts.

(** C7. [getAvailableTasks] returns exactly the tasks of the checklist
    that are [pending] and whose every dependency id is the key of a
    [completed] task. Hence a task of which some dependency is missing, or
    is not completed yet, is not returned; and the tasks of a set in
    which everybody waits for somebody of the set (a dependency cycle)
    are not returned, and stay so when the scheduler marks an available
    task in progress or records the result of a task in progress. *)
Theorem availableTasks_dependency_gating (cl : Checklist.t) :
  (forall task,
     In task (Checklist.getAvailableTasks cl) <->
     In task (Checklist.getAllTasks cl) /\
     Task.status task = pending /\
     forall depId, In depId (deps_of task) ->
       exists dep, Checklist.getTask depId cl = Some dep /\
                   Task.status dep = completed) /\
  (forall task depId,
     In depId (deps_of task) -> Checklist.getTask depId cl = None ->
     ~ In task (Checklist.getAvailableTasks cl)) /\
  (forall task depId dep,
     In depId (deps_of task) -> Checklist.getTask depId cl = Some dep ->
     Task.status dep <> completed ->
     ~ In task (Checklist.getAvailableTasks cl)) /\
  (forall ids, blocked cl ids ->
     (forall k task, In k ids -> Checklist.getTask k cl = Some task ->
        ~ In task (Checklist.getAvailableTasks cl)) /\
     (forall task, well_keyed cl -> In task (Checklist.getAvailableTasks cl) ->
        blocked (Checklist.setTaskInProgress (Task.id task) cl) ids) /\
     (forall (C : Type) (date_now : C -> Z * C) (c : C) k held r,
        Checklist.getTask k cl = Some held ->
        Task.status held = in_progress ->
        blocked (fst (Checklist.updateTaskStatus date_now k r cl c)) ids)).
Proof.
  assert (Hspec : forall task,
     In task (Checklist.getAvailableTasks cl) <->
     In task (Checklist.getAllTasks cl) /\
     Task.status task = pending /\
     forall depId, In depId (deps_of task) ->
       exists dep, Checklist.getTask depId cl = Some dep /\
                   Task.status dep = completed).
  { intros task. unfold Checklist.getAvailableTasks.
    rewrite filter_In, ChecklistFacts.available_spec. tauto. }
  split; [exact Hspec|]. split; [|split].
  - intros task depId Hd Hnone Hav. apply Hspec in Hav.
    destruct Hav as [_ [_ Hdeps]]. destruct (Hdeps _ Hd) as [dep [Hg _]].
    congruence.
  - intros task depId dep Hd Hg Hnc Hav. apply Hspec in Hav.
    destruct Hav as [_ [_ Hdeps]]. destruct (Hdeps _ Hd) as [dep' [Hg' Hc]].
    congruence.
  - intros ids Hb. split; [|split].
    + intros k task Hk Hg Hav.
      apply filter_In in Hav. destruct Hav as [_ Ha].
      rewrite (ChecklistFacts.blocked_unavailable _ _ _ _ Hb Hk Hg) in Ha. discriminate.
    + intros task Hwk Hav. now apply ChecklistFacts.blocked_setTaskInProgress.
    + intros C date_now c k held r Hg Hs.
      rewrite ChecklistFacts.updateTaskStatus_fst.
      now apply ChecklistFacts.blocked_settle with (held := held).
Qed.

Module ConstructorFacts.
Import Checklist.

Lemma new_values_pending ts g task :
  In task (getAllTasks (new ts g)) -> Task.status task = pending.
Proof.
  intros Hin. apply ChecklistFacts.In_values in Hin. destruct Hin as [k Hin].
  unfold new in Hin. simpl in Hin. apply StrMapFacts.In_of_entries in Hin.
  apply in_map_iff in Hin. destruct Hin as [x [Hx _]].
  inversion Hx; subst. reflexivity.
Qed.

Lemma new_well_keyed ts g : well_keyed (new ts g).
Proof.
  split.
  - apply StrMapFacts.NoDup_keys_of_entries.
  - intros k task Hin. unfold new in Hin. simpl in Hin.
    apply StrMapFacts.In_of_entries in Hin.
    apply in_map_iff in Hin. destruct Hin as [x [Hx _]].
    inversion Hx; subst. reflexivity.
Qed.

Lemma new_getTask ts g x :
  In x ts ->
  exists y, In y ts /\ Task.id y = Task.id x /\
            getTask (Task.id x) (new ts g) = Some (Task.with_status pending y).
Proof.
  intros Hin. unfold getTask, new. simpl. rewrite StrMapFacts.get_of_entries.
  set (es := map (fun x => (Task.id x, Task.with_status pending x)) ts).
  assert (Hkey : In (Task.id x) (StrMap.keys (rev es))).
  { unfold StrMap.keys. rewrite map_rev. apply -> in_rev.
    unfold es. rewrite map_map. simpl.
    apply in_map_iff. exists x. auto. }
  apply StrMapFacts.get_some_keys in Hkey. destruct Hkey as [v Hv].
  pose proof (StrMapFacts.get_In _ _ _ Hv) as Hv'.
  apply in_rev in Hv'. apply in_map_iff in Hv'.
  destruct Hv' as [y [Hy Hyin]]. injection Hy as Hid Hval. subst v.
  exists y. split; [exact Hyin|]. split; [exact Hid | exact Hv].
Qed.

Lemma filter_none {A} (P : A -> bool) l :
  (forall x, In x l -> P x = false) -> filter P l = [].
Proof.
  induction l as [|a l IH]; simpl; intros Hall; [reflexivity|].
  rewrite (Hall a (or_introl eq_refl)). apply IH. intros x Hx. apply Hall. now right.
Qed.

Lemma new_available ts g task :
  In task (getAllTasks (new ts g)) ->
  available (new ts g) task =
  match deps_of task with [] => true | _ :: _ => false end.
Proof.
  intros Hin. unfold available, deps_of.
  rewrite (new_values_pending _ _ _ Hin). simpl.
  destruct (Task.dependencies task) as [[|d ds]|]; simpl; try reflexivity.
  destruct (getTask d (new ts g)) as [dep|] eqn:Hd; [|reflexivity].
  apply ChecklistFacts.getTask_In_values in Hd.
  now rewrite (new_values_pending _ _ _ Hd).
Qed.

End ConstructorFacts.

(** C10. The constructor stores every task it is given under its id with
    status [pending], whatever status the input carried (when an id comes
    twice, the last task with that id is the one stored). Just after
    construction nothing is in progress, completed or failed, and the
    available tasks are exactly the stored tasks without dependencies. *)
Theorem constructor_resets_status (ts : list Task.t) (g : GoalDefinition) :
  (forall task, In task (Checklist.getAllTasks (Checklist.new ts g)) ->
     Task.status task = pending) /\
  (forall x, In x ts ->
     exists y, In y ts /\ Task.id y = Task.id x /\
       Checklist.getTask (Task.id x) (Checklist.new ts g)
       = Some (Task.with_status pending y)) /\
  Checklist.getInProgressTasks (Checklist.new ts g) = [] /\
  Checklist.getCompletedTasks (Checklist.new ts g) = [] /\
  Checklist.getFailedTasks (Checklist.new ts g) = [] /\
  Checklist.getAvailableTasks (Checklist.new ts g) =
    filter (fun task => match deps_of task with [] => true | _ :: _ => false end)
           (Checklist.getAllTasks (Checklist.new ts g)).
Proof.
  pose proof (ConstructorFacts.new_values_pending ts g) as Hp.
  split; [exact Hp|]. split; [apply ConstructorFacts.new_getTask|].
  repeat split.
  - apply ConstructorFacts.filter_none. intros x Hx. now rewrite (Hp x Hx).
  - apply ConstructorFacts.filter_none. intros x Hx. now rewrite (Hp x Hx).
  - apply ConstructorFacts.filter_none. intros x Hx. now rewrite (Hp x Hx).
  - unfold Checklist.getAvailableTasks. apply filter_ext_in.
    apply ConstructorFacts.new_available.
Qed.

(* ------------------------------------------------------------------ *)
(** ** The executor *)

Module ExecutorFacts.
Section Facts.
Context {Env : Type} {clock : Clock Env} {llm : LLM.LLMInterface Env}.
Import Orchestrator.

Lemma bind_ok {A B} (m : M Env A) (k : A -> M Env B) w a w1 :
  m w = (Ok a, w1) -> bind m k w = k a w1.
Proof. intros E. unfold bind. now rewrite E. Qed.

Lemma bind_throw {A B} (m : M Env A) (k : A -> M Env B) w e w1 :
  m w = (Throw e, w1) -> bind m k w = (Throw e, w1).
Proof. intros E. unfold bind. now rewrite E. Qed.

Lemma now_ok (w : World Env) :
  exists n w', now w = (Ok n, w') /\ trace w' = trace w /\
               executionHistory w' = executionHistory w.
Proof.
  unfold now. destruct (date_now (outside w)) as [n env']. eauto.
Qed.

(** The tool-call wrapper always returns a result. *)
Lemma callTool_total tool task context previousResults (w : World Env) :
  exists r w', callTool tool task context previousResults w = (Ok r, w').
Proof.
  unfold callTool, try_catch.
  match goal with |- context [match ?m w with _ => _ end] =>
    destruct (m w) as [[r|e] w'] end; unfold ret; eauto.
Qed.

(** A wrapper that reports a failure reports confidence 0 and a message. *)
Lemma callTool_failure_shape tool task context previousResults (w w' : World Env) r :
  callTool tool task context previousResults w = (Ok r, w') ->
  ToolResult.success r = false ->
  exists e, r = ToolResult.mk false (Tool.name tool) OutNull 0 0
                              (Some (JS.message_of e)).
Proof.
  unfold callTool, try_catch.
  match goal with |- context [match ?m w with _ => _ end] =>
    destruct (m w) as [[r0|e] w0] eqn:E end.
  - intros Heq Hs. inversion Heq; subst. exfalso.
    revert E. unfold bind, ret, push_history, reportedConfidence, throw.
    repeat match goal with
           | |- context [match ?m ?w with _ => _ end] =>
               destruct (m w) as [[?|?] ?]; try discriminate
           | |- context [match ?x with
                         | OutNull => _ | OutUndefined => _ | OutObj _ _ => _
                         end] =>
               destruct x; try discriminate
           end.
    all: intros Hr; inversion Hr; subst; discriminate.
  - unfold ret. intros Heq _. inversion Heq; subst. eauto.
Qed.


Lemma callTool_on_throw tool task context previousResults (w : World Env)
    toolInput env1 startTime env2 e env3 :
  LLM.generateToolInput (Tool.name tool) (Tool.inputSchema tool) task context
                        previousResults (outside w) = (Ok toolInput, env1) ->
  date_now env1 = (startTime, env2) ->
  Tool.execute tool toolInput env2 = (Throw e, env3) ->
  callTool tool task context previousResults w =
  (Ok (ToolResult.mk false (Tool.name tool) OutNull 0 0
                     (Some (JS.message_of e))),
   Build_World (executionHistory w)
               (trace w ++ [EvGenerateToolInput (Tool.name tool);
                            EvExecute (Tool.name tool)])
               env3).
Proof.
  intros Hin Hnow Hex.
  unfold callTool, try_catch, bind, prepareToolInput, call, now, ret. simpl.
  rewrite Hin. simpl. rewrite Hnow. simpl. rewrite Hex. simpl.
  now rewrite <- app_assoc.
Qed.

(** When the oracle gives no input the tool is not run. *)
Lemma callTool_no_input tool task context previousResults (w : World Env)
    e env1 :
  LLM.generateToolInput (Tool.name tool) (Tool.inputSchema tool) task context
                        previousResults (outside w) = (Throw e, env1) ->
  callTool tool task context previousResults w =
  (Ok (ToolResult.mk false (Tool.name tool) OutNull 0 0
                     (Some (JS.message_of e))),
   Build_World (executionHistory w)
               (trace w ++ [EvGenerateToolInput (Tool.name tool)])
               env1).
Proof.
  intros Hin.
  unfold callTool, try_catch, bind, prepareToolInput, call, ret. simpl.
  rewrite Hin. reflexivity.
Qed.

(** What one call of the wrapper does: it asks the oracle for an input;
    if that fails the tool is not run; otherwise the tool is run once,
    and the call succeeds when the tool resolves to an object. *)
Lemma callTool_cases tool task context previousResults (w w' : World Env) r :
  callTool tool task context previousResults w = (Ok r, w') ->
  (trace w' = (trace w ++ [EvGenerateToolInput (Tool.name tool)])%list /\
   ToolResult.success r = false /\
   exists e env, LLM.generateToolInput (Tool.name tool) (Tool.inputSchema tool)
                   task context previousResults (outside w) = (Throw e, env)) \/
  (trace w' = (trace w ++ [EvGenerateToolInput (Tool.name tool);
                           EvExecute (Tool.name tool)])%list /\
   (ToolResult.success r = false \/
    exists c payload d,
      r = ToolResult.mk true (Tool.name tool) (OutObj c payload) d
                        (JS.num_or c 1) None)).
Proof.
  unfold callTool, try_catch, bind, prepareToolInput, call, now, ret,
    push_history, reportedConfidence, throw.
  destruct (LLM.generateToolInput (Tool.name tool) (Tool.inputSchema tool)
              task context previousResults (outside w)) as [[toolInput|e] env1] eqn:Hin;
    simpl.
  - destruct (date_now env1) as [startTime env2]. simpl.
    destruct (Tool.execute tool toolInput env2) as [[out|e] env3]; simpl.
    + destruct (date_now env3) as [endTime env4]. simpl.
      destruct (date_now env4) as [timestamp env5]. simpl.
      destruct out as [| |c payload]; intros Heq; inversion Heq; subst; simpl;
        right; rewrite <- app_assoc; simpl; split; try reflexivity.
      * now left.
      * now left.
      * right. eauto.
    + intros Heq; inversion Heq; subst; simpl.
      right. rewrite <- app_assoc. simpl. split; [reflexivity | now left].
  - intros Heq; inversion Heq; subst; simpl. left. eauto.
Qed.

Lemma executeSingleTask_total task tools context (w : World Env) :
  exists r w', executeSingleTask task tools context w = (Ok r, w').
Proof.
  destruct tools as [|tool rest]; simpl.
  - unfold ret. eauto.
  - destruct (callTool_total tool task context [] w) as [r [w' E]].
    rewrite (bind_ok _ _ _ _ _ E). unfold ret. eauto.
Qed.

(** Only a failed evaluation makes the loops of the iterative mode throw. *)
Lemma toolLoop_throw task context tools results confidence (w w' : World Env) e :
  toolLoop task context tools results confidence w = (Throw e, w') ->
  exists before, trace w' = (before ++ [EvEvaluate None])%list.
Proof.
  revert results confidence w.
  induction tools as [|tool rest IH]; intros results confidence w; simpl.
  - unfold ret. discriminate.
  - destruct (callTool_total tool task context results w) as [r [w1 E]].
    rewrite (bind_ok _ _ _ _ _ E).
    unfold bind at 1, evaluateProgress, call.
    destruct (LLM.evaluate task (results ++ [r]) (outside w1)) as [[c|e'] env'].
    + destruct (JS.ge c (Task.successThreshold task)).
      * unfold ret. discriminate.
      * apply IH.
    + intros Heq. inversion Heq; subst. simpl. eauto.
Qed.

Lemma whileLoop_throw fuel task tools context maxTaskIterations
    results confidence iterations (w w' : World Env) e :
  whileLoop fuel task tools context maxTaskIterations
            results confidence iterations w = (Throw e, w') ->
  exists before, trace w' = (before ++ [EvEvaluate None])%list.
Proof.
  revert results confidence iterations w.
  induction fuel as [|fuel IH]; intros results confidence iterations w; simpl.
  - unfold ret. discriminate.
  - destruct (JS.lt confidence (Task.successThreshold task)
              && JS.lt (inject_Z (Z.of_nat iterations)) maxTaskIterations).
    + unfold bind at 1.
      destruct (toolLoop task context tools results confidence w)
        as [[[results' confidence']|e'] w1] eqn:E.
      * apply IH.
      * intros Heq. inversion Heq; subst. eapply toolLoop_throw; eauto.
    + unfold ret. discriminate.
Qed.

Lemma executeIterativeTask_throw task tools context (w w' : World Env) e :
  executeIterativeTask task tools context w = (Throw e, w') ->
  exists before, trace w' = (before ++ [EvEvaluate None])%list.
Proof.
  unfold executeIterativeTask, bind.
  match goal with |- context [whileLoop ?f ?t ?ts ?c ?m ?r ?cf ?i w] =>
    destruct (whileLoop f t ts c m r cf i w) as [[[[rs cf'] it]|e'] w1] eqn:E end.
  - unfold ret. discriminate.
  - intros Heq. inversion Heq; subst. eapply whileLoop_throw; eauto.
Qed.


Lemma executeSingleTask_cons task tool rest context (w : World Env) :
  exists r w',
    callTool tool task context [] w = (Ok r, w') /\
    exists tr,
      executeSingleTask task (tool :: rest) context w = (Ok tr, w') /\
      TaskResult.success tr = ToolResult.success r /\
      TaskResult.iterations tr = 1%nat /\
      TaskResult.results tr = [r] /\
      (trace w' = (trace w ++ [EvGenerateToolInput (Tool.name tool)])%list \/
       trace w' = (trace w ++ [EvGenerateToolInput (Tool.name tool);
                               EvExecute (Tool.name tool)])%list) /\
      (forall toolInput env,
         LLM.generateToolInput (Tool.name tool) (Tool.inputSchema tool) task
           context [] (outside w) = (Ok toolInput, env) ->
         trace w' = (trace w ++ [EvGenerateToolInput (Tool.name tool);
                                 EvExecute (Tool.name tool)])%list) /\
      (forall e env,
         LLM.generateToolInput (Tool.name tool) (Tool.inputSchema tool) task
           context [] (outside w) = (Throw e, env) ->
         r = ToolResult.mk false (Tool.name tool) OutNull 0 0
                           (Some (JS.message_of e)) /\
         w' = Build_World (executionHistory w)
                          (trace w ++ [EvGenerateToolInput (Tool.name tool)])
                          env /\
         tr = TaskResult.mk false 1 1 [r] None None) /\
      (forall c payload,
         ToolResult.output r = OutObj c payload ->
         (c = None -> TaskResult.confidence tr = 1%Q) /\
         (forall q, c = Some q -> ~ (q == 0)%Q -> TaskResult.confidence tr = q)).
Proof.
  destruct (callTool_total tool task context [] w) as [r [w' E]].
  exists r, w'. split; [exact E|].
  eexists. simpl. rewrite (bind_ok _ _ _ _ _ E). unfold ret.
  split; [reflexivity|]. simpl.
  split; [reflexivity|]. split; [reflexivity|]. split; [reflexivity|].
  assert (Hnone : forall e env,
            LLM.generateToolInput (Tool.name tool) (Tool.inputSchema tool) task
              context [] (outside w) = (Throw e, env) ->
            r = ToolResult.mk false (Tool.name tool) OutNull 0 0
                              (Some (JS.message_of e)) /\
            w' = Build_World (executionHistory w)
                             (trace w ++ [EvGenerateToolInput (Tool.name tool)])
                             env /\
            TaskResult.mk (ToolResult.success r)
              (JS.num_or (Some (ToolResult.confidence r)) 1) 1 [r] None None
            = TaskResult.mk false 1 1 [r] None None).
  { intros e env He. rewrite (callTool_no_input _ _ _ _ _ _ _ He) in E.
    inversion E; subst. auto. }
  destruct (callTool_cases _ _ _ _ _ _ _ E)
    as [[Ht [Hs [e [env He]]]] | [Ht Hr]].
  - split; [now left|]. split.
    + intros toolInput env' Hin. congruence.
    + split; [exact Hnone|].
      intros c payload Hout.
      destruct (callTool_failure_shape _ _ _ _ _ _ _ E Hs) as [e' Hr].
      subst r. discriminate.
  - split; [now right|]. split; [intros; exact Ht|].
    split; [exact Hnone|].
    intros c payload Hout. destruct Hr as [Hs | [c' [payload' [d Hr]]]].
    + destruct (callTool_failure_shape _ _ _ _ _ _ _ E Hs) as [e' Hr].
      subst r. discriminate.
    + subst r. simpl in *. inversion Hout; subst. split.
      * intros ->. reflexivity.
      * intros q -> Hq. simpl.
        destruct (Qeq_bool q 0) eqn:Hz.
        -- apply Qeq_bool_iff in Hz. contradiction.
        -- simpl. now rewrite Hz.
Qed.


(** *** The iterative mode *)




(** Once the threshold is met the [while] loop does nothing more. *)
Lemma whileLoop_met fuel task tools context maxTaskIterations
    results confidence iterations (w : World Env) :
  JS.ge confidence (Task.successThreshold task) = true ->
  whileLoop fuel task tools context maxTaskIterations
            results confidence iterations w
  = (Ok (results, confidence, iterations), w).
Proof.
  intros Hge. destruct fuel as [|fuel]; simpl; [reflexivity|].
  rewrite (NumFacts.ge_not_lt _ _ Hge). reflexivity.
Qed.




End Facts.
End ExecutorFacts.

(** C8. A failure raised by a tool is caught by [callTool] and comes back
    as a [ToolResult] with [success = false], [confidence = 0] and the
    message of the failure; [callTool] itself never throws, so a task in
    single mode always returns, and in iterative mode only a failed call
    to the oracle's [evaluate] can end the loops by an exception. *)
Theorem tool_failure_contained {Env : Type} {clock : Clock Env}
    {llm : LLM.LLMInterface Env}
    (tool : Tool.t Env) (task : Task.t) (context : Json)
    (previousResults : list ToolResult.t) (w : World Env) :
  (exists r w',
     Orchestrator.callTool tool task context previousResults w = (Ok r, w')) /\
  (forall toolInput env1 startTime env2 e env3,
     LLM.generateToolInput (Tool.name tool) (Tool.inputSchema tool) task
       context previousResults (outside w) = (Ok toolInput, env1) ->
     date_now env1 = (startTime, env2) ->
     Tool.execute tool toolInput env2 = (Throw e, env3) ->
     Orchestrator.callTool tool task context previousResults w =
     (Ok (ToolResult.mk false (Tool.name tool) OutNull 0 0
                        (Some (JS.message_of e))),
      Build_World (executionHistory w)
                  (trace w ++ [EvGenerateToolInput (Tool.name tool);
                               EvExecute (Tool.name tool)])
                  env3)) /\
  (forall r w',
     Orchestrator.callTool tool task context previousResults w = (Ok r, w') ->
     ToolResult.success r = false ->
     exists e, r = ToolResult.mk false (Tool.name tool) OutNull 0 0
                                 (Some (JS.message_of e))) /\
  (forall tools, exists r w',
     Orchestrator.executeSingleTask task tools context w = (Ok r, w')) /\
  (forall tools e w',
     Orchestrator.executeIterativeTask task tools context w = (Throw e, w') ->
     exists before, trace w' = (before ++ [EvEvaluate None])%list).
Proof.
  split; [apply ExecutorFacts.callTool_total|].
  split; [intros; now eapply ExecutorFacts.callTool_on_throw; eauto|].
  split; [intros r w'; apply ExecutorFacts.callTool_failure_shape|].
  split; [intros tools; apply ExecutorFacts.executeSingleTask_total|].
  intros tools e w'. apply ExecutorFacts.executeIterativeTask_throw.
Qed.

(** C3, as the code has it. In single mode, with no tool resolved the
    executor returns a failed result with confidence 0, 1 iteration, no
    tool result and the error text ["No suitable tools found for this
    task"], without calling anything. Otherwise it calls the wrapper once,
    for the first selected tool: the oracle is asked for an input and, when
    it gives one, the tool is run exactly once; when the oracle throws
    instead, the tool is not run, nothing is added to the execution
    history, the call comes back as a failed [ToolResult] with confidence
    0 and the message of the exception, and the task fails with that one
    result and confidence 1 ([0 || 1]). The success flag of the task is
    that of the call, and when the tool resolves to an object the
    confidence of the task is the confidence the object reports if that
    is a non-zero number, and 1 if it reports none. *)
Theorem single_mode_execution {Env : Type} {clock : Clock Env}
    {llm : LLM.LLMInterface Env}
    (task : Task.t) (tools : list (Tool.t Env)) (context : Json)
    (w : World Env) :
  (tools = [] ->
   Orchestrator.executeSingleTask task tools context w =
   (Ok (TaskResult.mk false 0 1 [] None
                      (Some "No suitable tools found for this task")), w)) /\
  (forall tool rest, tools = tool :: rest ->
   exists r w',
     Orchestrator.callTool tool task context [] w = (Ok r, w') /\
     exists tr,
       Orchestrator.executeSingleTask task tools context w = (Ok tr, w') /\
       TaskResult.success tr = ToolResult.success r /\
       TaskResult.iterations tr = 1%nat /\
       TaskResult.results tr = [r] /\
       (trace w' = (trace w ++ [EvGenerateToolInput (Tool.name tool)])%list \/
        trace w' = (trace w ++ [EvGenerateToolInput (Tool.name tool);
                                EvExecute (Tool.name tool)])%list) /\
       (forall toolInput env,
          LLM.generateToolInput (Tool.name tool) (Tool.inputSchema tool) task
            context [] (outside w) = (Ok toolInput, env) ->
          trace w' = (trace w ++ [EvGenerateToolInput (Tool.name tool);
                                  EvExecute (Tool.name tool)])%list) /\
       (forall e env,
          LLM.generateToolInput (Tool.name tool) (Tool.inputSchema tool) task
            context [] (outside w) = (Throw e, env) ->
          r = ToolResult.mk false (Tool.name tool) OutNull 0 0
                            (Some (JS.message_of e)) /\
          w' = Build_World (executionHistory w)
                           (trace w ++ [EvGenerateToolInput (Tool.name tool)])
                           env /\
          tr = TaskResult.mk false 1 1 [r] None None) /\
       (forall c payload,
          ToolResult.output r = OutObj c payload ->
          (c = None -> TaskResult.confidence tr = 1%Q) /\
          (forall q, c = Some q -> ~ (q == 0)%Q ->
                     TaskResult.confidence tr = q))).
Proof.
  split.
  - intros ->. reflexivity.
  - intros tool rest ->. apply ExecutorFacts.executeSingleTask_cons.
Qed.

(** The claim C3 does not hold as it is written: the error text of the
    empty case is not ["no suitable tool"], and the first tool is not
    invoked at all when the oracle fails to produce its input. *)
Lemma single_mode_claim_fails :
  (exists tr w',
     Orchestrator.executeSingleTask (llm := Fixture.raw)
       (Fixture.task "t" [] false) [] Fixture.context
       (Fixture.world (Fixture.env [] [])) = (Ok tr, w') /\
     TaskResult.error tr <> Some "no suitable tool") /\
  (exists tr w',
     Orchestrator.executeSingleTask (llm := Fixture.raw)
       (Fixture.task "t" [] false) [Fixture.steady] Fixture.context
       (Fixture.world (Fixture.mk 0 [] ["steady"] ["steady"] None))
     = (Ok tr, w') /\
     ~ In (EvExecute "steady") (trace w')).
Proof.
  split.
  - eexists. eexists. split; [reflexivity|]. simpl. discriminate.
  - eexists. eexists. split; [vm_compute; reflexivity|]. simpl.
    intuition discriminate.
Qed.

(** A tool that reports confidence 0, and a tool that throws, both leave
    the task with confidence 1: [0 || 1] is [1]. *)
Lemma single_mode_zero_confidence :
  (exists tr w',
     Orchestrator.executeSingleTask (llm := Fixture.raw)
       (Fixture.task "t" [] false) [Fixture.zero] Fixture.context
       (Fixture.world (Fixture.env [] [])) = (Ok tr, w') /\
     TaskResult.success tr = true /\ TaskResult.confidence tr = 1%Q) /\
  (exists tr w',
     Orchestrator.executeSingleTask (llm := Fixture.raw)
       (Fixture.task "t" [] false) [Fixture.broken] Fixture.context
       (Fixture.world (Fixture.env [] [])) = (Ok tr, w') /\
     TaskResult.success tr = false /\ TaskResult.confidence tr = 1%Q /\
     map ToolResult.confidence (TaskResult.results tr) = [0%Q]).
Proof.
  split; eexists; eexists; (split; [vm_compute; reflexivity|]); simpl; auto.
Qed.

(** The theorem at work on a tool that reports 0.9. *)
Lemma single_mode_execution_witness :
  exists tr w',
    Orchestrator.executeSingleTask (llm := Fixture.raw)
      (Fixture.task "t" [] false) [Fixture.steady] Fixture.context
      (Fixture.world (Fixture.env [] [])) = (Ok tr, w') /\
    TaskResult.success tr = true /\ TaskResult.confidence tr = 0.9%Q.
Proof.
  destruct (proj2 (single_mode_execution (llm := Fixture.raw)
                     (Fixture.task "t" [] false) [Fixture.steady]
                     Fixture.context (Fixture.world (Fixture.env [] [])))
                  Fixture.steady [] eq_refl)
    as [r [w' [Hcall [tr [Hexec [Hs [_ [_ [_ [_ [_ Hconf]]]]]]]]]]].
  exists tr, w'. split; [exact Hexec|].
  vm_compute in Hcall. injection Hcall as Hr Hw. subst r.
  split; [exact Hs|].
  apply (proj2 (Hconf (Some 0.9%Q) (JsonText "done") eq_refl) 0.9%Q eq_refl).
  intros H. vm_compute in H. discriminate.
Defined.





(* ------------------------------------------------------------------ *)
(** ** Confidence *)

Module ClampFacts.

(** [Math.max(0, Math.min(1, n))] is [NaN] for [NaN] and lies in [0,1]
    for every other number. *)
Lemma fold_range (n : JS.num) :
  n <> JS.NaN ->
  in_unit_interval (JS.max (JS.Fin 0) (JS.min (JS.Fin 1) n)).
Proof.
  intros Hn. destruct n as [| |q|]; [now elim Hn | | |].
  - cbv. split; discriminate.
  - unfold JS.min, JS.max, JS.le.
    destruct (Qle_bool 1 q) eqn:H1; simpl.
    + split; discriminate.
    + destruct (Qle_bool 0 q) eqn:H0; simpl.
      * apply Qle_bool_iff in H0. split; [exact H0|].
        destruct (Qlt_le_dec q 1) as [Hlt | Hge].
        -- now apply Qlt_le_weak.
        -- apply Qle_bool_iff in Hge. congruence.
      * split; [apply Qle_refl | discriminate].
  - cbv. split; discriminate.
Qed.

Lemma fold_NaN (n : JS.num) :
  JS.max (JS.Fin 0) (JS.min (JS.Fin 1) n) = JS.NaN <-> n = JS.NaN.
Proof.
  split; [|intros ->; reflexivity].
  intros H. destruct n as [| |q|]; try reflexivity; exfalso.
  - discriminate H.
  - pose proof (fold_range (JS.Fin q) ltac:(discriminate)) as Hr.
    rewrite H in Hr. exact Hr.
  - discriminate H.
Qed.

(** A number of [0,1] goes through unchanged. *)
Lemma fold_inside (q : Q) :
  (0 <= q <= 1)%Q ->
  exists q', JS.max (JS.Fin 0) (JS.min (JS.Fin 1) (JS.Fin q)) = JS.Fin q' /\
             (q' == q)%Q.
Proof.
  intros [H0 H1]. unfold JS.min, JS.max, JS.le.
  destruct (Qle_bool 1 q) eqn:E1; simpl.
  - exists 1%Q. split; [reflexivity|].
    apply Qle_bool_iff in E1. now apply Qle_antisym.
  - apply Qle_bool_iff in H0. rewrite H0. exists q. split; reflexivity.
Qed.

Lemma falsy_confidence (v : JS.value) :
  JS.truthy v = false ->
  AnthropicLLM.clamp (AnthropicLLM.Object (Some v)) = JS.Fin 0.
Proof. intros H. unfold AnthropicLLM.clamp, AnthropicLLM.confidence_or_0. now rewrite H. Qed.

Lemma clamp_cases (p : AnthropicLLM.Parsed) :
  AnthropicLLM.clamp p = JS.NaN \/ in_unit_interval (AnthropicLLM.clamp p).
Proof.
  assert (H0 : in_unit_interval (JS.Fin 0)) by (split; discriminate).
  destruct p as [|c]; simpl; [now right|].
  destruct (JS.toNumber (AnthropicLLM.confidence_or_0 c)) as [n|]; [|now right].
  destruct n as [| |q|]; [now left | right | right | right];
    apply fold_range; discriminate.
Qed.

(** The reply gives [NaN] exactly when its confidence is a truthy value
    that converts to [NaN]. *)
Lemma clamp_NaN (p : AnthropicLLM.Parsed) :
  AnthropicLLM.clamp p = JS.NaN <->
  exists v, p = AnthropicLLM.Object (Some v) /\
            JS.truthy v = true /\ JS.toNumber v = Some JS.NaN.
Proof.
  split.
  - destruct p as [|[v|]]; simpl; try discriminate.
    unfold AnthropicLLM.confidence_or_0.
    destruct (JS.truthy v) eqn:Ht.
    + destruct (JS.toNumber v) as [n|] eqn:Hn; [|discriminate].
      intros H. apply (proj1 (fold_NaN n)) in H. subst n. eauto.
    + discriminate.
  - intros [v [-> [Ht Hn]]]. simpl. unfold AnthropicLLM.confidence_or_0.
    now rewrite Ht, Hn.
Qed.

(** A numeric confidence never gives [NaN]. *)
Lemma clamp_number (n : JS.num) :
  in_unit_interval (AnthropicLLM.clamp (AnthropicLLM.Object (Some (JS.JNumber n)))).
Proof.
  destruct (clamp_cases (AnthropicLLM.Object (Some (JS.JNumber n)))) as [H | H];
    [|exact H].
  apply clamp_NaN in H. destruct H as [v [Hv [Ht Hn]]].
  injection Hv as <-. simpl in Hn. injection Hn as ->. discriminate Ht.
Qed.

Lemma clamp_inside (q : Q) :
  (0 <= q <= 1)%Q ->
  exists q',
    AnthropicLLM.clamp (AnthropicLLM.Object (Some (JS.JNumber (JS.Fin q))))
    = JS.Fin q' /\ (q' == q)%Q.
Proof.
  intros Hq. unfold AnthropicLLM.clamp, AnthropicLLM.confidence_or_0. simpl.
  destruct (Qeq_bool q 0) eqn:E; simpl.
  - apply Qeq_bool_iff in E. exists 0%Q. split; [reflexivity|].
    now symmetry.
  - now apply fold_inside.
Qed.

End ClampFacts.

Lemma evaluateProgress_passes {Env : Type} {llm : LLM.LLMInterface Env}
    (task : Task.t) (results : list ToolResult.t) (w w' : World Env)
    (c : JS.num) :
  Orchestrator.evaluateProgress task results w = (Ok c, w') ->
  LLM.evaluate task results (outside w) = (Ok c, outside w').
Proof.
  unfold Orchestrator.evaluateProgress, call.
  destruct (LLM.evaluate task results (outside w)) as [r env'].
  intros Heq. inversion Heq; subst. reflexivity.
Qed.

(** C2, as the code has it. The clamping is done by the oracle adapter,
    and it lets [NaN] through. [AnthropicLLM.evaluate] returns, for every
    reply, a number of [0,1] or [NaN]: a numeric confidence is folded into
    [0,1] (1.4 gives 1, -0.2 gives 0, an overflowing literal gives 1, a
    number of [0,1] is kept); a missing, [null], zero or otherwise falsy
    confidence, a malformed reply and a confidence whose conversion throws
    give 0; the result is [NaN] exactly when the confidence is a truthy
    value that converts to [NaN], such as the object [{}] or a string
    that is no number. [evaluateProgress] hands the value returned by the
    oracle's [evaluate] to the task loop as it is; so with [AnthropicLLM]
    as the oracle the value lies in [0,1] or is [NaN]. *)
Theorem confidence_clamped_by_adapter :
  (forall p,
     AnthropicLLM.clamp p = JS.NaN \/ in_unit_interval (AnthropicLLM.clamp p)) /\
  (forall n,
     in_unit_interval
       (AnthropicLLM.clamp (AnthropicLLM.Object (Some (JS.JNumber n))))) /\
  (forall q, (0 <= q <= 1)%Q ->
     exists q',
       AnthropicLLM.clamp (AnthropicLLM.Object (Some (JS.JNumber (JS.Fin q))))
       = JS.Fin q' /\ (q' == q)%Q) /\
  AnthropicLLM.clamp (AnthropicLLM.Object (Some (JS.JNumber (JS.Fin 1.4))))
  = JS.Fin 1 /\
  AnthropicLLM.clamp (AnthropicLLM.Object (Some (JS.JNumber (JS.Fin (-0.2)))))
  = JS.Fin 0 /\
  AnthropicLLM.clamp (AnthropicLLM.Object (Some (JS.JNumber JS.PosInf)))
  = JS.Fin 1 /\
  AnthropicLLM.clamp (AnthropicLLM.Object None) = JS.Fin 0 /\
  AnthropicLLM.clamp AnthropicLLM.Malformed = JS.Fin 0 /\
  (forall v, JS.truthy v = false ->
     AnthropicLLM.clamp (AnthropicLLM.Object (Some v)) = JS.Fin 0) /\
  (forall v, JS.toNumber v = None ->
     AnthropicLLM.clamp (AnthropicLLM.Object (Some v)) = JS.Fin 0) /\
  (forall p,
     AnthropicLLM.clamp p = JS.NaN <->
     exists v, p = AnthropicLLM.Object (Some v) /\
               JS.truthy v = true /\ JS.toNumber v = Some JS.NaN) /\
  AnthropicLLM.clamp (AnthropicLLM.Object (Some (JS.JObject false))) = JS.NaN /\
  AnthropicLLM.clamp (AnthropicLLM.Object (Some (JS.JString "high" JS.NaN)))
  = JS.NaN /\
  (forall (Env : Type) (llm : LLM.LLMInterface Env) (task : Task.t)
          (results : list ToolResult.t) (w w' : World Env) (c : JS.num),
     Orchestrator.evaluateProgress task results w = (Ok c, w') ->
     LLM.evaluate task results (outside w) = (Ok c, outside w')) /\
  (forall (Env : Type) (llm : LLM.LLMInterface Env)
          (request : Task.t -> list ToolResult.t ->
                     Env -> Res AnthropicLLM.Parsed * Env),
     (forall task results env,
        LLM.evaluate task results env
        = AnthropicLLM.evaluate (request task results) env) ->
     forall task results (w w' : World Env) c,
       Orchestrator.evaluateProgress task results w = (Ok c, w') ->
       c = JS.NaN \/ in_unit_interval c).
Proof.
  split; [exact ClampFacts.clamp_cases|].
  split; [exact ClampFacts.clamp_number|].
  split; [exact ClampFacts.clamp_inside|].
  do 5 (split; [reflexivity|]).
  split; [exact ClampFacts.falsy_confidence|].
  split.
  { intros v Hv. unfold AnthropicLLM.clamp, AnthropicLLM.confidence_or_0.
    destruct (JS.truthy v); [now rewrite Hv | reflexivity]. }
  split; [exact ClampFacts.clamp_NaN|].
  do 2 (split; [reflexivity|]).
  split; [intros; now apply evaluateProgress_passes|].
  intros Env llm request Hllm task results w w' c Hrun.
  apply evaluateProgress_passes in Hrun. rewrite Hllm in Hrun.
  unfold AnthropicLLM.evaluate in Hrun.
  destruct (request task results (outside w)) as [[p|e] env']; [|discriminate].
  inversion Hrun; subst. apply ClampFacts.clamp_cases.
Qed.

(** The claim C2 does not hold as it is written. It does not hold of
    [evaluateProgress] itself: an oracle that returns 1.4 sees 1.4 reach
    the task loop. And it does not hold with [AnthropicLLM] in front
    either: when the model answers [{"confidence": {}}] the value that
    reaches the task loop is [NaN], which is not in [0,1]. *)
Lemma evaluateProgress_does_not_clamp :
  (exists w',
     Orchestrator.evaluateProgress (llm := Fixture.raw)
       (Fixture.task "t" [] true) []
       (Fixture.world (Fixture.env [1.4%Q] [])) = (Ok (JS.Fin 1.4), w') /\
     ~ (1.4 <= 1)%Q /\ ~ in_unit_interval (JS.Fin 1.4)) /\
  (exists w',
     Orchestrator.evaluateProgress (llm := Fixture.vague)
       (Fixture.task "t" [] true) []
       (Fixture.world (Fixture.env [] [])) = (Ok JS.NaN, w') /\
     ~ in_unit_interval JS.NaN).
Proof.
  split.
  - eexists. split; [vm_compute; reflexivity|].
    assert (H : ~ (1.4 <= 1)%Q) by (intros H; vm_compute in H; now apply H).
    split; [exact H|]. intros [_ H1]. exact (H H1).
  - eexists. split; [vm_compute; reflexivity|]. intros H. exact H.
Qed.

(** With the adapter in front, the reply 1.4 reaches the loop as 1. *)
Lemma confidence_clamped_by_adapter_witness :
  exists c w',
    Orchestrator.evaluateProgress (llm := Fixture.anthropic)
      (Fixture.task "t" [] true) []
      (Fixture.world (Fixture.env [1.4%Q] [])) = (Ok c, w') /\
    c = JS.Fin 1 /\ (c = JS.NaN \/ in_unit_interval c).
Proof.
  eexists. eexists. split; [vm_compute; reflexivity|].
  split; [reflexivity|].
  destruct confidence_clamped_by_adapter
    as (_ & _ & _ & _ & _ & _ & _ & _ & _ & _ & _ & _ & _ & _ & Hadapter).
  eapply (Hadapter Fixture.Env Fixture.anthropic (fun _ _ => Fixture.next_reply)
            (fun _ _ _ => eq_refl)
            (Fixture.task "t" [] true) []
            (Fixture.world (Fixture.env [1.4%Q] []))).
  vm_compute. reflexivity.
Defined.

(* ------------------------------------------------------------------ *)
(** ** The batch *)

Module SchedulerFacts.
Section Facts.
Context {Env : Type} {clock : Clock Env} {llm : LLM.LLMInterface Env}.
Variable toolRegistry : list (string * Tool.t Env).
Import Orchestrator.

(** The member is marked under the id it has, then executed as it is
    after that; an exception of the executor is turned into a failed
    result. *)
Lemma executeTaskWithProgress_cases task context cl (w : World Env) :
  exists res w',
    executeTask toolRegistry
      (Checklist.current task
         (Checklist.setTaskInProgress (Task.id (Checklist.current task cl)) cl))
      context w = (res, w') /\
    executeTaskWithProgress toolRegistry task context cl w
    = (Ok (outcome res,
           Checklist.setTaskInProgress (Task.id (Checklist.current task cl)) cl),
       w').
Proof.
  unfold executeTaskWithProgress, bind, try_catch, ret.
  match goal with |- context [executeTask ?a ?b ?c w] =>
    destruct (executeTask a b c w) as [[r|e] w'] end;
    eexists; eexists; split; reflexivity.
Qed.

Lemma executeTaskWithProgress_total task context cl (w : World Env) :
  exists r w',
    executeTaskWithProgress toolRegistry task context cl w
    = (Ok (r, Checklist.setTaskInProgress
                (Task.id (Checklist.current task cl)) cl), w').
Proof.
  destruct (executeTaskWithProgress_cases task context cl w)
    as [res [w' [_ E]]]; eauto.
Qed.

(** The join: every member is executed, in order, and gives a result;
    the checklist has every member marked. *)
Lemma runBatch_executed batch context cl (w : World Env) :
  exists rs w',
    runBatch toolRegistry batch context cl w = (Ok (rs, markAll batch cl), w') /\
    List.length rs = List.length batch /\
    executed toolRegistry batch context cl w rs w'.
Proof.
  revert cl w. induction batch as [|task rest IH]; intros cl w.
  - exists [], w. repeat split.
  - destruct (executeTaskWithProgress_cases task context cl w)
      as [res [w1 [Hex E]]].
    destruct (IH (Checklist.setTaskInProgress
                    (Task.id (Checklist.current task cl)) cl) w1)
      as [rs [w2 [E2 [Hlen Hexd]]]].
    exists (outcome res :: rs), w2. split; [|split].
    + cbn [runBatch]. rewrite (ExecutorFacts.bind_ok _ _ _ _ _ E).
      rewrite (ExecutorFacts.bind_ok _ _ _ _ _ E2). reflexivity.
    + simpl. now rewrite Hlen.
    + cbn [executed]. exists res, w1. auto.
Qed.

Lemma runBatch_total batch context cl (w : World Env) :
  exists rs w',
    runBatch toolRegistry batch context cl w = (Ok (rs, markAll batch cl), w') /\
    List.length rs = List.length batch.
Proof.
  destruct (runBatch_executed batch context cl w) as [rs [w' [E [Hlen _]]]].
  eauto.
Qed.

(** [updateTaskStatus] never throws and leaves the trace and the history
    alone; what it does to the checklist is [settleTask] at the time it
    read, if it read the clock. *)
Lemma updateTaskStatus_ok k r cl (w : World Env) :
  exists n w',
    updateTaskStatus k r cl w = (Ok (Checklist.settleTask k r n cl), w') /\
    trace w' = trace w /\ executionHistory w' = executionHistory w.
Proof.
  unfold updateTaskStatus, Checklist.updateTaskStatus.
  destruct (Checklist.getTask k cl) eqn:E.
  - unfold world_now. destruct (date_now (outside w)) as [n env'].
    exists n. eexists. simpl. auto.
  - exists 0%Z, w. rewrite (ChecklistFacts.settleTask_unknown _ _ _ _ E). auto.
Qed.

Lemma recordResults_cons task ts r rs cl ledger (w : World Env) :
  exists n1 n2 w2,
    recordResults (task :: ts) (r :: rs) cl ledger w
    = recordResults ts rs
        (Checklist.settleTask (Task.id (Checklist.current task cl)) r n1 cl)
        (ledger ++ [Build_LedgerEntry
                      (Checklist.current task
                         (Checklist.settleTask
                            (Task.id (Checklist.current task cl)) r n1 cl))
                      r n2])%list
        w2 /\
    trace w2 = trace w /\ executionHistory w2 = executionHistory w.
Proof.
  cbn [recordResults].
  destruct (updateTaskStatus_ok (Task.id (Checklist.current task cl)) r cl w)
    as [n1 [w1 [E [Ht Hh]]]].
  rewrite (ExecutorFacts.bind_ok _ _ _ _ _ E).
  unfold bind, now. destruct (date_now (outside w1)) as [n2 env2].
  exists n1, n2. eexists. split; [reflexivity|]. simpl. auto.
Qed.

Lemma recordResults_nil_l rs cl ledger (w : World Env) :
  recordResults [] rs cl ledger w = (Ok (cl, ledger), w).
Proof. destruct rs; reflexivity. Qed.

(** The loop after the join never throws and pushes one entry per
    result, in order. *)
Lemma recordResults_ledger ts rs cl ledger (w : World Env) :
  List.length rs = List.length ts ->
  exists cl' entries w',
    recordResults ts rs cl ledger w = (Ok (cl', (ledger ++ entries)%list), w') /\
    map entry_result entries = rs.
Proof.
  revert rs cl ledger w.
  induction ts as [|task ts IH]; intros rs cl ledger w Hlen.
  - destruct rs; [|discriminate]. exists cl, [], w.
    rewrite app_nil_r. split; reflexivity.
  - destruct rs as [|r rs]; [discriminate|]. simpl in Hlen.
    destruct (recordResults_cons task ts r rs cl ledger w)
      as [n1 [n2 [w2 [E _]]]].
    rewrite E.
    match goal with |- context [recordResults ts rs ?c ?l w2] =>
      destruct (IH rs c l w2 ltac:(lia)) as [cl' [entries [w' [E' Hm]]]] end.
    rewrite E', <- app_assoc. simpl.
    eexists. eexists. eexists. split; [reflexivity|]. simpl. now rewrite Hm.
Qed.

(** In a checklist where every task is stored under its id, a task that
    is not of the batch is left as it is. *)
Lemma recordResults_frame ts rs cl ledger (w w' : World Env) cl' ledger' k :
  well_keyed cl ->
  (forall task, In task ts -> Checklist.getTask (fst task) cl <> None) ->
  recordResults ts rs cl ledger w = (Ok (cl', ledger'), w') ->
  ~ In k (map fst ts) ->
  Checklist.getTask k cl' = Checklist.getTask k cl.
Proof.
  revert rs cl ledger w.
  induction ts as [|task ts IH]; intros rs cl ledger w Hwk Hmem Hrun Hk.
  - rewrite recordResults_nil_l in Hrun. inversion Hrun; subst. reflexivity.
  - destruct rs as [|r rs].
    + simpl in Hrun. inversion Hrun; subst. reflexivity.
    + destruct (recordResults_cons task ts r rs cl ledger w)
        as [n1 [n2 [w2 [E _]]]].
      rewrite E in Hrun.
      rewrite (ChecklistFacts.current_id task cl Hwk
                 (Hmem _ (or_introl eq_refl))) in Hrun.
      apply IH in Hrun.
      * rewrite Hrun, ChecklistFacts.getTask_settle.
        destruct (String.eqb k (fst task)) eqn:Ek; [|reflexivity].
        apply String.eqb_eq in Ek. exfalso. apply Hk. simpl. now left.
      * now apply ChecklistFacts.well_keyed_settle.
      * intros t Ht. apply ChecklistFacts.getTask_settle_some.
        apply Hmem. now right.
      * intros Hin. apply Hk. simpl. now right.
Qed.

(** With distinct keys, each member holds its own result afterwards. *)
Lemma recordResults_recorded ts rs cl ledger (w w' : World Env) cl' ledger'
    i task r :
  well_keyed cl ->
  (forall task, In task ts -> Checklist.getTask (fst task) cl <> None) ->
  NoDup (map fst ts) ->
  recordResults ts rs cl ledger w = (Ok (cl', ledger'), w') ->
  nth_error ts i = Some task -> nth_error rs i = Some r ->
  exists x',
    Checklist.getTask (fst task) cl' = Some x' /\
    Task.result x' = Some r /\
    Task.status x' = (if TaskResult.success r then completed else failed).
Proof.
  revert rs cl ledger w i.
  induction ts as [|t0 ts IH]; intros rs cl ledger w i Hwk Hmem Hnd Hrun Hti Hri.
  - destruct i; discriminate.
  - destruct rs as [|r0 rs]; [destruct i; discriminate|].
    inversion Hnd as [|? ? Hnotin Hnd']; subst.
    destruct (recordResults_cons t0 ts r0 rs cl ledger w)
      as [n1 [n2 [w2 [E _]]]].
    rewrite E in Hrun.
    rewrite (ChecklistFacts.current_id t0 cl Hwk
               (Hmem _ (or_introl eq_refl))) in Hrun.
    assert (Hwk1 : well_keyed (Checklist.settleTask (fst t0) r0 n1 cl))
      by now apply ChecklistFacts.well_keyed_settle.
    assert (Hmem1 : forall t, In t ts ->
              Checklist.getTask (fst t)
                (Checklist.settleTask (fst t0) r0 n1 cl) <> None).
    { intros t Ht. apply ChecklistFacts.getTask_settle_some.
      apply Hmem. now right. }
    destruct i as [|i]; simpl in Hti, Hri.
    + inversion Hti; inversion Hri; subst.
      rewrite (recordResults_frame _ _ _ _ _ _ _ _ _ Hwk1 Hmem1 Hrun Hnotin).
      rewrite ChecklistFacts.getTask_settle, String.eqb_refl.
      destruct (Checklist.getTask (fst task) cl) as [x|] eqn:Hx.
      * simpl. eexists. split; [reflexivity|]. split; reflexivity.
      * exfalso. exact (Hmem _ (or_introl eq_refl) Hx).
    + exact (IH _ _ _ _ _ Hwk1 Hmem1 Hnd' Hrun Hti Hri).
Qed.

Lemma well_keyed_markAll batch cl :
  well_keyed cl -> well_keyed (markAll batch cl).
Proof.
  revert cl. induction batch as [|task rest IH]; intros cl Hwk; simpl.
  - exact Hwk.
  - apply IH. now apply ChecklistFacts.well_keyed_setTaskInProgress.
Qed.

Lemma getTask_markAll_frame batch cl k :
  well_keyed cl ->
  (forall task, In task batch -> Checklist.getTask (fst task) cl <> None) ->
  ~ In k (map fst batch) ->
  Checklist.getTask k (markAll batch cl) = Checklist.getTask k cl.
Proof.
  revert cl. induction batch as [|task rest IH]; intros cl Hwk Hmem Hk; simpl.
  - reflexivity.
  - rewrite (ChecklistFacts.current_id task cl Hwk
               (Hmem _ (or_introl eq_refl))).
    unfold markAll in IH. rewrite IH.
    + rewrite ChecklistFacts.getTask_setTaskInProgress.
      destruct (String.eqb k (fst task)) eqn:Ek; [|reflexivity].
      apply String.eqb_eq in Ek. exfalso. apply Hk. simpl. now left.
    + now apply ChecklistFacts.well_keyed_setTaskInProgress.
    + intros t Ht. apply ChecklistFacts.getTask_mark_some.
      apply Hmem. now right.
    + intros Hin. apply Hk. simpl. now right.
Qed.

Lemma getTask_markAll_some batch cl k :
  Checklist.getTask k cl <> None ->
  Checklist.getTask k (markAll batch cl) <> None.
Proof.
  revert cl. induction batch as [|task rest IH]; intros cl Hx; simpl.
  - exact Hx.
  - apply IH. now apply ChecklistFacts.getTask_mark_some.
Qed.

Lemma NoDup_map_filter {A B} (f : A -> B) (P : A -> bool) l :
  NoDup (map f l) -> NoDup (map f (filter P l)).
Proof.
  induction l as [|a l IH]; simpl; intros Hnd; [constructor|].
  inversion Hnd as [|? ? Hnotin Hnd']; subst.
  destruct (P a); simpl; [|now apply IH].
  constructor; [|now apply IH].
  intros Hin. apply Hnotin. apply in_map_iff in Hin.
  destruct Hin as [x [Hx Hin]]. apply filter_In in Hin.
  apply in_map_iff. exists x. tauto.
Qed.

Lemma In_firstn {A} n (l : list A) x : In x (firstn n l) -> In x l.
Proof.
  revert l. induction n as [|n IH]; intros [|a l]; simpl; try tauto.
  intros [Hx | Hin]; [now left | right; now apply IH].
Qed.

Lemma NoDup_map_firstn {A B} (f : A -> B) n l :
  NoDup (map f l) -> NoDup (map f (firstn n l)).
Proof.
  revert l. induction n as [|n IH]; intros [|a l]; simpl; intros Hnd;
    try constructor.
  - inversion Hnd as [|? ? Hnotin Hnd']; subst.
    intros Hin. apply Hnotin. apply in_map_iff in Hin.
    destruct Hin as [x [Hx Hin]]. apply In_firstn in Hin.
    apply in_map_iff. eauto.
  - inversion Hnd; subst. now apply IH.
Qed.

Lemma well_keyed_ids cl :
  well_keyed cl ->
  map Task.id (Checklist.getAllTasks cl) = StrMap.keys (Checklist.tasks cl).
Proof.
  intros [_ Hid]. unfold Checklist.getAllTasks, StrMap.values, StrMap.keys.
  rewrite map_map. apply map_ext_in. intros [k x] Hin. simpl.
  exact (Hid _ _ Hin).
Qed.

(** The batch the main loop takes is made of objects of the checklist,
    each one once and under its own id. *)
Lemma available_batch cl :
  well_keyed cl ->
  batch_of cl (JS.slice_first 3 (Checklist.availableEntries cl)).
Proof.
  intros [Hnd Hid]. split.
  - apply NoDup_map_firstn, NoDup_map_filter. exact Hnd.
  - intros [k x] Hin. apply In_firstn in Hin. apply filter_In in Hin.
    destruct Hin as [Hin _]. simpl. split.
    + now apply StrMapFacts.In_get.
    + exact (Hid _ _ Hin).
Qed.

(** The ids of the tasks of the batch are the keys of its members. *)
Lemma batch_ids cl :
  well_keyed cl ->
  map Task.id (JS.slice_first 3 (Checklist.getAvailableTasks cl))
  = map fst (JS.slice_first 3 (Checklist.availableEntries cl)).
Proof.
  intros Hwk. rewrite ChecklistFacts.availableEntries_tasks.
  unfold JS.slice_first. rewrite firstn_map, map_map.
  apply map_ext_in. intros task Hin.
  exact (proj2 (proj2 (available_batch cl Hwk) task Hin)).
Qed.

Lemma batch_members cl batch :
  batch_of cl batch ->
  forall task, In task batch -> Checklist.getTask (fst task) cl <> None.
Proof.
  intros [_ Hin] task Ht. destruct (Hin _ Ht) as [Hg _]. congruence.
Qed.

(** The recording loop, whatever results the members came back with. *)
Lemma record_any batch rs cl ledger (w1 : World Env) :
  well_keyed cl ->
  batch_of cl batch ->
  List.length rs = List.length batch ->
  exists cl' entries w',
    recordResults batch rs (markAll batch cl) ledger w1
    = (Ok (cl', (ledger ++ entries)%list), w') /\
    map entry_result entries = rs /\
    (forall i task r,
       nth_error batch i = Some task -> nth_error rs i = Some r ->
       exists x,
         Checklist.getTask (fst task) cl' = Some x /\
         Task.result x = Some r /\
         Task.status x = (if TaskResult.success r then completed else failed)) /\
    (forall k, ~ In k (map fst batch) ->
       Checklist.getTask k cl' = Checklist.getTask k cl).
Proof.
  intros Hwk Hbatch Hlen.
  pose proof (batch_members cl batch Hbatch) as Hmem.
  assert (Hwk1 : well_keyed (markAll batch cl)) by now apply well_keyed_markAll.
  assert (Hmem1 : forall task, In task batch ->
            Checklist.getTask (fst task) (markAll batch cl) <> None).
  { intros task Ht. apply getTask_markAll_some. now apply Hmem. }
  destruct (recordResults_ledger batch rs (markAll batch cl) ledger w1 Hlen)
    as [cl' [entries [w' [Erec Hm]]]].
  exists cl', entries, w'. split; [exact Erec|]. split; [exact Hm|]. split.
  - intros i task r Hti Hri.
    exact (recordResults_recorded _ _ _ _ _ _ _ _ _ _ _ Hwk1 Hmem1
             (proj1 Hbatch) Erec Hti Hri).
  - intros k Hk.
    rewrite (recordResults_frame _ _ _ _ _ _ _ _ _ Hwk1 Hmem1 Erec Hk).
    now apply getTask_markAll_frame.
Qed.

(** From dispatch to the end of the recording loop. *)
Lemma dispatch_spec batch context cl er (w : World Env) :
  well_keyed cl ->
  batch_of cl batch ->
  exists rs w1 cl' entries w',
    runBatch toolRegistry batch context cl w = (Ok (rs, markAll batch cl), w1) /\
    executed toolRegistry batch context cl w rs w1 /\
    List.length rs = List.length batch /\
    dispatch toolRegistry batch context cl er w
    = (Ok (cl', with_ledger (ExecutionResult.tasksCompleted er ++ entries)%list er),
       w') /\
    map entry_result entries = rs /\
    (forall i task r,
       nth_error batch i = Some task -> nth_error rs i = Some r ->
       exists x,
         Checklist.getTask (fst task) cl' = Some x /\
         Task.result x = Some r /\
         Task.status x = (if TaskResult.success r then completed else failed)) /\
    (forall k, ~ In k (map fst batch) ->
       Checklist.getTask k cl' = Checklist.getTask k cl).
Proof.
  intros Hwk Hbatch.
  destruct (runBatch_executed batch context cl w)
    as [rs [w1 [Erun [Hlen Hexd]]]].
  destruct (record_any batch rs cl (ExecutionResult.tasksCompleted er) w1
              Hwk Hbatch Hlen)
    as [cl' [entries [w' [Erec [Hm [Hrec Hframe]]]]]].
  exists rs, w1, cl', entries, w'.
  split; [exact Erun|]. split; [exact Hexd|]. split; [exact Hlen|]. split.
  { unfold dispatch. rewrite (ExecutorFacts.bind_ok _ _ _ _ _ Erun).
    rewrite (ExecutorFacts.bind_ok _ _ _ _ _ Erec). reflexivity. }
  auto.
Qed.

Lemma well_keyed_recordResults ts rs cl ledger (w w' : World Env) cl' ledger' :
  recordResults ts rs cl ledger w = (Ok (cl', ledger'), w') ->
  well_keyed cl -> well_keyed cl'.
Proof.
  revert rs cl ledger w.
  induction ts as [|task ts IH]; intros rs cl ledger w Hrun Hwk.
  - rewrite recordResults_nil_l in Hrun. now inversion Hrun; subst.
  - destruct rs as [|r rs].
    + simpl in Hrun. now inversion Hrun; subst.
    + destruct (recordResults_cons task ts r rs cl ledger w)
        as [n1 [n2 [w2 [E _]]]].
      rewrite E in Hrun. apply IH in Hrun; [exact Hrun|].
      now apply ChecklistFacts.well_keyed_settle.
Qed.

Lemma well_keyed_dispatch batch context cl er (w w' : World Env) cl' er' :
  dispatch toolRegistry batch context cl er w = (Ok (cl', er'), w') ->
  well_keyed cl -> well_keyed cl'.
Proof.
  intros Hd Hwk.
  destruct (runBatch_total batch context cl w) as [rs [w1 [Erun Hlen]]].
  unfold dispatch in Hd. rewrite (ExecutorFacts.bind_ok _ _ _ _ _ Erun) in Hd.
  unfold bind at 1 in Hd.
  destruct (recordResults batch rs (markAll batch cl)
              (ExecutionResult.tasksCompleted er) w1)
    as [[[cl2 ledger2]|e] w2] eqn:Erec; [|discriminate].
  unfold ret in Hd. inversion Hd; subst.
  eapply well_keyed_recordResults; [exact Erec|].
  now apply well_keyed_markAll.
Qed.

Lemma dispatch_total batch context cl er (w : World Env) :
  exists cl' entries w',
    dispatch toolRegistry batch context cl er w
    = (Ok (cl', with_ledger (ExecutionResult.tasksCompleted er ++ entries)%list er),
       w') /\
    List.length entries = List.length batch.
Proof.
  destruct (runBatch_total batch context cl w) as [rs [w1 [Erun Hlen]]].
  destruct (recordResults_ledger batch rs (markAll batch cl)
              (ExecutionResult.tasksCompleted er) w1 Hlen)
    as [cl' [entries [w' [Erec Hm]]]].
  exists cl', entries, w'. split.
  - unfold dispatch. rewrite (ExecutorFacts.bind_ok _ _ _ _ _ Erun).
    rewrite (ExecutorFacts.bind_ok _ _ _ _ _ Erec). reflexivity.
  - rewrite <- Hlen, <- Hm. now rewrite length_map.
Qed.

(** One turn of the main loop, when the goal is not achieved and some
    task is available: dispatch, record, then reflect on the ledger as
    recorded. *)
Lemma iteration_order goalDefinition context cl er (w w0 : World Env) :
  isGoalAchieved goalDefinition cl w = (Ok false, w0) ->
  Checklist.getAvailableTasks cl <> [] ->
  exists cl1 entries w1,
    dispatch toolRegistry (JS.slice_first 3 (Checklist.availableEntries cl))
             context cl er w0
    = (Ok (cl1, with_ledger (ExecutionResult.tasksCompleted er ++ entries)%list er),
       w1) /\
    List.length entries
    = List.length (JS.slice_first 3 (Checklist.getAvailableTasks cl)) /\
    iteration toolRegistry goalDefinition context cl er w
    = match reflectAndAdapt cl1
              (with_ledger (ExecutionResult.tasksCompleted er ++ entries)%list er)
              w1 with
      | (Ok cl2, w2) =>
          (Ok (false, cl2,
               next_iteration
                 (with_ledger (ExecutionResult.tasksCompleted er ++ entries)%list er)),
           w2)
      | (Throw e, w2) => (Throw e, w2)
      end.
Proof.
  intros Hgoal Hav.
  destruct (dispatch_total (JS.slice_first 3 (Checklist.availableEntries cl))
              context cl er w0) as [cl1 [entries [w1 [Hd Hlen]]]].
  exists cl1, entries, w1. split; [exact Hd|]. split.
  { rewrite Hlen, ChecklistFacts.availableEntries_tasks.
    unfold JS.slice_first. now rewrite firstn_map, length_map. }
  unfold iteration. rewrite (ExecutorFacts.bind_ok _ _ _ _ _ Hgoal).
  rewrite ChecklistFacts.availableEntries_tasks in Hav.
  destruct (Checklist.availableEntries cl) as [|a l] eqn:Ea; [now elim Hav|].
  rewrite (ExecutorFacts.bind_ok _ _ _ _ _ Hd).
  unfold bind, ret.
  destruct (reflectAndAdapt cl1 _ w1) as [[cl2|e] w2]; reflexivity.
Qed.


(** *** The main loop *)



End Facts.
End SchedulerFacts.

(* ------------------------------------------------------------------ *)
(** ** Reflection *)

Module ReflectionFacts.
Section Facts.
Context {Env : Type} {clock : Clock Env} {llm : LLM.LLMInterface Env}.
Import Orchestrator.

Lemma tooManyFailures_iff recent :
  tooManyFailures (failureRate recent) = true <->
  failure_fraction_exceeds recent.
Proof.
  unfold failure_fraction_exceeds, failureRate.
  destruct recent as [|e recent].
  - simpl. split; [discriminate | intros [H _]; now elim H].
  - cbn [List.length tooManyFailures].
    set (r := (_ / _)%Q). rewrite NumFacts.gt_Fin. split.
    + intros H. split; [discriminate|].
      apply Qnot_le_lt. intros Hle. apply Qle_bool_iff in Hle.
      rewrite Hle in H. discriminate.
    + intros [_ H]. destruct (Qle_bool r 0.6) eqn:Hle; [|reflexivity].
      apply Qle_bool_iff in Hle. exfalso. exact (Qlt_not_le _ _ H Hle).
Qed.

(** Applying adjustments reads the clock and nothing else of the world. *)
Lemma applyAdjustments_world adjustments cl (w : World Env) :
  trace (snd (Checklist.applyAdjustments world_now adjustments cl w)) = trace w /\
  executionHistory (snd (Checklist.applyAdjustments world_now adjustments cl w))
  = executionHistory w.
Proof.
  revert cl w. induction adjustments as [|adj rest IH]; intros cl w; simpl.
  - auto.
  - destruct (Checklist.applyAdjustment world_now adj cl w) as [cl1 w1] eqn:E.
    assert (Hw : trace w1 = trace w /\ executionHistory w1 = executionHistory w).
    { destruct adj; simpl in E; try (inversion E; subst; auto).
      unfold Checklist.chooseId in E.
      destruct (TaskInput.id task) as [[|ch rest']|].
      - unfold world_now in E. destruct (date_now (outside w)) as [n env'].
        inversion E; subst. auto.
      - inversion E; subst. auto.
      - unfold world_now in E. destruct (date_now (outside w)) as [n env'].
        inversion E; subst. auto. }
    destruct (IH cl1 w1) as [Ht Hh]. destruct Hw as [Ht1 Hh1].
    split; congruence.
Qed.


(** Without too many failures the reflection does nothing. *)
Lemma reflectAndAdapt_calm cl er (w : World Env) :
  tooManyFailures
    (failureRate (JS.slice_last 5 (ExecutionResult.tasksCompleted er))) = false ->
  reflectAndAdapt cl er w = (Ok cl, w).
Proof. intros H. unfold reflectAndAdapt. now rewrite H. Qed.

(** With too many failures, and an oracle that answers, the reflection
    applies what the oracle advises. *)
Lemma reflectAndAdapt_triggered cl er (w : World Env) adjustments env' :
  tooManyFailures
    (failureRate (JS.slice_last 5 (ExecutionResult.tasksCompleted er))) = true ->
  LLM.strategize (JS.slice_last 5 (ExecutionResult.tasksCompleted er))
                 (outside w) = (Ok adjustments, env') ->
  reflectAndAdapt cl er w
  = (Ok (fst (Checklist.applyAdjustments world_now (JS.arr_or adjustments []) cl
                (Build_World (executionHistory w)
                             (trace w ++ [EvStrategize]) env'))),
     snd (Checklist.applyAdjustments world_now (JS.arr_or adjustments []) cl
            (Build_World (executionHistory w)
                         (trace w ++ [EvStrategize]) env'))).
Proof.
  intros H Hs. unfold reflectAndAdapt. rewrite H.
  unfold bind, call. rewrite Hs.
  destruct (Checklist.applyAdjustments _ _ _ _). reflexivity.
Qed.


End Facts.
End ReflectionFacts.



(* ------------------------------------------------------------------ *)
(** ** Adjustments *)

Module AdjustmentFacts.
Section Facts.
Context {C : Type} (date_now : C -> Z * C).
Import Checklist.

Lemma applyAdjustment_status adj (cl : t) c k x :
  spares k adj -> getTask k cl = Some x ->
  exists x', getTask k (fst (applyAdjustment date_now adj cl c)) = Some x' /\
             Task.status x' = Task.status x.
Proof.
  intros Hsp Hx. destruct adj as [taskId p | taskId m | a | ty]; simpl.
  - unfold getTask. simpl. rewrite StrMapFacts.get_update.
    unfold getTask in Hx. rewrite Hx.
    destruct (String.eqb k taskId); simpl; eauto.
  - unfold getTask. simpl. rewrite StrMapFacts.get_update.
    unfold getTask in Hx. rewrite Hx.
    destruct (String.eqb k taskId) eqn:E; simpl; [|eauto].
    apply String.eqb_eq in E. subst taskId.
    destruct Hsp as [Hne | Hnone]; [congruence|].
    eexists. split; [reflexivity|]. simpl. now rewrite Hnone.
  - destruct Hsp as [ch [rest [Hid Hne]]].
    unfold chooseId. rewrite Hid. simpl.
    unfold getTask. simpl. rewrite StrMapFacts.get_set.
    destruct (String.eqb k (String ch rest)) eqn:E.
    + apply String.eqb_eq in E. congruence.
    + eauto.
  - eauto.
Qed.

Lemma applyAdjustments_status adjustments (cl : t) c k x :
  Forall (spares k) adjustments -> getTask k cl = Some x ->
  exists x', getTask k (fst (applyAdjustments date_now adjustments cl c)) = Some x' /\
             Task.status x' = Task.status x.
Proof.
  revert cl c x. induction adjustments as [|adj rest IH]; intros cl c x Hall Hx.
  - simpl. eauto.
  - inversion Hall as [|? ? Hsp Hrest]; subst. simpl.
    destruct (applyAdjustment_status adj cl c k x Hsp Hx) as [x1 [Hx1 Hs1]].
    destruct (applyAdjustment date_now adj cl c) as [cl1 c1]. simpl in Hx1.
    destruct (IH cl1 c1 x1 Hrest Hx1) as [x' [Hx' Hs']].
    exists x'. split; [exact Hx' | congruence].
Qed.

(** No adjustment removes a key or shortens the map. *)
Lemma applyAdjustment_keeps adj (cl : t) c :
  (forall k, In k (StrMap.keys (tasks cl)) ->
             In k (StrMap.keys (tasks (fst (applyAdjustment date_now adj cl c))))) /\
  (List.length (tasks cl)
   <= List.length (tasks (fst (applyAdjustment date_now adj cl c))))%nat.
Proof.
  destruct adj as [taskId p | taskId m | a | ty]; simpl.
  - rewrite StrMapFacts.keys_update, StrMapFacts.length_update. auto.
  - rewrite StrMapFacts.keys_update, StrMapFacts.length_update. auto.
  - destruct (chooseId date_now a c) as [i c']. simpl.
    rewrite StrMapFacts.keys_set, StrMapFacts.length_set.
    destruct (StrMap.get i (tasks cl)); split; auto.
    intros k Hk. apply in_or_app. now left.
  - auto.
Qed.

Lemma applyAdjustments_keeps adjustments (cl : t) c :
  (forall k, In k (StrMap.keys (tasks cl)) ->
             In k (StrMap.keys (tasks (fst (applyAdjustments date_now adjustments cl c))))) /\
  (List.length (tasks cl)
   <= List.length (tasks (fst (applyAdjustments date_now adjustments cl c))))%nat.
Proof.
  revert cl c. induction adjustments as [|adj rest IH]; intros cl c; simpl.
  - auto.
  - destruct (applyAdjustment_keeps adj cl c) as [Hk Hl].
    destruct (applyAdjustment date_now adj cl c) as [cl1 c1]. simpl in *.
    destruct (IH cl1 c1) as [Hk' Hl']. split; [auto | lia].
Qed.

(** Adjustments that rename nothing keep the checklist well keyed. *)
Lemma well_keyed_applyAdjustments adjustments (cl : t) c :
  Forall keeps_ids adjustments -> well_keyed cl ->
  well_keyed (fst (applyAdjustments date_now adjustments cl c)).
Proof.
  revert cl c. induction adjustments as [|adj rest IH]; intros cl c Hall Hwk.
  - exact Hwk.
  - inversion Hall as [|? ? Hk Hrest]; subst. simpl.
    assert (Hwk1 : well_keyed (fst (applyAdjustment date_now adj cl c))).
    { destruct adj as [taskId p | taskId m | a | ty]; simpl.
      - now apply ChecklistFacts.well_keyed_update.
      - apply ChecklistFacts.well_keyed_update; [|exact Hwk].
        intros x. simpl in Hk. simpl. now rewrite Hk.
      - destruct (chooseId date_now a c) as [i c']. simpl.
        destruct Hwk as [Hnd Hid]. split; simpl.
        + now apply StrMapFacts.NoDup_keys_set.
        + intros k0 task Hin. apply StrMapFacts.In_set in Hin.
          destruct Hin as [Hin | Heq]; [now apply Hid|].
          inversion Heq; subst. reflexivity.
      - exact Hwk. }
    destruct (applyAdjustment date_now adj cl c) as [cl1 c1]. simpl in *.
    now apply IH.
Qed.

(** The adjustments are applied one after the other, in list order. *)
Lemma applyAdjustments_app l1 l2 (cl : t) c :
  applyAdjustments date_now (l1 ++ l2) cl c =
  applyAdjustments date_now l2
    (fst (applyAdjustments date_now l1 cl c))
    (snd (applyAdjustments date_now l1 cl c)).
Proof.
  revert cl c. induction l1 as [|adj rest IH]; intros cl c; simpl.
  - reflexivity.
  - destruct (applyAdjustment date_now adj cl c) as [cl1 c1]. apply IH.
Qed.

(** The defaults of [add]. *)
Lemma newTask_defaults i name description :
  newTask i (TaskInput.mk None name description
                          None None None None None None None)
  = Task.mk i name description 5 (Some []) 0.8 5 false (Some 10%Q) []
            pending None None.
Proof. reflexivity. Qed.

End Facts.
End AdjustmentFacts.

(* ------------------------------------------------------------------ *)
(** ** The batch *)

(** C9, as the code has it. A turn of the main loop that starts from a
    checklist in which every task is stored under its id dispatches the
    first three available tasks. The join always returns, with one result
    per member, and these results are those of the members' executions,
    made in order of submission, each after the member was marked: the
    result the execution returned, or, when it threw, a failed result
    with confidence 0, 1 iteration, no tool result and the message of the
    exception. The recording loop then pushes one ledger entry per
    member, in order, with that result, and leaves every member in the
    checklist with that result and with status [completed] or [failed],
    none [in_progress]; the tasks outside the batch are not touched, and
    every task is still stored under its id. The recording loop does the
    same with any list of results, so in whatever order the members ran.
    The turn ends with the reflection on the ledger so extended: when the
    failure fraction does not exceed 0.6 the checklist stays as recorded;
    when it does, a member keeps its status through the adjustments of
    the oracle if none of them is a [modify] of the member that carries a
    status or an [add] that may take the member's id. *)
Theorem batch_atomicity {Env : Type} {clock : Clock Env}
    {llm : LLM.LLMInterface Env}
    (toolRegistry : list (string * Tool.t Env))
    (goalDefinition : GoalDefinition) (context : Json)
    (cl : Checklist.t) (er : ExecutionResult.t) (w : World Env) :
  well_keyed cl ->
  exists rs w1 cl' entries w',
    Orchestrator.runBatch toolRegistry
      (JS.slice_first 3 (Checklist.availableEntries cl)) context cl w
    = (Ok (rs, markAll (JS.slice_first 3 (Checklist.availableEntries cl)) cl), w1) /\
    executed toolRegistry
      (JS.slice_first 3 (Checklist.availableEntries cl)) context cl w rs w1 /\
    List.length rs
    = List.length (JS.slice_first 3 (Checklist.availableEntries cl)) /\
    Orchestrator.dispatch toolRegistry
      (JS.slice_first 3 (Checklist.availableEntries cl)) context cl er w
    = (Ok (cl', Orchestrator.with_ledger
                  (ExecutionResult.tasksCompleted er ++ entries)%list er), w') /\
    map entry_result entries = rs /\
    well_keyed cl' /\
    (forall i task r,
       nth_error (JS.slice_first 3 (Checklist.availableEntries cl)) i = Some task ->
       nth_error rs i = Some r ->
       Checklist.getTask (fst task) cl = Some (snd task) /\
       Task.id (snd task) = fst task /\
       exists x,
         Checklist.getTask (fst task) cl' = Some x /\
         Task.result x = Some r /\
         Task.status x = (if TaskResult.success r then completed else failed) /\
         terminal (Task.status x) /\ Task.status x <> in_progress) /\
    (forall k,
       ~ In k (map fst (JS.slice_first 3 (Checklist.availableEntries cl))) ->
       Checklist.getTask k cl' = Checklist.getTask k cl) /\
    (forall task cl0 (w0 w0' : World Env) e,
       Orchestrator.executeTask toolRegistry
         (Checklist.current task
            (Checklist.setTaskInProgress
               (Task.id (Checklist.current task cl0)) cl0))
         context w0 = (Throw e, w0') ->
       Orchestrator.executeTaskWithProgress toolRegistry task context cl0 w0
       = (Ok (TaskResult.mk false 0 1 [] None (Some (JS.message_of e)),
              Checklist.setTaskInProgress
                (Task.id (Checklist.current task cl0)) cl0), w0')) /\
    (forall results (w2 : World Env),
       List.length results
       = List.length (JS.slice_first 3 (Checklist.availableEntries cl)) ->
       exists cl2 entries2 w2',
         Orchestrator.recordResults
           (JS.slice_first 3 (Checklist.availableEntries cl)) results
           (markAll (JS.slice_first 3 (Checklist.availableEntries cl)) cl)
           (ExecutionResult.tasksCompleted er) w2
         = (Ok (cl2, (ExecutionResult.tasksCompleted er ++ entries2)%list), w2') /\
         map entry_result entries2 = results /\
         forall i task r,
           nth_error (JS.slice_first 3 (Checklist.availableEntries cl)) i
           = Some task ->
           nth_error results i = Some r ->
           exists x,
             Checklist.getTask (fst task) cl2 = Some x /\
             Task.result x = Some r /\
             Task.status x
             = (if TaskResult.success r then completed else failed)) /\
    (forall before : World Env,
       Orchestrator.isGoalAchieved goalDefinition cl before = (Ok false, w) ->
       Checklist.getAvailableTasks cl <> [] ->
       Orchestrator.iteration toolRegistry goalDefinition context cl er before
       = match Orchestrator.reflectAndAdapt cl'
                 (Orchestrator.with_ledger
                    (ExecutionResult.tasksCompleted er ++ entries)%list er) w' with
         | (Ok cl2, w2) =>
             (Ok (false, cl2,
                  Orchestrator.next_iteration
                    (Orchestrator.with_ledger
                       (ExecutionResult.tasksCompleted er ++ entries)%list er)),
              w2)
         | (Throw e, w2) => (Throw e, w2)
         end) /\
    (~ failure_fraction_exceeds
         (JS.slice_last 5 (ExecutionResult.tasksCompleted er ++ entries)) ->
     Orchestrator.reflectAndAdapt cl'
       (Orchestrator.with_ledger
          (ExecutionResult.tasksCompleted er ++ entries)%list er) w'
     = (Ok cl', w')) /\
    (forall adjustments env',
       failure_fraction_exceeds
         (JS.slice_last 5 (ExecutionResult.tasksCompleted er ++ entries)) ->
       LLM.strategize
         (JS.slice_last 5 (ExecutionResult.tasksCompleted er ++ entries))
         (outside w') = (Ok adjustments, env') ->
       exists cl2 w2,
         Orchestrator.reflectAndAdapt cl'
           (Orchestrator.with_ledger
              (ExecutionResult.tasksCompleted er ++ entries)%list er) w'
         = (Ok cl2, w2) /\
         forall i task r,
           nth_error (JS.slice_first 3 (Checklist.availableEntries cl)) i
           = Some task ->
           nth_error rs i = Some r ->
           Forall (spares (fst task)) (JS.arr_or adjustments []) ->
           exists x,
             Checklist.getTask (fst task) cl2 = Some x /\
             Task.status x
             = (if TaskResult.success r then completed else failed)).
Proof.
  intros Hwk.
  pose proof (SchedulerFacts.available_batch cl Hwk) as Hbatch.
  destruct (SchedulerFacts.dispatch_spec toolRegistry _ context cl er w
              Hwk Hbatch)
    as [rs [w1 [cl' [entries [w' [Hrun [Hexd [Hlen [Hd [Hm [Hrec Hframe]]]]]]]]]]].
  exists rs, w1, cl', entries, w'.
  repeat (split; [assumption|]).
  split; [exact (SchedulerFacts.well_keyed_dispatch _ _ _ _ _ _ _ _ _ Hd Hwk)|].
  split; [|split; [exact Hframe|split; [|split; [|split; [|split]]]]].
  - intros i task r Hti Hri.
    destruct (proj2 Hbatch task (nth_error_In _ _ Hti)) as [Hg Hid].
    split; [exact Hg|]. split; [exact Hid|].
    destruct (Hrec i task r Hti Hri) as [x [Hx [Hr Hs]]].
    exists x. repeat (split; [assumption|]).
    unfold terminal. rewrite Hs. destruct (TaskResult.success r);
      split; auto; discriminate.
  - intros task cl0 w0 w0' e Hthrow.
    destruct (SchedulerFacts.executeTaskWithProgress_cases toolRegistry
                task context cl0 w0) as [res [w2 [E1 E2]]].
    rewrite Hthrow in E1. inversion E1; subst. exact E2.
  - intros results w2 Hlen2.
    destruct (SchedulerFacts.record_any _ results cl
                (ExecutionResult.tasksCompleted er) w2 Hwk Hbatch Hlen2)
      as [cl2 [entries2 [w2' [Erec [Hm2 [Hrec2 _]]]]]].
    exists cl2, entries2, w2'. auto.
  - intros before Hgoal Hav.
    destruct (SchedulerFacts.iteration_order toolRegistry goalDefinition
                context cl er before w Hgoal Hav)
      as [cl1 [entries1 [w1' [Hd1 [_ Hit]]]]].
    rewrite Hd in Hd1. injection Hd1 as <- Hentries <-.
    apply app_inv_head in Hentries. subst entries1. exact Hit.
  - intros Hnot. apply ReflectionFacts.reflectAndAdapt_calm. simpl.
    destruct (Orchestrator.tooManyFailures _) eqn:Hb; [|reflexivity].
    apply ReflectionFacts.tooManyFailures_iff in Hb. contradiction.
  - intros adjustments env' Hex Hstr.
    apply ReflectionFacts.tooManyFailures_iff in Hex.
    eexists. eexists. split.
    + apply (ReflectionFacts.reflectAndAdapt_triggered cl' _ w' adjustments env');
        simpl; assumption.
    + intros i task r Hti Hri Hsp.
      destruct (Hrec i task r Hti Hri) as [x [Hx [_ Hs]]].
      destruct (AdjustmentFacts.applyAdjustments_status Orchestrator.world_now
                  (JS.arr_or adjustments []) cl'
                  (Build_World (executionHistory w')
                     (trace w' ++ [EvStrategize]) env')
                  (fst task) x Hsp Hx) as [x' [Hx' Hs']].
      exists x'. split; [exact Hx'|]. congruence.
Qed.

(** A batch of three of which the second throws: its neighbours are
    recorded as completed, and it is recorded as failed. *)
Lemma batch_with_a_throwing_member :
  exists cl' er' w',
    Orchestrator.dispatch (llm := Fixture.raw) Fixture.registry
      (JS.slice_first 3 (Checklist.availableEntries Fixture.trio))
      Fixture.context Fixture.trio (Fixture.ledger [])
      (Fixture.world Fixture.trio_env) = (Ok (cl', er'), w') /\
    map Task.status (Checklist.getAllTasks cl') = [completed; failed; completed] /\
    map (fun e => TaskResult.error (entry_result e))
        (ExecutionResult.tasksCompleted er')
    = [None; Some "LLM request failed"; None].
Proof.
  eexists. eexists. eexists. split; [vm_compute; reflexivity|].
  split; reflexivity.
Qed.

(** The claim C9 does not hold as it is written, for every dispatched
    batch and to the end of the turn. Once a [modify] has given the task
    stored under [p] another id, the batch marks and records under that
    id: the execution of [p] succeeds and enters the ledger, yet [p]
    stays [pending] without a result, while [q] throws and [r] succeeds.
    And in a fresh checklist whose three tasks all fail, the reflection
    that closes the turn applies what the oracle advises: a [modify] that
    carries a status leaves [p] [in_progress] at the end of the turn. *)
Lemma batch_member_not_settled :
  (exists cl' er' w',
     Orchestrator.dispatch (llm := Fixture.raw) Fixture.registry
       (JS.slice_first 3 (Checklist.availableEntries Fixture.renamed))
       Fixture.context Fixture.renamed (Fixture.ledger [])
       (Fixture.world Fixture.trio_env) = (Ok (cl', er'), w') /\
     map (fun e => TaskResult.success (entry_result e))
         (ExecutionResult.tasksCompleted er') = [true; false; true] /\
     map (fun e => (fst e, Task.status (snd e), Task.result (snd e)))
         (JS.slice_first 1 (Checklist.tasks cl')) = [("p", pending, None)] /\
     map Task.status (Checklist.getAllTasks cl')
     = [pending; failed; completed]) /\
  (exists cl2 er2 w2,
     Orchestrator.iteration (llm := Fixture.raw) Fixture.registry Fixture.goal
       Fixture.context Fixture.trio (Fixture.ledger [])
       (Fixture.world Fixture.reopening) = (Ok (false, cl2, er2), w2) /\
     map (fun e => TaskResult.success (entry_result e))
         (ExecutionResult.tasksCompleted er2) = [false; false; false] /\
     map Task.status (Checklist.getAllTasks cl2)
     = [in_progress; failed; failed]).
Proof.
  split.
  - eexists. eexists. eexists. split; [vm_compute; reflexivity|].
    repeat split.
  - eexists. eexists. eexists. split; [vm_compute; reflexivity|].
    repeat split.
Qed.

Lemma batch_atomicity_witness :
  exists cl' er' w',
    Orchestrator.dispatch (llm := Fixture.raw) Fixture.registry
      (JS.slice_first 3 (Checklist.availableEntries Fixture.trio))
      Fixture.context Fixture.trio (Fixture.ledger [])
      (Fixture.world Fixture.trio_env) = (Ok (cl', er'), w') /\
    List.length (ExecutionResult.tasksCompleted er') = 3%nat /\
    option_map Task.status (Checklist.getTask "q" cl') = Some failed /\
    Checklist.getTask "elsewhere" cl' = None /\
    Orchestrator.reflectAndAdapt (llm := Fixture.raw) cl' er' w' = (Ok cl', w').
Proof.
  destruct (batch_atomicity (llm := Fixture.raw) Fixture.registry
              Fixture.goal Fixture.context Fixture.trio (Fixture.ledger [])
              (Fixture.world Fixture.trio_env)
              (ConstructorFacts.new_well_keyed _ _))
    as (rs & w1 & cl' & entries & w' & Hrun & _ & Hlen & Hd & Hm & _ & Hrec
        & Hframe & _ & _ & _ & Hcalm & _).
  eexists. eexists. eexists. split; [exact Hd|].
  vm_compute in Hrun. injection Hrun as Hrs _. subst rs.
  split; [|split; [|split]].
  - simpl. rewrite <- (length_map entry_result), Hm. reflexivity.
  - destruct (Hrec 1%nat ("q"%string, Fixture.task "q" [] false)
                (TaskResult.mk false 0 1 [] None (Some "LLM request failed"))
                eq_refl eq_refl) as [_ [_ [x [Hx [_ [Hs _]]]]]].
    simpl in Hx. rewrite Hx. simpl. now rewrite Hs.
  - rewrite (Hframe "elsewhere"); [reflexivity|].
    vm_compute. intuition discriminate.
  - apply Hcalm. simpl.
    destruct entries as [|e1 [|e2 [|e3 [|e4 rest]]]]; try discriminate Hm.
    injection Hm as H1 H2 H3.
    intros Hex. apply ReflectionFacts.tooManyFailures_iff in Hex.
    unfold Orchestrator.failureRate in Hex. simpl in Hex.
    rewrite H1, H2, H3 in Hex. vm_compute in Hex. discriminate.
Defined.

(* ------------------------------------------------------------------ *)
(** ** Terminal statuses *)

(** A terminal task is not of the batch. *)
Lemma terminal_not_dispatched (cl : Checklist.t) k x :
  well_keyed cl -> Checklist.getTask k cl = Some x -> terminal (Task.status x) ->
  ~ In k (map fst (JS.slice_first 3 (Checklist.availableEntries cl))).
Proof.
  intros Hwk Hx Hterm Hin. apply in_map_iff in Hin.
  destruct Hin as [task [Hid Hin]].
  destruct (proj2 (SchedulerFacts.available_batch cl Hwk) task Hin) as [Hg _].
  rewrite Hid, Hx in Hg. inversion Hg as [Hsnd].
  apply SchedulerFacts.In_firstn in Hin. apply filter_In in Hin.
  destruct Hin as [_ Hav]. rewrite <- Hsnd in Hav.
  apply ChecklistFacts.available_spec in Hav.
  destruct Hav as [Hp _]. destruct Hterm as [Ht | Ht]; congruence.
Qed.

(** C1, as the code has it. A task that is [completed] or [failed] keeps
    its status (1) when [setTaskInProgress] or [updateTaskStatus] is
    called with the id of another task; (2) through the dispatch of a
    batch and the recording of its results, in a checklist where every
    task is stored under its id, because the batch is taken among the
    pending tasks; (3) through [applyAdjustments], when every [modify]
    aimed at it carries no status and every [add] comes with an id of its
    own that is not the id of the task. *)
Theorem terminal_status_kept (cl : Checklist.t) (k : string) (x : Task.t) :
  Checklist.getTask k cl = Some x ->
  terminal (Task.status x) ->
  (forall (C : Type) (date_now : C -> Z * C) (c : C) k' r, k' <> k ->
     Checklist.getTask k (Checklist.setTaskInProgress k' cl) = Some x /\
     Checklist.getTask k (fst (Checklist.updateTaskStatus date_now k' r cl c))
     = Some x) /\
  (forall (Env : Type) (clock : Clock Env) (llm : LLM.LLMInterface Env)
          (toolRegistry : list (string * Tool.t Env)) (context : Json)
          (er : ExecutionResult.t) (w : World Env),
     well_keyed cl ->
     exists cl' er' w',
       Orchestrator.dispatch toolRegistry
         (JS.slice_first 3 (Checklist.availableEntries cl)) context cl er w
       = (Ok (cl', er'), w') /\
       Checklist.getTask k cl' = Some x) /\
  (forall (C : Type) (date_now : C -> Z * C) (adjustments : list Adjustment)
          (c : C),
     Forall (spares k) adjustments ->
     exists x',
       Checklist.getTask k
         (fst (Checklist.applyAdjustments date_now adjustments cl c)) = Some x' /\
       Task.status x' = Task.status x).
Proof.
  intros Hx Hterm. split; [|split].
  - intros C date_now c k' r Hne.
    rewrite ChecklistFacts.updateTaskStatus_fst.
    rewrite ChecklistFacts.getTask_setTaskInProgress,
            ChecklistFacts.getTask_settle.
    assert (E : String.eqb k k' = false) by (apply String.eqb_neq; congruence).
    rewrite E. auto.
  - intros Env clock llm toolRegistry context er w Hwk.
    destruct (SchedulerFacts.dispatch_spec toolRegistry _ context cl er w
                Hwk (SchedulerFacts.available_batch cl Hwk))
      as [rs [w1 [cl' [entries [w' [_ [_ [_ [Hd [_ [_ Hframe]]]]]]]]]]].
    eexists. eexists. eexists. split; [exact Hd|].
    rewrite (Hframe k (terminal_not_dispatched cl k x Hwk Hx Hterm)). exact Hx.
  - intros C date_now adjustments c Hall.
    now apply AdjustmentFacts.applyAdjustments_status.
Qed.

(** The claim C1 does not hold as it is written: [setTaskInProgress] has
    no guard and reopens a completed task, and a [modify] that carries a
    status overwrites the status of a completed task. *)
Lemma terminal_status_can_change :
  option_map Task.status (Checklist.getTask "a" Fixture.done) = Some completed /\
  option_map Task.status
    (Checklist.getTask "a" (Checklist.setTaskInProgress "a" Fixture.done))
  = Some in_progress /\
  option_map Task.status
    (Checklist.getTask "a"
       (fst (Checklist.applyAdjustments date_now
               [Fixture.restatus "a" pending] Fixture.done (Fixture.env [] []))))
  = Some pending.
Proof. repeat split. Qed.

Lemma terminal_status_kept_witness :
  Checklist.getTask "a" (Checklist.setTaskInProgress "b" Fixture.done)
  = Checklist.getTask "a" Fixture.done /\
  (exists cl' er' w',
     Orchestrator.dispatch (llm := Fixture.raw) Fixture.registry
       (JS.slice_first 3 (Checklist.availableEntries Fixture.done))
       Fixture.context Fixture.done (Fixture.ledger [])
       (Fixture.world (Fixture.env [] [])) = (Ok (cl', er'), w') /\
     option_map Task.status (Checklist.getTask "a" cl') = Some completed) /\
  (exists x',
     Checklist.getTask "a"
       (fst (Checklist.applyAdjustments date_now
               [reorder "a" 9; Fixture.restatus "b" pending; Fixture.named "z" "new"]
               Fixture.done (Fixture.env [] []))) = Some x' /\
     Task.status x' = completed).
Proof.
  destruct (terminal_status_kept Fixture.done "a"
              (Task.settle Fixture.passed 1700000000000
                           (Fixture.task "a" [] false))
              eq_refl (or_introl eq_refl))
    as [H1 [H2 H3]].
  split; [|split].
  - destruct (H1 Z Scenario.tick 0%Z "b" Fixture.passed ltac:(discriminate))
      as [E _].
    rewrite E. reflexivity.
  - destruct (H2 Fixture.Env Fixture.clock Fixture.raw Fixture.registry
                Fixture.context (Fixture.ledger [])
                (Fixture.world (Fixture.env [] []))
                (ChecklistFacts.well_keyed_settle "a" Fixture.passed
                   1700000000000 _
                   (ConstructorFacts.new_well_keyed
                      [Fixture.task "a" [] false] Fixture.goal)))
      as [cl' [er' [w' [Hd Hg]]]].
    exists cl', er', w'. split; [exact Hd|]. rewrite Hg. reflexivity.
  - apply (H3 Fixture.Env date_now
              [reorder "a" 9; Fixture.restatus "b" pending; Fixture.named "z" "new"]
              (Fixture.env [] [])).
    constructor; [exact I|].
    constructor; [left; discriminate|].
    constructor; [|constructor].
    exists "z"%char, ""%string. split; [reflexivity | discriminate].
Defined.

(** C5 on the input where the code goes wrong: two [add] adjustments
    without id, applied within the same millisecond, are given the same
    id, and the second task takes the place of the first. *)
Theorem add_without_id_collides :
  map (fun e => (fst e, Task.name (snd e)))
      (Checklist.tasks
         (fst (Checklist.applyAdjustments date_now
                 [Fixture.bare "x"; Fixture.bare "y"]
                 (Checklist.new [] Fixture.goal) (Fixture.env [] []))))
  = [("task_1700000000000", "y")] /\
  Checklist.chooseId date_now
    (TaskInput.mk None "x" "" None None None None None None None)
    (Fixture.env [] [])
  = Checklist.chooseId date_now
      (TaskInput.mk None "y" "" None None None None None None None)
      (Fixture.env [] []).
Proof. split; reflexivity. Qed.

(** X8. What does hold of [applyAdjustments]: the adjustments are applied
    in list order; no key is lost and the map never gets shorter; and the
    task an [add] builds has the id chosen for it, the name and the
    description it was given, status [pending], neither result nor
    completion time, and for each optional field that is omitted its
    default: priority 5, no dependency, success threshold 0.8, estimated
    complexity 5, not iterative, 10 iterations at most, no required
    capability. A number that is given and is not zero, and an array that
    is given, are kept. *)
Lemma applyAdjustments_sound {C : Type} (date_now : C -> Z * C)
    (adjustments : list Adjustment) (cl : Checklist.t) (c : C) :
  (forall l1 l2, adjustments = (l1 ++ l2)%list ->
     Checklist.applyAdjustments date_now adjustments cl c =
     Checklist.applyAdjustments date_now l2
       (fst (Checklist.applyAdjustments date_now l1 cl c))
       (snd (Checklist.applyAdjustments date_now l1 cl c))) /\
  (forall k, Checklist.getTask k cl <> None ->
     Checklist.getTask k
       (fst (Checklist.applyAdjustments date_now adjustments cl c)) <> None) /\
  (List.length (Checklist.getAllTasks cl)
   <= List.length
        (Checklist.getAllTasks
           (fst (Checklist.applyAdjustments date_now adjustments cl c))))%nat /\
  (forall i name description,
     Checklist.newTask i
       (TaskInput.mk None name description None None None None None None None)
     = Task.mk i name description 5 (Some []) 0.8 5 false (Some 10%Q) []
               pending None None) /\
  (forall i a,
     Task.id (Checklist.newTask i a) = i /\
     Task.name (Checklist.newTask i a) = TaskInput.name a /\
     Task.description (Checklist.newTask i a) = TaskInput.description a /\
     Task.status (Checklist.newTask i a) = pending /\
     Task.result (Checklist.newTask i a) = None /\
     Task.completedAt (Checklist.newTask i a) = None /\
     (TaskInput.priority a = None ->
      Task.priority (Checklist.newTask i a) = 5%Q) /\
     (TaskInput.dependencies a = None ->
      Task.dependencies (Checklist.newTask i a) = Some []) /\
     (TaskInput.successThreshold a = None ->
      Task.successThreshold (Checklist.newTask i a) = 0.8%Q) /\
     (TaskInput.estimatedComplexity a = None ->
      Task.estimatedComplexity (Checklist.newTask i a) = 5%Q) /\
     (TaskInput.requiresIterativeExecution a = None ->
      Task.requiresIterativeExecution (Checklist.newTask i a) = false) /\
     (TaskInput.maxIterations a = None ->
      Task.maxIterations (Checklist.newTask i a) = Some 10%Q) /\
     (TaskInput.requiredCapabilities a = None ->
      Task.requiredCapabilities (Checklist.newTask i a) = [])) /\
  (forall i a,
     (forall q, TaskInput.priority a = Some q -> ~ (q == 0)%Q ->
        Task.priority (Checklist.newTask i a) = q) /\
     (forall q, TaskInput.successThreshold a = Some q -> ~ (q == 0)%Q ->
        Task.successThreshold (Checklist.newTask i a) = q) /\
     (forall q, TaskInput.estimatedComplexity a = Some q -> ~ (q == 0)%Q ->
        Task.estimatedComplexity (Checklist.newTask i a) = q) /\
     (forall q, TaskInput.maxIterations a = Some q -> ~ (q == 0)%Q ->
        Task.maxIterations (Checklist.newTask i a) = Some q) /\
     (forall b, TaskInput.requiresIterativeExecution a = Some b ->
        Task.requiresIterativeExecution (Checklist.newTask i a) = b) /\
     (forall l, TaskInput.dependencies a = Some l ->
        Task.dependencies (Checklist.newTask i a) = Some l) /\
     (forall l, TaskInput.requiredCapabilities a = Some l ->
        Task.requiredCapabilities (Checklist.newTask i a) = l)).
Proof.
  assert (Hnum : forall q d, ~ (q == 0)%Q -> JS.num_or (Some q) d = q).
  { intros q d Hq. unfold JS.num_or.
    destruct (Qeq_bool q 0) eqn:E; [|reflexivity].
    apply Qeq_bool_iff in E. contradiction. }
  split; [|split; [|split; [|split; [|split]]]];
    [| | | intros; reflexivity
     | intros i a; simpl; repeat (split; [reflexivity|]);
       repeat split; intros ->; reflexivity
     | intros i a; simpl; repeat split;
       try (intros q -> Hq; now rewrite Hnum);
       try (intros l ->; reflexivity);
       intros [|] ->; reflexivity ].
  - intros l1 l2 ->. apply AdjustmentFacts.applyAdjustments_app.
  - intros k Hk.
    destruct (AdjustmentFacts.applyAdjustments_keeps date_now adjustments cl c)
      as [Hkeys _].
    unfold Checklist.getTask in *.
    destruct (StrMap.get k (Checklist.tasks cl)) as [x|] eqn:Hx; [|congruence].
    assert (Hin : In k (StrMap.keys (Checklist.tasks cl)))
      by (apply StrMapFacts.get_some_keys; eauto).
    apply Hkeys in Hin. apply StrMapFacts.get_some_keys in Hin.
    destruct Hin as [v Hv]. rewrite Hv. discriminate.
  - destruct (AdjustmentFacts.applyAdjustments_keeps date_now adjustments cl c)
      as [_ Hlen].
    unfold Checklist.getAllTasks, StrMap.values. now rewrite !length_map.
Qed.

(* ------------------------------------------------------------------ *)
(** ** The properties at work on the examples *)

Lemma graph_blocked : blocked Fixture.graph ["c"; "d"].
Proof.
  intros k task [<- | [<- | []]] Hg; vm_compute in Hg; inversion Hg; subst;
    (split; [reflexivity|]).
  - exists "d". simpl. auto.
  - exists "c". simpl. auto.
Qed.

Lemma availableTasks_dependency_gating_witness :
  ~ In (Fixture.task "e" ["ghost"] false)
       (Checklist.getAvailableTasks Fixture.graph) /\
  ~ In (Fixture.task "b" ["a"] false)
       (Checklist.getAvailableTasks Fixture.graph) /\
  ~ In (Fixture.task "c" ["d"] false)
       (Checklist.getAvailableTasks Fixture.graph) /\
  blocked (Checklist.setTaskInProgress "a" Fixture.graph) ["c"; "d"] /\
  blocked (fst (Checklist.updateTaskStatus Scenario.tick "a" Fixture.passed
                  (Checklist.setTaskInProgress "a" Fixture.graph) 0%Z))
          ["c"; "d"].
Proof.
  destruct (availableTasks_dependency_gating Fixture.graph)
    as [_ [Hmissing [Hwait Hblocked]]].
  destruct (Hblocked ["c"; "d"] graph_blocked) as [Hun [Hmark _]].
  assert (Hm : blocked (Checklist.setTaskInProgress "a" Fixture.graph) ["c"; "d"]).
  { apply (Hmark (Fixture.task "a" [] false)
                 (ConstructorFacts.new_well_keyed _ _)).
    vm_compute. left. reflexivity. }
  split; [|split; [|split; [|split]]].
  - apply (Hmissing _ "ghost"); [simpl; auto | reflexivity].
  - apply (Hwait _ "a" (Fixture.task "a" [] false));
      [simpl; auto | reflexivity | discriminate].
  - apply (Hun "c"); [simpl; auto | reflexivity].
  - exact Hm.
  - destruct (availableTasks_dependency_gating
                (Checklist.setTaskInProgress "a" Fixture.graph))
      as [_ [_ [_ Hblocked']]].
    destruct (Hblocked' ["c"; "d"] Hm) as [_ [_ Hrec]].
    apply (Hrec Z Scenario.tick 0%Z "a"
                (Task.with_status in_progress (Fixture.task "a" [] false)));
      reflexivity.
Defined.

Lemma tool_failure_contained_witness :
  Orchestrator.callTool (llm := Fixture.raw) Fixture.broken
    (Fixture.task "t" [] false) Fixture.context []
    (Fixture.world (Fixture.env [] []))
  = (Ok (ToolResult.mk false "broken" OutNull 0 0 (Some "boom")),
     Build_World [] [EvGenerateToolInput "broken"; EvExecute "broken"]
                 (Fixture.env [] [])) /\
  (exists e w',
     Orchestrator.executeIterativeTask (llm := Fixture.raw)
       (Fixture.task "t" [] true) [Fixture.broken] Fixture.context
       (Fixture.world (Fixture.env [] [])) = (Throw e, w') /\
     exists before, trace w' = (before ++ [EvEvaluate None])%list).
Proof.
  pose proof (tool_failure_contained (llm := Fixture.raw) Fixture.broken
                (Fixture.task "t" [] false) Fixture.context []
                (Fixture.world (Fixture.env [] []))) as [_ [Hthrow _]].
  pose proof (tool_failure_contained (llm := Fixture.raw) Fixture.broken
                (Fixture.task "t" [] true) Fixture.context []
                (Fixture.world (Fixture.env [] []))) as [_ [_ [_ [_ Hiter]]]].
  split.
  - exact (Hthrow (JsonText "{}") (Fixture.env [] []) 1700000000000%Z
                  (Fixture.env [] []) (JS.ErrorObj "boom") (Fixture.env [] [])
                  eq_refl eq_refl eq_refl).
  - eexists. eexists. split; [vm_compute; reflexivity|].
    eapply (Hiter [Fixture.broken]). vm_compute. reflexivity.
Defined.

Lemma constructor_resets_status_witness :
  option_map Task.status
    (Checklist.getTask "a"
       (Checklist.new [Task.with_status completed (Fixture.task "a" [] false);
                       Task.with_status failed (Fixture.task "b" ["a"] false)]
                      Fixture.goal))
  = Some pending /\
  Forall (fun task => Task.status task = pending)
    (Checklist.getAllTasks
       (Checklist.new [Task.with_status completed (Fixture.task "a" [] false);
                       Task.with_status failed (Fixture.task "b" ["a"] false)]
                      Fixture.goal)).
Proof.
  destruct (constructor_resets_status
              [Task.with_status completed (Fixture.task "a" [] false);
               Task.with_status failed (Fixture.task "b" ["a"] false)]
              Fixture.goal) as [Hall [Hstored _]].
  split.
  - destruct (Hstored (Task.with_status completed (Fixture.task "a" [] false))
                      (or_introl eq_refl)) as [y [_ [_ Hg]]].
    simpl in Hg. rewrite Hg. reflexivity.
  - apply Forall_forall. exact Hall.
Defined.

(* ================================================================== *)
(** * Further properties of the code *)

(* ------------------------------------------------------------------ *)
(** ** More on the map *)

Module StrMapMore.
Import StrMap.
Section Facts.
Context {V : Type}.
Implicit Types (m : list (string * V)) (k : string) (v : V).

Lemma set_fresh k v m : get k m = None -> set k v m = (m ++ [(k, v)])%list.
Proof.
  induction m as [|[k0 v0] m IH]; simpl; [reflexivity|].
  destruct (String.eqb k k0); [discriminate|].
  intros H. now rewrite IH.
Qed.

Lemma fold_set_fresh (es acc : list (string * V)) :
  NoDup (keys (acc ++ es)) ->
  fold_left (fun m e => set (fst e) (snd e) m) es acc = (acc ++ es)%list.
Proof.
  revert acc. induction es as [|[k0 v0] es IH]; intros acc Hnd; simpl.
  - now rewrite app_nil_r.
  - rewrite set_fresh.
    + rewrite IH; rewrite <- app_assoc; [reflexivity | exact Hnd].
    + apply StrMapFacts.get_none_keys. intros Hin.
      unfold keys in Hnd. rewrite map_app in Hnd. simpl in Hnd.
      apply NoDup_remove_2 in Hnd. apply Hnd. apply in_or_app. now left.
Qed.

Lemma of_entries_distinct (es : list (string * V)) :
  NoDup (keys es) -> of_entries es = es.
Proof. intros Hnd. unfold of_entries. now rewrite fold_set_fresh. Qed.

Lemma length_fold_set (es acc : list (string * V)) :
  (List.length (fold_left (fun m e => set (fst e) (snd e) m) es acc)
   <= List.length acc + List.length es)%nat.
Proof.
  revert acc. induction es as [|[k0 v0] es IH]; intros acc; simpl; [lia|].
  specialize (IH (set k0 v0 acc)). rewrite StrMapFacts.length_set in IH.
  destruct (get k0 acc); lia.
Qed.

End Facts.
End StrMapMore.

(* ------------------------------------------------------------------ *)
(** ** More on the checklist *)

Module ProgressFacts.
Import Checklist.

Lemma count_by_status (l : list Task.t) :
  List.length l =
  (List.length (filter (fun x => Status_eqb (Task.status x) completed) l)
   + List.length (filter (fun x => Status_eqb (Task.status x) failed) l)
   + List.length (filter (fun x => Status_eqb (Task.status x) pending) l)
   + List.length (filter (fun x => Status_eqb (Task.status x) in_progress) l))%nat.
Proof.
  induction l as [|x l IH]; simpl; [reflexivity|].
  destruct (Task.status x); simpl; lia.
Qed.

Lemma filter_length_le {A} (P : A -> bool) l :
  (List.length (filter P l) <= List.length l)%nat.
Proof.
  induction l as [|a l IH]; simpl; [lia|]. destruct (P a); simpl; lia.
Qed.

Lemma ratio_range (c n : nat) :
  (c <= S n)%nat ->
  (0 <= inject_Z (Z.of_nat c) / inject_Z (Z.of_nat (S n)) <= 1)%Q.
Proof.
  intros Hle.
  assert (Hpos : (0 < inject_Z (Z.of_nat (S n)))%Q).
  { change 0%Q with (inject_Z 0). rewrite <- Zlt_Qlt. lia. }
  split.
  - apply Qle_shift_div_l; [exact Hpos|]. rewrite Qmult_0_l.
    change 0%Q with (inject_Z 0). rewrite <- Zle_Qle. lia.
  - apply Qle_shift_div_r; [exact Hpos|]. rewrite Qmult_1_l.
    rewrite <- Zle_Qle. lia.
Qed.

End ProgressFacts.

(** X1. The four counts of [getProgressSummary] add up to the total, which
    is the number of tasks; the completion rate is 0 for an empty
    checklist and [completed / total] otherwise, always within [0,1]. *)
Theorem progress_summary_counts (cl : Checklist.t) :
  ProgressSummary.total (Checklist.getProgressSummary cl)
  = (ProgressSummary.completed (Checklist.getProgressSummary cl)
     + ProgressSummary.failed (Checklist.getProgressSummary cl)
     + ProgressSummary.pending (Checklist.getProgressSummary cl)
     + ProgressSummary.inProgress (Checklist.getProgressSummary cl))%nat /\
  ProgressSummary.total (Checklist.getProgressSummary cl)
  = List.length (Checklist.tasks cl) /\
  (0 <= ProgressSummary.completionRate (Checklist.getProgressSummary cl) <= 1)%Q /\
  (Checklist.tasks cl = [] ->
   ProgressSummary.completionRate (Checklist.getProgressSummary cl) = 0%Q) /\
  (Checklist.tasks cl <> [] ->
   ProgressSummary.completionRate (Checklist.getProgressSummary cl)
   = (inject_Z (Z.of_nat (List.length (Checklist.getCompletedTasks cl)))
      / inject_Z (Z.of_nat (List.length (Checklist.tasks cl))))%Q).
Proof.
  unfold Checklist.getProgressSummary. simpl.
  split; [apply ProgressFacts.count_by_status|].
  split; [unfold Checklist.getAllTasks, StrMap.values; apply length_map|].
  assert (Hlen : List.length (Checklist.getAllTasks cl)
                 = List.length (Checklist.tasks cl))
    by (unfold Checklist.getAllTasks, StrMap.values; apply length_map).
  split; [|split].
  - destruct (List.length (Checklist.getAllTasks cl)) as [|n] eqn:E.
    + split; [apply Qle_refl | discriminate].
    + apply ProgressFacts.ratio_range. rewrite <- E.
      apply ProgressFacts.filter_length_le.
  - intros Hnil. rewrite Hlen, Hnil. reflexivity.
  - intros Hne. rewrite Hlen.
    destruct (Checklist.tasks cl) as [|e l]; [now elim Hne|]. reflexivity.
Qed.

Lemma progress_summary_counts_witness :
  ProgressSummary.completionRate (Checklist.getProgressSummary Fixture.done)
  = (inject_Z 1 / inject_Z 1)%Q /\
  ProgressSummary.completionRate
    (Checklist.getProgressSummary (Checklist.new [] Fixture.goal)) = 0%Q.
Proof.
  split.
  - apply (proj2 (proj2 (proj2 (proj2 (progress_summary_counts Fixture.done))))).
    discriminate.
  - apply (proj1 (proj2 (proj2 (proj2
             (progress_summary_counts (Checklist.new [] Fixture.goal)))))).
    reflexivity.
Defined.

Module ChecklistMore.
Import Checklist.

Lemma with_tasks_same (cl : t) : with_tasks (tasks cl) cl = cl.
Proof. now destruct cl. Qed.

Lemma update_unknown k f (cl : t) :
  getTask k cl = None -> with_tasks (StrMap.update k f (tasks cl)) cl = cl.
Proof.
  intros Hk. unfold getTask in Hk.
  rewrite (StrMapFacts.update_missing _ _ _ Hk). apply with_tasks_same.
Qed.

(** Values of a well keyed checklist after a change under one key. *)
Lemma In_values_update k f (cl : t) task :
  well_keyed cl -> In task (getAllTasks cl) -> Task.id task <> k ->
  In task (getAllTasks (with_tasks (StrMap.update k f (tasks cl)) cl)).
Proof.
  intros Hwk Hin Hne.
  apply ChecklistFacts.getTask_In_values with (k := Task.id task).
  unfold getTask. simpl. rewrite StrMapFacts.get_update_other by exact Hne.
  exact (ChecklistFacts.well_keyed_getTask _ _ Hwk Hin).
Qed.

End ChecklistMore.

(** X2. An id that is not in the checklist is ignored without any
    effect: [setTaskInProgress], [updateTaskStatus], a [reorder] and a
    [modify] for such an id, and an adjustment of unknown type, leave the
    checklist exactly as it was, and do not read the clock: the methods
    that have access to the clock return it as they got it. So does
    [updateTaskStatus] when the main loop calls it: the world is the same
    after the call. *)
Theorem unknown_id_is_ignored (cl : Checklist.t) (k : string) :
  Checklist.getTask k cl = None ->
  Checklist.setTaskInProgress k cl = cl /\
  (forall (C : Type) (date_now : C -> Z * C) (c : C) r,
     Checklist.updateTaskStatus date_now k r cl c = (cl, c)) /\
  (forall (C : Type) (date_now : C -> Z * C) (c : C) p m ty,
     Checklist.applyAdjustments date_now
       [reorder k p; modify k m; other ty] cl c = (cl, c)) /\
  (forall (Env : Type) (clock : Clock Env) (w : World Env) r,
     Orchestrator.updateTaskStatus k r cl w = (Ok cl, w)).
Proof.
  intros Hk. split; [|split; [|split]].
  - now apply ChecklistMore.update_unknown.
  - intros C date_now c r. unfold Checklist.updateTaskStatus.
    now rewrite Hk.
  - intros C date_now c p m ty. simpl. unfold Checklist.getTask in Hk.
    rewrite !(StrMapFacts.update_missing _ _ _ Hk).
    destruct cl. reflexivity.
  - intros Env clock w r.
    unfold Orchestrator.updateTaskStatus, Checklist.updateTaskStatus.
    now rewrite Hk.
Qed.

Lemma unknown_id_is_ignored_witness :
  Checklist.setTaskInProgress "ghost" Fixture.graph = Fixture.graph /\
  Checklist.updateTaskStatus Scenario.tick "ghost" Fixture.passed
    Fixture.graph 7%Z
  = (Fixture.graph, 7%Z).
Proof.
  destruct (unknown_id_is_ignored Fixture.graph "ghost" eq_refl) as [H1 [H2 _]].
  split; [exact H1 | apply H2].
Defined.

(** X3. Recording a result for a task of the checklist: the task is then
    found with that result and the completion time, with status
    [completed] for a success and [failed] otherwise, its other fields
    untouched; the other tasks, the keys and their order do not change; the
    task is listed among the completed tasks exactly when the result is a
    success, and is not available any more. *)
Theorem recorded_result_is_found {C : Type} (date_now : C -> Z * C) (c : C)
    (cl : Checklist.t) (k : string) (x : Task.t) (r : TaskResult.t) :
  Checklist.getTask k cl = Some x ->
  snd (Checklist.updateTaskStatus date_now k r cl c) = snd (date_now c) /\
  Checklist.getTask k (fst (Checklist.updateTaskStatus date_now k r cl c))
  = Some (Task.mk (Task.id x) (Task.name x) (Task.description x)
                  (Task.priority x) (Task.dependencies x)
                  (Task.successThreshold x) (Task.estimatedComplexity x)
                  (Task.requiresIterativeExecution x) (Task.maxIterations x)
                  (Task.requiredCapabilities x)
                  (if TaskResult.success r then completed else failed)
                  (Some r) (Some (fst (date_now c)))) /\
  (forall k', k' <> k ->
     Checklist.getTask k' (fst (Checklist.updateTaskStatus date_now k r cl c))
     = Checklist.getTask k' cl) /\
  StrMap.keys (Checklist.tasks (fst (Checklist.updateTaskStatus date_now k r cl c)))
  = StrMap.keys (Checklist.tasks cl) /\
  (In (Task.settle r (fst (date_now c)) x)
      (Checklist.getCompletedTasks (fst (Checklist.updateTaskStatus date_now k r cl c)))
   <-> TaskResult.success r = true) /\
  (In (Task.settle r (fst (date_now c)) x)
      (Checklist.getFailedTasks (fst (Checklist.updateTaskStatus date_now k r cl c)))
   <-> TaskResult.success r = false) /\
  ~ In (Task.settle r (fst (date_now c)) x)
       (Checklist.getAvailableTasks (fst (Checklist.updateTaskStatus date_now k r cl c))).
Proof.
  intros Hx. split.
  { rewrite ChecklistFacts.updateTaskStatus_snd. now rewrite Hx. }
  rewrite !ChecklistFacts.updateTaskStatus_fst.
  set (n := fst (date_now c)).
  assert (Hg : Checklist.getTask k (Checklist.settleTask k r n cl)
               = Some (Task.settle r n x)).
  { rewrite ChecklistFacts.getTask_settle, String.eqb_refl, Hx.
    reflexivity. }
  pose proof (ChecklistFacts.getTask_In_values _ _ _ Hg) as Hin.
  split; [exact Hg|]. split; [|split; [|split; [|split]]].
  - intros k' Hne. rewrite ChecklistFacts.getTask_settle.
    apply String.eqb_neq in Hne. now rewrite Hne.
  - unfold Checklist.settleTask. simpl. apply StrMapFacts.keys_update.
  - unfold Checklist.getCompletedTasks. rewrite filter_In. simpl.
    destruct (TaskResult.success r); simpl; split; try tauto;
      intros [_ H]; discriminate.
  - unfold Checklist.getFailedTasks. rewrite filter_In. simpl.
    destruct (TaskResult.success r); simpl; split; try tauto;
      try discriminate; intros [_ H]; discriminate.
  - unfold Checklist.getAvailableTasks. rewrite filter_In.
    intros [_ Hav]. apply ChecklistFacts.available_spec in Hav.
    destruct Hav as [Hp _]. simpl in Hp.
    destruct (TaskResult.success r); discriminate.
Qed.

Lemma recorded_result_is_found_witness :
  option_map Task.result
    (Checklist.getTask "a"
       (fst (Checklist.updateTaskStatus Scenario.tick "a" Fixture.flunked
               Fixture.graph 7%Z)))
  = Some (Some Fixture.flunked) /\
  Checklist.getTask "b"
    (fst (Checklist.updateTaskStatus Scenario.tick "a" Fixture.flunked
            Fixture.graph 7%Z))
  = Checklist.getTask "b" Fixture.graph /\
  snd (Checklist.updateTaskStatus Scenario.tick "a" Fixture.flunked
         Fixture.graph 7%Z) = 8%Z.
Proof.
  destruct (recorded_result_is_found Scenario.tick 7%Z Fixture.graph "a"
              (Fixture.task "a" [] false) Fixture.flunked eq_refl)
    as [H0 [H1 [H2 _]]].
  split; [|split].
  - rewrite H1. reflexivity.
  - apply H2. discriminate.
  - exact H0.
Defined.

(** X4. What the result of a task does to the tasks that wait for it, in
    a checklist where every task is stored under its id: after the result
    of [k] is recorded, another task is available exactly when it is
    pending and each of its dependencies is either [k], the result being a
    success, or a task that was completed already. So a success unlocks
    the tasks that only waited for [k], and a failure leaves every task
    that depends on [k] unavailable. *)
Theorem result_unlocks_dependents {C : Type} (date_now : C -> Z * C) (c : C)
    (cl : Checklist.t) (k : string) (x : Task.t) (r : TaskResult.t)
    (task : Task.t) :
  well_keyed cl ->
  Checklist.getTask k cl = Some x ->
  In task (Checklist.getAllTasks cl) ->
  Task.id task <> k ->
  (In task (Checklist.getAvailableTasks (fst (Checklist.updateTaskStatus date_now k r cl c)))
   <->
   Task.status task = pending /\
   forall d, In d (deps_of task) ->
     (d = k /\ TaskResult.success r = true) \/
     (d <> k /\ exists dep, Checklist.getTask d cl = Some dep /\
                            Task.status dep = completed)).
Proof.
  intros Hwk Hx Hin Hne.
  rewrite ChecklistFacts.updateTaskStatus_fst.
  set (n := fst (date_now c)).
  unfold Checklist.getAvailableTasks. rewrite filter_In.
  rewrite ChecklistFacts.available_spec.
  assert (Hin' : In task (Checklist.getAllTasks
                            (Checklist.settleTask k r n cl)))
    by (now apply ChecklistMore.In_values_update).
  split.
  - intros [_ [Hp Hdeps]]. split; [exact Hp|].
    intros d Hd. destruct (Hdeps d Hd) as [dep [Hg Hc]].
    rewrite ChecklistFacts.getTask_settle in Hg.
    destruct (String.eqb d k) eqn:E.
    + apply String.eqb_eq in E. subst d. left. split; [reflexivity|].
      rewrite Hx in Hg. inversion Hg; subst dep. simpl in Hc.
      destruct (TaskResult.success r); [reflexivity | discriminate].
    + apply String.eqb_neq in E. right. eauto.
  - intros [Hp Hdeps]. split; [exact Hin'|]. split; [exact Hp|].
    intros d Hd. rewrite ChecklistFacts.getTask_settle.
    destruct (Hdeps d Hd) as [[-> Hs] | [Hdk [dep [Hg Hc]]]].
    + rewrite String.eqb_refl, Hx. simpl. eexists. split; [reflexivity|].
      simpl. now rewrite Hs.
    + apply String.eqb_neq in Hdk. rewrite Hdk. eauto.
Qed.

Lemma result_unlocks_dependents_witness :
  In (Fixture.task "b" ["a"] false)
     (Checklist.getAvailableTasks
        (fst (Checklist.updateTaskStatus Scenario.tick "a" Fixture.passed
                Fixture.graph 0%Z))) /\
  ~ In (Fixture.task "b" ["a"] false)
       (Checklist.getAvailableTasks
          (fst (Checklist.updateTaskStatus Scenario.tick "a" Fixture.flunked
                  Fixture.graph 0%Z))).
Proof.
  split.
  - apply (proj2 (result_unlocks_dependents Scenario.tick 0%Z
                    Fixture.graph "a"
                    (Fixture.task "a" [] false) Fixture.passed
                    (Fixture.task "b" ["a"] false)
                    (ConstructorFacts.new_well_keyed _ _) eq_refl
                    ltac:(vm_compute; auto) ltac:(discriminate))).
    split; [reflexivity|]. intros d [<- | []]. left. split; reflexivity.
  - intros Hav.
    apply (proj1 (result_unlocks_dependents Scenario.tick 0%Z
                    Fixture.graph "a"
                    (Fixture.task "a" [] false) Fixture.flunked
                    (Fixture.task "b" ["a"] false)
                    (ConstructorFacts.new_well_keyed _ _) eq_refl
                    ltac:(vm_compute; auto) ltac:(discriminate))) in Hav.
    destruct Hav as [_ Hdeps].
    destruct (Hdeps "a" (or_introl eq_refl)) as [[_ Hs] | [Hne _]].
    + discriminate.
    + now apply Hne.
Defined.

(** X5. The constructor never stores more tasks than it is given; when
    the ids it is given are distinct it stores all of them, in the order
    given, and the available tasks of the fresh checklist are the tasks
    without dependencies in that same order: the priority of a task plays
    no part in the order in which tasks are taken. *)
Theorem constructor_keeps_order (ts : list Task.t) (g : GoalDefinition) :
  (List.length (Checklist.getAllTasks (Checklist.new ts g))
   <= List.length ts)%nat /\
  (NoDup (map Task.id ts) ->
   Checklist.getAllTasks (Checklist.new ts g)
   = map (Task.with_status pending) ts /\
   Checklist.getAvailableTasks (Checklist.new ts g)
   = filter (fun task => match deps_of task with [] => true | _ :: _ => false end)
            (map (Task.with_status pending) ts)).
Proof.
  split.
  - unfold Checklist.getAllTasks, StrMap.values, Checklist.new,
      StrMap.of_entries. simpl. rewrite length_map.
    etransitivity; [apply StrMapMore.length_fold_set|].
    simpl. now rewrite length_map.
  - intros Hnd.
    assert (Hall : Checklist.getAllTasks (Checklist.new ts g)
                   = map (Task.with_status pending) ts).
    { unfold Checklist.getAllTasks, Checklist.new. simpl.
      rewrite StrMapMore.of_entries_distinct.
      - unfold StrMap.values. rewrite map_map. reflexivity.
      - unfold StrMap.keys. rewrite map_map. exact Hnd. }
    split; [exact Hall|].
    unfold Checklist.getAvailableTasks. rewrite <- Hall.
    apply filter_ext_in. apply ConstructorFacts.new_available.
Qed.

Lemma constructor_keeps_order_witness :
  map Task.id (Checklist.getAvailableTasks Fixture.trio) = ["p"; "q"; "r"].
Proof.
  destruct (constructor_keeps_order
              [Fixture.task "p" [] false; Fixture.task "q" [] false;
               Fixture.task "r" [] false] Fixture.goal) as [_ H].
  destruct H as [_ Hav].
  - repeat constructor; simpl; intuition discriminate.
  - unfold Fixture.trio. rewrite Hav. reflexivity.
Defined.

Module AddFacts.

Lemma num_or_nonzero (x : option Q) (d : Q) :
  ~ (d == 0)%Q -> ~ (JS.num_or x d == 0)%Q.
Proof.
  intros Hd. unfold JS.num_or. destruct x as [q|]; [|exact Hd].
  destruct (Qeq_bool q 0) eqn:E; [exact Hd|].
  intros Hq. apply Qeq_bool_iff in Hq. congruence.
Qed.

Lemma show_int_inj (a b : Z) : JS.show_int a = JS.show_int b -> a = b.
Proof.
  unfold JS.show_int. intros H.
  assert (Hnz : forall z, Z.to_int z <> Decimal.Pos Decimal.Nil /\
                          Z.to_int z <> Decimal.Neg Decimal.Nil).
  { intros z. destruct z as [|p|p]; simpl; split; try discriminate;
      intros Hp; inversion Hp as [Hu];
      exact (DecimalPos.Unsigned.to_uint_nonnil p Hu). }
  pose proof (NilZero.isi (Z.to_int a) (proj1 (Hnz a)) (proj2 (Hnz a))) as Ha.
  pose proof (NilZero.isi (Z.to_int b) (proj1 (Hnz b)) (proj2 (Hnz b))) as Hb.
  rewrite H in Ha. rewrite Ha in Hb. inversion Hb as [Hab].
  now apply DecimalZ.to_int_inj.
Qed.

End AddFacts.

(** X6. An [add] that comes with an id does not read the clock and
    stores, under that id, a pending task without result; the task is put
    at the end when the id is new, and takes the place of the task that
    had the id otherwise (the count stays the same); no other task
    changes. Whatever the adjustment gives, the stored priority, success
    threshold, complexity and iteration budget are never 0: a 0 is taken
    as a missing value and replaced by the default. *)
Theorem add_with_id_stores_task {C : Type} (date_now : C -> Z * C)
    (a : TaskInput.t) (ch : ascii) (rest : string)
    (cl : Checklist.t) (c : C) :
  TaskInput.id a = Some (String ch rest) ->
  snd (Checklist.applyAdjustment date_now (add a) cl c) = c /\
  Checklist.getTask (String ch rest)
    (fst (Checklist.applyAdjustment date_now (add a) cl c))
  = Some (Checklist.newTask (String ch rest) a) /\
  Task.status (Checklist.newTask (String ch rest) a) = pending /\
  Task.result (Checklist.newTask (String ch rest) a) = None /\
  (forall k, k <> String ch rest ->
     Checklist.getTask k (fst (Checklist.applyAdjustment date_now (add a) cl c))
     = Checklist.getTask k cl) /\
  (Checklist.getTask (String ch rest) cl = None ->
   Checklist.getAllTasks (fst (Checklist.applyAdjustment date_now (add a) cl c))
   = (Checklist.getAllTasks cl ++ [Checklist.newTask (String ch rest) a])%list) /\
  (Checklist.getTask (String ch rest) cl <> None ->
   StrMap.keys (Checklist.tasks
                  (fst (Checklist.applyAdjustment date_now (add a) cl c)))
   = StrMap.keys (Checklist.tasks cl)) /\
  ~ (Task.priority (Checklist.newTask (String ch rest) a) == 0)%Q /\
  ~ (Task.successThreshold (Checklist.newTask (String ch rest) a) == 0)%Q /\
  ~ (Task.estimatedComplexity (Checklist.newTask (String ch rest) a) == 0)%Q /\
  (exists q, Task.maxIterations (Checklist.newTask (String ch rest) a) = Some q /\
             ~ (q == 0)%Q).
Proof.
  intros Hid. unfold Checklist.applyAdjustment, Checklist.chooseId.
  rewrite Hid. simpl.
  split; [reflexivity|]. split.
  { unfold Checklist.getTask. simpl.
    now rewrite StrMapFacts.get_set, String.eqb_refl. }
  split; [reflexivity|]. split; [reflexivity|]. split.
  { intros k Hne. unfold Checklist.getTask. simpl.
    rewrite StrMapFacts.get_set. apply String.eqb_neq in Hne. now rewrite Hne. }
  split.
  { intros Hnone. unfold Checklist.getTask in Hnone.
    unfold Checklist.getAllTasks, StrMap.values. simpl.
    rewrite (StrMapMore.set_fresh _ _ _ Hnone), map_app. reflexivity. }
  split.
  { intros Hsome. unfold Checklist.getTask in Hsome.
    rewrite StrMapFacts.keys_set.
    destruct (StrMap.get (String ch rest) (Checklist.tasks cl));
      [reflexivity | congruence]. }
  split; [apply AddFacts.num_or_nonzero; discriminate|].
  split; [apply AddFacts.num_or_nonzero; discriminate|].
  split; [apply AddFacts.num_or_nonzero; discriminate|].
  eexists. split; [reflexivity|]. apply AddFacts.num_or_nonzero. discriminate.
Qed.

Lemma add_with_id_stores_task_witness :
  option_map Task.status
    (Checklist.getTask "a"
       (fst (Checklist.applyAdjustment date_now
               (add (TaskInput.mk (Some "a") "again" "" (Some 0%Q)
                                  None None None None None None))
               Fixture.done (Fixture.env [] []))))
  = Some pending /\
  option_map Task.priority
    (Checklist.getTask "a"
       (fst (Checklist.applyAdjustment date_now
               (add (TaskInput.mk (Some "a") "again" "" (Some 0%Q)
                                  None None None None None None))
               Fixture.done (Fixture.env [] []))))
  = Some 5%Q.
Proof.
  destruct (add_with_id_stores_task date_now
              (TaskInput.mk (Some "a") "again" "" (Some 0%Q)
                            None None None None None None)
              "a"%char ""%string Fixture.done (Fixture.env [] []) eq_refl)
    as [_ [Hg _]].
  rewrite Hg. split; reflexivity.
Defined.

(** X7. An [add] without id (or with an empty one) gets the id
    [task_<n>], [n] being the clock reading, and different readings give
    different ids. So two such adjustments applied at different
    milliseconds, to a checklist that has neither id, store two tasks, in
    order, at the end. *)
Theorem add_without_id_at_distinct_times {C : Type} (date_now : C -> Z * C)
    (a b : TaskInput.t) (cl : Checklist.t) (c c1 c2 : C) (n1 n2 : Z) :
  (TaskInput.id a = None \/ TaskInput.id a = Some "") ->
  (TaskInput.id b = None \/ TaskInput.id b = Some "") ->
  date_now c = (n1, c1) ->
  date_now c1 = (n2, c2) ->
  n1 <> n2 ->
  Checklist.getTask ("task_" ++ JS.show_int n1) cl = None ->
  Checklist.getTask ("task_" ++ JS.show_int n2) cl = None ->
  "task_" ++ JS.show_int n1 <> "task_" ++ JS.show_int n2 /\
  Checklist.applyAdjustments date_now [add a; add b] cl c
  = (Checklist.with_tasks
       (Checklist.tasks cl ++
        [(("task_" ++ JS.show_int n1)%string,
          Checklist.newTask ("task_" ++ JS.show_int n1)%string a);
         (("task_" ++ JS.show_int n2)%string,
          Checklist.newTask ("task_" ++ JS.show_int n2)%string b)])%list cl,
     c2).
Proof.
  intros Ha Hb Hn1 Hn2 Hne Hg1 Hg2.
  assert (Hids : "task_" ++ JS.show_int n1 <> "task_" ++ JS.show_int n2).
  { intros Heq. simpl in Heq. inversion Heq as [Hs].
    apply Hne. now apply AddFacts.show_int_inj. }
  split; [exact Hids|].
  assert (Hca : Checklist.chooseId date_now a c = ("task_" ++ JS.show_int n1, c1)).
  { unfold Checklist.chooseId. destruct Ha as [-> | ->]; now rewrite Hn1. }
  assert (Hcb : Checklist.chooseId date_now b c1 = ("task_" ++ JS.show_int n2, c2)).
  { unfold Checklist.chooseId. destruct Hb as [-> | ->]; now rewrite Hn2. }
  unfold Checklist.applyAdjustments, Checklist.applyAdjustment.
  rewrite Hca. cbn [Checklist.tasks Checklist.with_tasks Checklist.goalDefinition].
  rewrite Hcb. cbn [Checklist.tasks Checklist.with_tasks Checklist.goalDefinition].
  unfold Checklist.getTask in Hg1, Hg2.
  rewrite (StrMapMore.set_fresh _ _ _ Hg1).
  rewrite StrMapMore.set_fresh.
  - rewrite <- app_assoc. reflexivity.
  - rewrite StrMapFacts.get_app, Hg2.
    cbn [StrMap.get].
    destruct (String.eqb ("task_" ++ JS.show_int n2) ("task_" ++ JS.show_int n1))
      eqn:E; [|reflexivity].
    apply String.eqb_eq in E. congruence.
Qed.

Lemma add_without_id_at_distinct_times_witness :
  map fst
    (Checklist.tasks
       (fst (Checklist.applyAdjustments Scenario.tick
               [Fixture.bare "x"; Fixture.bare "y"]
               (Checklist.new [] Fixture.goal) 1700000000000%Z)))
  = ["task_1700000000000"; "task_1700000000001"].
Proof.
  destruct (add_without_id_at_distinct_times Scenario.tick
              (TaskInput.mk None "x" "" None None None None None None None)
              (TaskInput.mk None "y" "" None None None None None None None)
              (Checklist.new [] Fixture.goal)
              1700000000000%Z 1700000000001%Z 1700000000002%Z
              1700000000000%Z 1700000000001%Z
              (or_introl eq_refl) (or_introl eq_refl) eq_refl eq_refl
              ltac:(discriminate) eq_refl eq_refl) as [_ H].
  unfold Fixture.bare. rewrite H. reflexivity.
Defined.

(** [applyAdjustments_sound] at work: a task survives a [modify] and an
    [add]. *)
Lemma applyAdjustments_sound_witness :
  Checklist.getTask "a"
    (fst (Checklist.applyAdjustments date_now
            ([Fixture.restatus "a" pending] ++ [Fixture.bare "x"])
            Fixture.done (Fixture.env [] []))) <> None.
Proof.
  apply (proj1 (proj2 (applyAdjustments_sound date_now
                         ([Fixture.restatus "a" pending] ++ [Fixture.bare "x"])
                         Fixture.done (Fixture.env [] [])))).
  discriminate.
Defined.

(* ------------------------------------------------------------------ *)
(** ** The tool registry *)

Module RegistryFacts.
Section Facts.
Context {Env : Type}.
Import ToolRegistry.

Lemma registerTool_registered (tool : Tool.t Env) (r : list (string * Tool.t Env)) :
  registered_by_id r -> registered_by_id (registerTool tool r).
Proof.
  intros [Hnd Hid]. split.
  - now apply StrMapFacts.NoDup_keys_set.
  - intros k t. unfold getTool, registerTool. rewrite StrMapFacts.get_set.
    destruct (String.eqb k (Tool.id tool)) eqn:E.
    + apply String.eqb_eq in E. intros Heq. inversion Heq; subst. reflexivity.
    + apply Hid.
Qed.

Lemma empty_registered : registered_by_id (@nil (string * Tool.t Env)).
Proof. split; [constructor | intros k tool H; discriminate]. Qed.

End Facts.
End RegistryFacts.

(** X9. Registering a tool and looking it up: the tool is found under its
    id; the other ids are not affected; a tool registered under an id
    already in use replaces the former one without changing the number of
    tools, a new id adds one tool at the end; and a registry built by
    [registerTool] alone stores every tool under its own id.
    [getToolsByCapability] returns exactly the registered tools that
    declare the capability. *)
Theorem registry_register_lookup {Env : Type} (tool : Tool.t Env)
    (r : list (string * Tool.t Env)) :
  ToolRegistry.getTool (Tool.id tool) (ToolRegistry.registerTool tool r)
  = Some tool /\
  (forall k, k <> Tool.id tool ->
     ToolRegistry.getTool k (ToolRegistry.registerTool tool r)
     = ToolRegistry.getTool k r) /\
  (ToolRegistry.getTool (Tool.id tool) r <> None ->
   List.length (ToolRegistry.getAvailableTools (ToolRegistry.registerTool tool r))
   = List.length (ToolRegistry.getAvailableTools r)) /\
  (ToolRegistry.getTool (Tool.id tool) r = None ->
   ToolRegistry.getAvailableTools (ToolRegistry.registerTool tool r)
   = (ToolRegistry.getAvailableTools r ++ [tool])%list) /\
  (registered_by_id r -> registered_by_id (ToolRegistry.registerTool tool r)) /\
  (forall capability t,
     In t (ToolRegistry.getToolsByCapability capability r) <->
     In t (ToolRegistry.getAvailableTools r) /\
     In capability (Tool.capabilities t)).
Proof.
  unfold ToolRegistry.getTool, ToolRegistry.registerTool,
    ToolRegistry.getAvailableTools.
  split; [now rewrite StrMapFacts.get_set, String.eqb_refl|].
  split.
  { intros k Hne. rewrite StrMapFacts.get_set.
    apply String.eqb_neq in Hne. now rewrite Hne. }
  split.
  { intros Hsome. unfold StrMap.values. rewrite !length_map.
    rewrite StrMapFacts.length_set.
    destruct (StrMap.get (Tool.id tool) r); [reflexivity | congruence]. }
  split.
  { intros Hnone. unfold StrMap.values.
    rewrite (StrMapMore.set_fresh _ _ _ Hnone), map_app. reflexivity. }
  split; [apply RegistryFacts.registerTool_registered|].
  intros capability t. unfold ToolRegistry.getToolsByCapability.
  rewrite filter_In, existsb_exists. split.
  - intros [Hin [c [Hc Heq]]]. apply String.eqb_eq in Heq. subst c. auto.
  - intros [Hin Hc]. split; [exact Hin|]. exists capability.
    split; [exact Hc | apply String.eqb_refl].
Qed.

Lemma registry_register_lookup_witness :
  List.length (ToolRegistry.getAvailableTools
                 (ToolRegistry.registerTool Fixture.steady Fixture.registry))
  = 4%nat /\
  ToolRegistry.getTool "zero"
    (ToolRegistry.registerTool Fixture.steady Fixture.registry)
  = Some Fixture.zero /\
  registered_by_id Fixture.registry.
Proof.
  destruct (registry_register_lookup Fixture.steady Fixture.registry)
    as [_ [Hother [Hsame _]]].
  split; [|split].
  - rewrite Hsame; [reflexivity | discriminate].
  - rewrite Hother; [reflexivity | discriminate].
  - unfold Fixture.registry.
    apply (proj1 (proj2 (proj2 (proj2 (proj2
             (registry_register_lookup Fixture.broken _)))))).
    apply (proj1 (proj2 (proj2 (proj2 (proj2
             (registry_register_lookup Fixture.zero _)))))).
    apply (proj1 (proj2 (proj2 (proj2 (proj2
             (registry_register_lookup Fixture.silent _)))))).
    apply (proj1 (proj2 (proj2 (proj2 (proj2
             (registry_register_lookup Fixture.steady _)))))).
    apply RegistryFacts.empty_registered.
Defined.

(* ------------------------------------------------------------------ *)
(** ** More on the executor *)

Module SelectionFacts.
Section Facts.
Context {Env : Type}.
Variable r : list (string * Tool.t Env).

Lemma resolved_In ids tool :
  In tool (resolved r ids) <->
  exists i, In i ids /\ ToolRegistry.getTool i r = Some tool.
Proof.
  unfold resolved. rewrite in_flat_map. split.
  - intros [i [Hi Hin]]. exists i. split; [exact Hi|].
    destruct (ToolRegistry.getTool i r) as [t|]; [|contradiction].
    destruct Hin as [<- | []]. reflexivity.
  - intros [i [Hi Hg]]. exists i. split; [exact Hi|]. rewrite Hg. now left.
Qed.

Lemma resolved_length ids :
  (List.length (resolved r ids) <= List.length ids)%nat.
Proof.
  induction ids as [|i ids IH]; simpl; [lia|].
  rewrite length_app. destruct (ToolRegistry.getTool i r); simpl; lia.
Qed.

Lemma resolved_ids ids :
  registered_by_id r ->
  map Tool.id (resolved r ids)
  = filter (fun i => match ToolRegistry.getTool i r with
                     | Some _ => true
                     | None => false
                     end) ids.
Proof.
  intros [_ Hid]. induction ids as [|i ids IH]; simpl; [reflexivity|].
  rewrite map_app, IH.
  destruct (ToolRegistry.getTool i r) as [t|] eqn:E; simpl; [|reflexivity].
  now rewrite (Hid _ _ E).
Qed.

End Facts.
End SelectionFacts.

(** X10. [selectTools] returns the tools that the ids given by the oracle
    stand for: a tool is returned exactly when one of the ids is registered
    for it, an id that is not registered is dropped without a word, and in
    a registry built by [registerTool] the ids of the tools returned are
    the registered ids of the oracle's list, in its order and with its
    repetitions. When the oracle cannot be asked, [selectTools] throws what
    the oracle threw, and so does [executeTask], before any tool is
    prepared or run. *)
Theorem selectTools_resolution {Env : Type} {clock : Clock Env}
    {llm : LLM.LLMInterface Env}
    (toolRegistry : list (string * Tool.t Env)) (task : Task.t)
    (w : World Env) :
  (forall ids env',
     LLM.selectTools task
       (map Tool.info (ToolRegistry.getAvailableTools toolRegistry)) (outside w)
     = (Ok ids, env') ->
     Orchestrator.selectTools toolRegistry task w
     = (Ok (resolved toolRegistry ids),
        Build_World (executionHistory w)
                    (trace w ++ [EvSelectTools (Task.id task)]) env') /\
     (forall tool,
        In tool (resolved toolRegistry ids) <->
        exists i, In i ids /\ ToolRegistry.getTool i toolRegistry = Some tool) /\
     (List.length (resolved toolRegistry ids) <= List.length ids)%nat /\
     (registered_by_id toolRegistry ->
      map Tool.id (resolved toolRegistry ids)
      = filter (fun i => match ToolRegistry.getTool i toolRegistry with
                         | Some _ => true
                         | None => false
                         end) ids)) /\
  (forall e env',
     LLM.selectTools task
       (map Tool.info (ToolRegistry.getAvailableTools toolRegistry)) (outside w)
     = (Throw e, env') ->
     Orchestrator.selectTools toolRegistry task w
     = (Throw e, Build_World (executionHistory w)
                             (trace w ++ [EvSelectTools (Task.id task)]) env') /\
     forall context,
       Orchestrator.executeTask toolRegistry task context w
       = (Throw e, Build_World (executionHistory w)
                               (trace w ++ [EvSelectTools (Task.id task)]) env')).
Proof.
  split.
  - intros ids env' Hsel. split; [|split; [|split]].
    + unfold Orchestrator.selectTools, bind, call, ret. now rewrite Hsel.
    + apply SelectionFacts.resolved_In.
    + apply SelectionFacts.resolved_length.
    + apply SelectionFacts.resolved_ids.
  - intros e env' Hsel.
    assert (Hs : Orchestrator.selectTools toolRegistry task w
                 = (Throw e, Build_World (executionHistory w)
                               (trace w ++ [EvSelectTools (Task.id task)]) env')).
    { unfold Orchestrator.selectTools, bind, call. now rewrite Hsel. }
    split; [exact Hs|]. intros context.
    unfold Orchestrator.executeTask.
    now rewrite (ExecutorFacts.bind_throw _ _ _ _ _ Hs).
Qed.

Lemma selectTools_resolution_witness :
  Orchestrator.selectTools (llm := Fixture.raw) Fixture.registry
    (Fixture.task "t" [] false)
    (Fixture.world (Fixture.env [] ["zero"; "nothing"; "steady"; "zero"]))
  = (Ok [Fixture.zero; Fixture.steady; Fixture.zero],
     Build_World [] [EvSelectTools "t"]
       (Fixture.env [] ["zero"; "nothing"; "steady"; "zero"])) /\
  fst (Orchestrator.executeTask (llm := Fixture.raw) Fixture.registry
         (Fixture.task "q" [] false) Fixture.context
         (Fixture.world Fixture.trio_env))
  = Throw (JS.ErrorObj "LLM request failed").
Proof.
  split.
  - apply (proj1 (selectTools_resolution (llm := Fixture.raw) Fixture.registry
                    (Fixture.task "t" [] false)
                    (Fixture.world
                       (Fixture.env [] ["zero"; "nothing"; "steady"; "zero"])))
                 ["zero"; "nothing"; "steady"; "zero"]
                 (Fixture.env [] ["zero"; "nothing"; "steady"; "zero"])
                 eq_refl).
  - destruct (proj2 (selectTools_resolution (llm := Fixture.raw) Fixture.registry
                       (Fixture.task "q" [] false)
                       (Fixture.world Fixture.trio_env))
                    (JS.ErrorObj "LLM request failed") Fixture.trio_env eq_refl)
      as [_ H].
    now rewrite (H Fixture.context).
Defined.

Module HistoryFacts.
Section Facts.
Context {Env : Type} {clock : Clock Env} {llm : LLM.LLMInterface Env}.
Import Orchestrator.

(** What [callTool] does to the execution history, by the outcome of the
    input generation and of the tool. *)
Lemma callTool_history tool task context previousResults (w w' : World Env) r :
  callTool tool task context previousResults w = (Ok r, w') ->
  match LLM.generateToolInput (Tool.name tool) (Tool.inputSchema tool) task
          context previousResults (outside w) with
  | (Throw _, _) => executionHistory w' = executionHistory w
  | (Ok toolInput, env1) =>
      match Tool.execute tool toolInput (snd (date_now env1)) with
      | (Throw _, _) => executionHistory w' = executionHistory w
      | (Ok out, env3) =>
          executionHistory w'
          = (executionHistory w ++
             [Build_HistoryEntry (Tool.name tool) (Task.id task) toolInput out
                (fst (date_now env3) - fst (date_now env1))%Z
                (fst (date_now (snd (date_now env3))))])%list /\
          (ToolResult.success r = true <->
           out <> OutNull /\ out <> OutUndefined) /\
          (ToolResult.success r = true ->
           ToolResult.output r = out /\
           ToolResult.duration r
           = (fst (date_now env3) - fst (date_now env1))%Z)
      end
  end.
Proof.
  unfold callTool, try_catch, bind, prepareToolInput, call, now, ret,
    push_history, reportedConfidence, throw.
  destruct (LLM.generateToolInput (Tool.name tool) (Tool.inputSchema tool)
              task context previousResults (outside w)) as [[toolInput|e] env1];
    simpl.
  - destruct (date_now env1) as [startTime env2]. simpl.
    destruct (Tool.execute tool toolInput env2) as [[out|e] env3]; simpl.
    + destruct (date_now env3) as [endTime env4]. simpl.
      destruct (date_now env4) as [timestamp env5]. simpl.
      destruct out as [| |c payload]; intros Heq; inversion Heq; subst; simpl.
      * split; [reflexivity|]. split; [|discriminate].
        split; [discriminate | intros [H _]; now elim H].
      * split; [reflexivity|]. split; [|discriminate].
        split; [discriminate | intros [_ H]; now elim H].
      * split; [reflexivity|]. split; [|auto].
        split; [split; discriminate | reflexivity].
    + intros Heq; inversion Heq; subst; reflexivity.
  - intros Heq; inversion Heq; subst; reflexivity.
Qed.

End Facts.
End HistoryFacts.

(** X11. The execution history gets an entry exactly when the tool itself
    returned: one entry, at the end, with the tool's name, the task's id,
    the input, the output and the measured duration. Nothing is logged when
    the oracle gave no input or when the tool threw; a tool that resolves
    to [null] or to [undefined] is logged, and the call is reported as a
    failure all the same. *)
Theorem history_logs_completed_calls {Env : Type} {clock : Clock Env}
    {llm : LLM.LLMInterface Env}
    (tool : Tool.t Env) (task : Task.t) (context : Json)
    (previousResults : list ToolResult.t) (w w' : World Env)
    (r : ToolResult.t) :
  Orchestrator.callTool tool task context previousResults w = (Ok r, w') ->
  match LLM.generateToolInput (Tool.name tool) (Tool.inputSchema tool) task
          context previousResults (outside w) with
  | (Throw _, _) => executionHistory w' = executionHistory w
  | (Ok toolInput, env1) =>
      match Tool.execute tool toolInput (snd (date_now env1)) with
      | (Throw _, _) => executionHistory w' = executionHistory w
      | (Ok out, env3) =>
          executionHistory w'
          = (executionHistory w ++
             [Build_HistoryEntry (Tool.name tool) (Task.id task) toolInput out
                (fst (date_now env3) - fst (date_now env1))%Z
                (fst (date_now (snd (date_now env3))))])%list /\
          (ToolResult.success r = true <->
           out <> OutNull /\ out <> OutUndefined) /\
          (ToolResult.success r = true ->
           ToolResult.output r = out /\
           ToolResult.duration r
           = (fst (date_now env3) - fst (date_now env1))%Z)
      end
  end.
Proof. apply HistoryFacts.callTool_history. Qed.

Lemma history_logs_completed_calls_witness :
  executionHistory
    (snd (Orchestrator.callTool (llm := Fixture.raw) Fixture.broken
            (Fixture.task "t" [] false) Fixture.context []
            (Fixture.world (Fixture.env [] [])))) = [] /\
  exists r w',
    Orchestrator.callTool (llm := Fixture.raw) Fixture.steady
      (Fixture.task "t" [] false) Fixture.context []
      (Fixture.world (Fixture.env [] [])) = (Ok r, w') /\
    List.length (executionHistory w') = 1%nat.
Proof.
  split.
  - exact (history_logs_completed_calls (clock := Fixture.clock)
             (llm := Fixture.raw) Fixture.broken
             (Fixture.task "t" [] false) Fixture.context []
             (Fixture.world (Fixture.env [] [])) _ _ eq_refl).
  - eexists. eexists. split; [vm_compute; reflexivity|].
    destruct (history_logs_completed_calls (clock := Fixture.clock)
                (llm := Fixture.raw) Fixture.steady
                (Fixture.task "t" [] false) Fixture.context []
                (Fixture.world (Fixture.env [] [])) _ _
                ltac:(vm_compute; reflexivity)) as [H _].
    rewrite H. reflexivity.
Defined.

(** X12. In single mode with a tool selected, only the first tool counts
    and the confidence of the task is never 0: it is 1 whenever the call
    failed, the failed call itself being kept in the results with
    confidence 0. *)
Theorem single_mode_confidence_never_zero {Env : Type} {clock : Clock Env}
    {llm : LLM.LLMInterface Env}
    (task : Task.t) (tool : Tool.t Env) (rest : list (Tool.t Env))
    (context : Json) (w w' : World Env) (tr : TaskResult.t) :
  Orchestrator.executeSingleTask task (tool :: rest) context w = (Ok tr, w') ->
  Orchestrator.executeSingleTask task [tool] context w = (Ok tr, w') /\
  (exists q, TaskResult.confidence tr = JS.Fin q /\ ~ (q == 0)%Q) /\
  (TaskResult.success tr = false ->
   TaskResult.confidence tr = 1%Q /\
   exists e,
     TaskResult.results tr
     = [ToolResult.mk false (Tool.name tool) OutNull 0 0
                      (Some (JS.message_of e))]).
Proof.
  intros Hrun. split; [exact Hrun|].
  simpl in Hrun.
  destruct (ExecutorFacts.callTool_total tool task context [] w) as [r [w1 E]].
  rewrite (ExecutorFacts.bind_ok _ _ _ _ _ E) in Hrun.
  unfold ret in Hrun. inversion Hrun; subst. simpl. split.
  - eexists. split; [reflexivity|].
    apply (AddFacts.num_or_nonzero (Some (ToolResult.confidence r)) 1).
    discriminate.
  - intros Hs.
    destruct (ExecutorFacts.callTool_failure_shape _ _ _ _ _ _ _ E Hs) as [e Hr].
    subst r. simpl. split; [reflexivity | eauto].
Qed.

Lemma single_mode_confidence_never_zero_witness :
  exists tr w',
    Orchestrator.executeSingleTask (llm := Fixture.raw)
      (Fixture.task "t" [] false) [Fixture.broken; Fixture.steady]
      Fixture.context (Fixture.world (Fixture.env [] [])) = (Ok tr, w') /\
    TaskResult.confidence tr = 1%Q.
Proof.
  eexists. eexists. split; [vm_compute; reflexivity|].
  apply (proj2 (proj2 (single_mode_confidence_never_zero
                         (clock := Fixture.clock) (llm := Fixture.raw)
                         (Fixture.task "t" [] false) Fixture.broken
                         [Fixture.steady] Fixture.context
                         (Fixture.world (Fixture.env [] [])) _ _
                         ltac:(vm_compute; reflexivity)))).
  reflexivity.
Defined.

Module IterativeFacts.
Section Facts.
Context {Env : Type} {clock : Clock Env} {llm : LLM.LLMInterface Env}.
Import Orchestrator.

Lemma lt_below_budget (maxTaskIterations : Q) (iterations : nat) :
  (iterations < iterativeBudget maxTaskIterations)%nat ->
  JS.lt (inject_Z (Z.of_nat iterations)) maxTaskIterations = true.
Proof.
  unfold iterativeBudget. rewrite NumFacts.lt_Fin. intros Hlt.
  destruct (Qle_bool maxTaskIterations (inject_Z (Z.of_nat iterations))) eqn:E;
    [|reflexivity].
  apply Qle_bool_iff in E. exfalso.
  pose proof (Qceiling_lt maxTaskIterations) as Hc.
  assert (Hz : (Z.of_nat iterations <= Qceiling maxTaskIterations - 1)%Z) by lia.
  rewrite Zle_Qle in Hz.
  exact (Qlt_irrefl _ (Qlt_le_trans _ _ _ Hc (Qle_trans _ _ _ E Hz))).
Qed.

(** Without tools the [while] loop only counts, up to the budget. *)
Lemma whileLoop_no_tools fuel task context maxTaskIterations results
    iterations (w : World Env) :
  JS.ge 0 (Task.successThreshold task) = false ->
  (iterations + fuel = iterativeBudget maxTaskIterations)%nat ->
  whileLoop fuel task [] context maxTaskIterations results 0 iterations w
  = (Ok (results, JS.Fin 0, iterativeBudget maxTaskIterations), w).
Proof.
  intros Hthr. revert iterations.
  induction fuel as [|fuel IH]; intros iterations Hsum; simpl.
  - unfold ret. repeat f_equal. lia.
  - assert (Hlt : JS.lt 0 (Task.successThreshold task) = true).
    { rewrite NumFacts.ge_Fin in Hthr. rewrite NumFacts.lt_Fin.
      now rewrite Hthr. }
    rewrite Hlt, lt_below_budget by lia. simpl.
    unfold bind, ret. apply IH. lia.
Qed.

Lemma callTool_tool tool task context previousResults (w w' : World Env) r :
  callTool tool task context previousResults w = (Ok r, w') ->
  ToolResult.tool r = Tool.name tool.
Proof.
  intros E. destruct (ToolResult.success r) eqn:Hs.
  - destruct (ExecutorFacts.callTool_cases _ _ _ _ _ _ _ E)
      as [[_ [Hf _]] | [_ [Hf | [c [payload [d Hr]]]]]]; try congruence.
    now subst r.
  - destruct (ExecutorFacts.callTool_failure_shape _ _ _ _ _ _ _ E Hs) as [e Hr].
    now subst r.
Qed.

(** One pass over the tools: at most one result per tool, each under the
    name of a tool of the list, and a confidence that is the one it
    started with or one the oracle returned. *)
Lemma toolLoop_results (P : JS.num -> Prop) task context tools results confidence
    (w w' : World Env) results' confidence' :
  (forall t rs env c env', LLM.evaluate t rs env = (Ok c, env') -> P c) ->
  toolLoop task context tools results confidence w
  = (Ok (results', confidence'), w') ->
  exists new,
    results' = (results ++ new)%list /\
    (List.length new <= List.length tools)%nat /\
    Forall (fun r => In (ToolResult.tool r) (map Tool.name tools)) new /\
    (P confidence -> P confidence').
Proof.
  intros HP. revert results confidence w.
  induction tools as [|tool rest IH]; intros results confidence w; simpl.
  - unfold ret. intros Heq. inversion Heq; subst. exists [].
    rewrite app_nil_r. repeat split; auto.
  - destruct (ExecutorFacts.callTool_total tool task context results w)
      as [r [w1 E]].
    rewrite (ExecutorFacts.bind_ok _ _ _ _ _ E).
    pose proof (callTool_tool _ _ _ _ _ _ _ E) as Hname.
    unfold bind at 1, evaluateProgress, call.
    destruct (LLM.evaluate task (results ++ [r]) (outside w1))
      as [[c|e'] env'] eqn:Hev; [|discriminate].
    pose proof (HP _ _ _ _ _ Hev) as Hc.
    destruct (JS.ge c (Task.successThreshold task)).
    + unfold ret. intros Heq. inversion Heq; subst. exists [r].
      split; [reflexivity|]. split; [simpl; lia|]. split; [|auto].
      constructor; [now left | constructor].
    + intros Hrest. apply IH in Hrest.
      destruct Hrest as [new [Hres [Hlen [Hnames HPc]]]].
      exists (r :: new). rewrite Hres, <- app_assoc. simpl.
      split; [reflexivity|]. split; [lia|]. split; [|auto].
      constructor; [now left|].
      eapply Forall_impl; [|exact Hnames]. intros a Ha. now right.
Qed.

Lemma whileLoop_results (P : JS.num -> Prop) fuel task tools context
    maxTaskIterations results confidence iterations (w w' : World Env)
    results' confidence' iterations' :
  (forall t rs env c env', LLM.evaluate t rs env = (Ok c, env') -> P c) ->
  whileLoop fuel task tools context maxTaskIterations
            results confidence iterations w
  = (Ok (results', confidence', iterations'), w') ->
  exists new,
    results' = (results ++ new)%list /\
    (iterations <= iterations')%nat /\
    (List.length new <= (iterations' - iterations) * List.length tools)%nat /\
    Forall (fun r => In (ToolResult.tool r) (map Tool.name tools)) new /\
    (P confidence -> P confidence').
Proof.
  intros HP. revert results confidence iterations w.
  induction fuel as [|fuel IH]; intros results confidence iterations w; simpl.
  - unfold ret. intros Heq. inversion Heq; subst. exists [].
    rewrite app_nil_r. repeat split; auto. simpl. lia.
  - destruct (JS.lt confidence (Task.successThreshold task)
              && JS.lt (inject_Z (Z.of_nat iterations)) maxTaskIterations).
    + unfold bind at 1.
      destruct (toolLoop task context tools results confidence w)
        as [[[results1 confidence1]|e'] w1] eqn:E; [|discriminate].
      destruct (toolLoop_results P _ _ _ _ _ _ _ _ _ HP E)
        as [new1 [Hres1 [Hlen1 [Hn1 HP1]]]].
      intros Hrest. apply IH in Hrest.
      destruct Hrest as [new2 [Hres2 [Hit [Hlen2 [Hn2 HP2]]]]].
      exists (new1 ++ new2)%list. rewrite Hres2, Hres1, app_assoc.
      split; [reflexivity|]. split; [lia|]. split.
      * rewrite length_app. nia.
      * split; [apply Forall_app; auto | auto].
    + unfold ret. intros Heq. inversion Heq; subst. exists [].
      rewrite app_nil_r. repeat split; auto. simpl. lia.
Qed.

End Facts.
End IterativeFacts.

(** X13. Two ways in which the iterative mode runs no tool at all. A
    task whose success threshold is 0 or less succeeds at once, with
    confidence 0 and 0 iterations, whatever tools were selected. A task
    with a positive threshold and no tool selected goes through its whole
    iteration budget without calling anything and fails with confidence 0,
    the number of iterations being the budget. In both cases the world is
    left as it was. *)
Theorem iterative_mode_without_work {Env : Type} {clock : Clock Env}
    {llm : LLM.LLMInterface Env}
    (task : Task.t) (context : Json) (w : World Env) :
  (JS.ge 0 (Task.successThreshold task) = true ->
   forall tools,
     Orchestrator.executeIterativeTask task tools context w
     = (Ok (TaskResult.mk true 0 0 [] None None), w)) /\
  (JS.ge 0 (Task.successThreshold task) = false ->
   Orchestrator.executeIterativeTask task [] context w
   = (Ok (TaskResult.mk false 0
            (Orchestrator.iterativeBudget
               (JS.num_or (Task.maxIterations task) 10))
            [] None None), w)).
Proof.
  split.
  - intros Hge tools. unfold Orchestrator.executeIterativeTask.
    rewrite (ExecutorFacts.bind_ok _ _ _ _ _
               (ExecutorFacts.whileLoop_met _ _ _ _ _ _ _ _ _ Hge)).
    unfold ret. now rewrite Hge.
  - intros Hge. unfold Orchestrator.executeIterativeTask.
    rewrite (ExecutorFacts.bind_ok _ _ _ _ _
               (IterativeFacts.whileLoop_no_tools
                  (Orchestrator.iterativeBudget
                     (JS.num_or (Task.maxIterations task) 10))
                  task context (JS.num_or (Task.maxIterations task) 10)
                  [] 0%nat w Hge eq_refl)).
    unfold ret. now rewrite Hge.
Qed.

Lemma iterative_mode_without_work_witness :
  Orchestrator.executeIterativeTask (llm := Fixture.raw)
    (Fixture.task "t" [] true) [] Fixture.context
    (Fixture.world (Fixture.env [0.9%Q] []))
  = (Ok (TaskResult.mk false 0 10 [] None None),
     Fixture.world (Fixture.env [0.9%Q] [])) /\
  Orchestrator.executeIterativeTask (llm := Fixture.raw)
    (Task.mk "t" "t" "" 5 None 0 5 true None [] pending None None)
    [Fixture.steady] Fixture.context
    (Fixture.world (Fixture.env [0.9%Q] []))
  = (Ok (TaskResult.mk true 0 0 [] None None),
     Fixture.world (Fixture.env [0.9%Q] [])).
Proof.
  split.
  - exact (proj2 (iterative_mode_without_work (clock := Fixture.clock)
                    (llm := Fixture.raw) (Fixture.task "t" [] true)
                    Fixture.context (Fixture.world (Fixture.env [0.9%Q] [])))
                 eq_refl).
  - exact (proj1 (iterative_mode_without_work (clock := Fixture.clock)
                    (llm := Fixture.raw)
                    (Task.mk "t" "t" "" 5 None 0 5 true None [] pending None None)
                    Fixture.context (Fixture.world (Fixture.env [0.9%Q] [])))
                 eq_refl [Fixture.steady]).
Defined.

(** X14. Whenever the iterative mode returns: it made at most one tool
    call per tool and per iteration, so the result list is no longer than
    [iterations * number of tools]; every result bears the name of one of
    the selected tools; and the confidence is either the initial 0 or a
    value the oracle returned, so that any property of 0 that all the
    oracle's evaluations have (such as lying within [0,1] or being [NaN],
    which [AnthropicLLM.evaluate] ensures) is a property of the task's
    confidence. *)
Theorem iterative_mode_bounds {Env : Type} {clock : Clock Env}
    {llm : LLM.LLMInterface Env}
    (task : Task.t) (tools : list (Tool.t Env)) (context : Json)
    (w w' : World Env) (tr : TaskResult.t) :
  Orchestrator.executeIterativeTask task tools context w = (Ok tr, w') ->
  (List.length (TaskResult.results tr)
   <= TaskResult.iterations tr * List.length tools)%nat /\
  Forall (fun r => In (ToolResult.tool r) (map Tool.name tools))
         (TaskResult.results tr) /\
  (forall P : JS.num -> Prop,
     P (JS.Fin 0) ->
     (forall t rs env c env', LLM.evaluate t rs env = (Ok c, env') -> P c) ->
     P (TaskResult.confidence tr)).
Proof.
  unfold Orchestrator.executeIterativeTask, bind.
  match goal with |- context [Orchestrator.whileLoop ?f ?t ?ts ?c ?m ?r ?cf ?i w] =>
    destruct (Orchestrator.whileLoop f t ts c m r cf i w)
      as [[[[rs cf'] it]|e'] w1] eqn:E end; [|discriminate].
  unfold ret. intros Heq. inversion Heq; subst. simpl.
  destruct (IterativeFacts.whileLoop_results (fun _ => True)
              _ _ _ _ _ _ _ _ _ _ _ _ _ (fun _ _ _ _ _ _ => I) E)
    as [new [Hres [_ [Hlen [Hnames _]]]]].
  simpl in Hres. subst rs. rewrite Nat.sub_0_r in Hlen.
  split; [exact Hlen|]. split; [exact Hnames|].
  intros P P0 HP.
  destruct (IterativeFacts.whileLoop_results P
              _ _ _ _ _ _ _ _ _ _ _ _ _ HP E) as [_ [_ [_ [_ [_ Hconf]]]]].
  exact (Hconf P0).
Qed.

Lemma iterative_mode_bounds_witness :
  exists tr w',
    Orchestrator.executeIterativeTask (llm := Fixture.anthropic)
      (Fixture.task "t" [] true) [Fixture.steady; Fixture.broken]
      Fixture.context
      (Fixture.world (Fixture.env [0.3; -2; 7]%Q [])) = (Ok tr, w') /\
    in_unit_interval (TaskResult.confidence tr) /\
    (List.length (TaskResult.results tr) <= TaskResult.iterations tr * 2)%nat.
Proof.
  eexists. eexists. split; [vm_compute; reflexivity|].
  destruct (iterative_mode_bounds (clock := Fixture.clock)
              (llm := Fixture.anthropic)
              (Fixture.task "t" [] true) [Fixture.steady; Fixture.broken]
              Fixture.context
              (Fixture.world (Fixture.env [0.3; -2; 7]%Q [])) _ _
              ltac:(vm_compute; reflexivity)) as [Hlen [_ Hconf]].
  split; [|exact Hlen].
  apply (Hconf in_unit_interval).
  - split; discriminate.
  - intros t rs env c env' Hev. simpl in Hev.
    unfold AnthropicLLM.evaluate, Fixture.next_reply in Hev.
    destruct (Fixture.confidences env) as [|n rest]; [discriminate|].
    inversion Hev; subst. apply ClampFacts.clamp_number.
Defined.

(* ------------------------------------------------------------------ *)
(** ** The run as a whole *)

Module GrowthFacts.
Section Facts.
Context {Env : Type} {clock : Clock Env} {llm : LLM.LLMInterface Env}.
Import Orchestrator.

Lemma grows_ret {A} (a : A) : grows (@ret Env A a).
Proof.
  intros w r w' H. unfold ret in H. inversion H; subst.
  exists [], []. now rewrite !app_nil_r.
Qed.

Lemma grows_bind {A B} (m : M Env A) (k : A -> M Env B) :
  grows m -> (forall a, grows (k a)) -> grows (bind m k).
Proof.
  intros Hm Hk w r w' H. unfold bind in H.
  destruct (m w) as [[a|e] w1] eqn:E.
  - destruct (Hm _ _ _ E) as [h1 [t1 [Hh1 Ht1]]].
    destruct (Hk a _ _ _ H) as [h2 [t2 [Hh2 Ht2]]].
    exists (h1 ++ h2)%list, (t1 ++ t2)%list.
    rewrite Hh2, Hh1, Ht2, Ht1, !app_assoc. auto.
  - inversion H; subst. exact (Hm _ _ _ E).
Qed.

Lemma grows_try_catch {A} (m : M Env A) (h : JS.exn -> M Env A) :
  grows m -> (forall e, grows (h e)) -> grows (try_catch m h).
Proof.
  intros Hm Hh w r w' H. unfold try_catch in H.
  destruct (m w) as [[a|e] w1] eqn:E.
  - inversion H; subst. exact (Hm _ _ _ E).
  - destruct (Hm _ _ _ E) as [h1 [t1 [Hh1 Ht1]]].
    destruct (Hh e _ _ _ H) as [h2 [t2 [Hh2 Ht2]]].
    exists (h1 ++ h2)%list, (t1 ++ t2)%list.
    rewrite Hh2, Hh1, Ht2, Ht1, !app_assoc. auto.
Qed.

Lemma grows_call {A} (ev : Res A -> Event) (f : Env -> Res A * Env) :
  grows (call ev f).
Proof.
  intros w r w' H. unfold call in H. destruct (f (outside w)) as [r0 env'].
  inversion H; subst. simpl. exists [], [ev r]. now rewrite app_nil_r.
Qed.

(** A call that changes the outside only. *)
Lemma grows_outside {A} (f : Env -> Res A * Env) :
  grows (fun w => let (r, env') := f (outside w) in
                  (r, Build_World (executionHistory w) (trace w) env')).
Proof.
  intros w r w' H. destruct (f (outside w)) as [r0 env'].
  inversion H; subst. simpl. exists [], []. now rewrite !app_nil_r.
Qed.

Lemma grows_now : grows (@now Env clock).
Proof.
  intros w r w' H. unfold now in H. destruct (date_now (outside w)) as [n env'].
  inversion H; subst. simpl. exists [], []. now rewrite !app_nil_r.
Qed.

Lemma grows_push h : grows (@push_history Env h).
Proof.
  intros w r w' H. unfold push_history in H. inversion H; subst. simpl.
  exists [h], []. now rewrite app_nil_r.
Qed.

Lemma grows_callTool tool task context previousResults :
  grows (callTool tool task context previousResults).
Proof.
  unfold callTool. apply grows_try_catch; [|intros e; apply grows_ret].
  unfold prepareToolInput.
  apply grows_bind; [apply grows_call|]. intros toolInput.
  apply grows_bind; [apply grows_now|]. intros startTime.
  apply grows_bind; [apply grows_call|]. intros result.
  apply grows_bind; [apply grows_now|]. intros endTime.
  apply grows_bind; [apply grows_now|]. intros timestamp.
  apply grows_bind; [apply grows_push|]. intros _.
  apply grows_bind; [|intros c; apply grows_ret].
  unfold reportedConfidence. destruct result; [| |apply grows_ret].
  all: intros w r w' H; unfold throw in H; inversion H; subst.
  all: exists [], []; now rewrite !app_nil_r.
Qed.

Lemma grows_toolLoop task context tools results confidence :
  grows (toolLoop task context tools results confidence).
Proof.
  revert results confidence.
  induction tools as [|tool rest IH]; intros results confidence; simpl.
  - apply grows_ret.
  - apply grows_bind; [apply grows_callTool|]. intros r.
    apply grows_bind; [apply grows_call|]. intros c.
    destruct (JS.ge c (Task.successThreshold task)); [apply grows_ret | apply IH].
Qed.

Lemma grows_whileLoop fuel task tools context maxTaskIterations results
    confidence iterations :
  grows (whileLoop fuel task tools context maxTaskIterations
                   results confidence iterations).
Proof.
  revert results confidence iterations.
  induction fuel as [|fuel IH]; intros results confidence iterations; simpl.
  - apply grows_ret.
  - destruct (JS.lt confidence (Task.successThreshold task)
              && JS.lt (inject_Z (Z.of_nat iterations)) maxTaskIterations);
      [|apply grows_ret].
    apply grows_bind; [apply grows_toolLoop|]. intros [results1 confidence1].
    apply IH.
Qed.

Variable toolRegistry : list (string * Tool.t Env).

Lemma grows_executeTask task context :
  grows (executeTask toolRegistry task context).
Proof.
  unfold executeTask, selectTools.
  apply grows_bind.
  - apply grows_bind; [apply grows_call | intros ids; apply grows_ret].
  - intros tools. destruct (Task.requiresIterativeExecution task).
    + unfold executeIterativeTask.
      apply grows_bind; [apply grows_whileLoop|].
      intros [[rs cf] it]. apply grows_ret.
    + unfold executeSingleTask. destruct tools as [|tool rest];
        [apply grows_ret|].
      apply grows_bind; [apply grows_callTool | intros r; apply grows_ret].
Qed.

Lemma grows_runBatch batch context cl :
  grows (runBatch toolRegistry batch context cl).
Proof.
  revert cl. induction batch as [|task rest IH]; intros cl; simpl.
  - apply grows_ret.
  - apply grows_bind.
    + unfold executeTaskWithProgress.
      apply grows_bind; [|intros r; apply grows_ret].
      apply grows_try_catch; [apply grows_executeTask | intros e; apply grows_ret].
    + intros [r cl1]. apply grows_bind; [apply IH|].
      intros [rs cl2]. apply grows_ret.
Qed.

Lemma grows_updateTaskStatus k r cl : grows (updateTaskStatus k r cl).
Proof.
  intros w res w' H.
  destruct (SchedulerFacts.updateTaskStatus_ok k r cl w) as [n [w1 [E [Ht Hh]]]].
  rewrite E in H. inversion H; subst. exists [], [].
  rewrite !app_nil_r. auto.
Qed.

Lemma grows_recordResults ts rs cl ledger :
  grows (recordResults ts rs cl ledger).
Proof.
  revert rs cl ledger. induction ts as [|task ts IH]; intros rs cl ledger.
  - destruct rs; apply grows_ret.
  - destruct rs as [|r rs]; [apply grows_ret|]. simpl.
    apply grows_bind; [apply grows_updateTaskStatus|]. intros n1.
    apply grows_bind; [apply grows_now|]. intros n2. apply IH.
Qed.

Lemma grows_reflectAndAdapt cl er : grows (reflectAndAdapt cl er).
Proof.
  unfold reflectAndAdapt. destruct (tooManyFailures _); [|apply grows_ret].
  apply grows_bind; [apply grows_call|]. intros adjustments.
  intros w r w' H.
  pose proof (ReflectionFacts.applyAdjustments_world
                (JS.arr_or adjustments []) cl w) as [Ht Hh].
  destruct (Checklist.applyAdjustments world_now (JS.arr_or adjustments []) cl w)
    as [cl' w1].
  inversion H; subst. simpl in *. exists [], [].
  now rewrite !app_nil_r.
Qed.

Lemma grows_iteration goalDefinition context cl er :
  grows (iteration toolRegistry goalDefinition context cl er).
Proof.
  unfold iteration, isGoalAchieved.
  apply grows_bind; [apply grows_call|]. intros achieved.
  destruct achieved; [apply grows_ret|].
  destruct (Checklist.availableEntries cl) as [|a l]; [apply grows_ret|].
  apply grows_bind.
  - unfold dispatch. apply grows_bind; [apply grows_runBatch|].
    intros [rs cl1]. apply grows_bind; [apply grows_recordResults|].
    intros [cl2 ledger]. apply grows_ret.
  - intros [cl1 er1]. apply grows_bind; [apply grows_reflectAndAdapt|].
    intros cl2. apply grows_ret.
Qed.

Lemma grows_mainLoop maxIterations fuel goalDefinition context cl er :
  grows (mainLoop maxIterations toolRegistry fuel goalDefinition context cl er).
Proof.
  revert cl er. induction fuel as [|fuel IH]; intros cl er; simpl.
  - apply grows_ret.
  - destruct (Z.of_nat (ExecutionResult.iterations er) <? maxIterations)%Z;
      [|apply grows_ret].
    apply grows_bind; [apply grows_iteration|].
    intros [[stop cl1] er1]. destruct stop; [apply grows_ret | apply IH].
Qed.

Lemma grows_achieveGoal maxIterations goal context :
  grows (achieveGoal maxIterations toolRegistry goal context).
Proof.
  unfold achieveGoal, defineGoal, createChecklist.
  apply grows_bind.
  { apply grows_bind; [apply grows_outside | intros d; apply grows_ret]. }
  intros goalDefinition. apply grows_bind.
  { apply grows_bind; [apply grows_outside | intros d; apply grows_ret]. }
  intros cl. apply grows_bind; [apply grows_now|]. intros startTime.
  apply grows_bind; [apply grows_mainLoop|]. intros [cl1 er1].
  apply grows_bind; [apply grows_now | intros endTime; apply grows_ret].
Qed.

End Facts.
End GrowthFacts.

(** X15. A run only ever adds to the execution history and to the trace
    of the calls it makes: whatever happens in [achieveGoal], including an
    exception that ends it, what was logged before is still there, in the
    same place, afterwards. The same holds of the execution of a single
    task. *)
Theorem run_only_appends {Env : Type} {clock : Clock Env}
    {llm : LLM.LLMInterface Env}
    (maxIterations : Z) (toolRegistry : list (string * Tool.t Env))
    (goal : string) (context : Json) :
  grows (Orchestrator.achieveGoal maxIterations toolRegistry goal context) /\
  (forall task, grows (Orchestrator.executeTask toolRegistry task context)).
Proof.
  split.
  - apply GrowthFacts.grows_achieveGoal.
  - intros task. apply GrowthFacts.grows_executeTask.
Qed.

Lemma run_only_appends_witness :
  exists h t,
    executionHistory
      (snd (Orchestrator.executeTask (llm := Fixture.raw) Fixture.registry
              (Fixture.task "t" [] false) Fixture.context
              (Build_World [] [EvAssess] (Fixture.env [] ["steady"]))))
    = ([] ++ h)%list /\
    trace
      (snd (Orchestrator.executeTask (llm := Fixture.raw) Fixture.registry
              (Fixture.task "t" [] false) Fixture.context
              (Build_World [] [EvAssess] (Fixture.env [] ["steady"]))))
    = ([EvAssess] ++ t)%list.
Proof.
  exact (proj2 (run_only_appends (clock := Fixture.clock) (llm := Fixture.raw)
                  1 Fixture.registry "goal" Fixture.context)
               (Fixture.task "t" [] false)
               (Build_World [] [EvAssess] (Fixture.env [] ["steady"]))
               _ _ (surjective_pairing _)).
Defined.

Module RunFacts.
Section Facts.
Context {Env : Type} {clock : Clock Env} {llm : LLM.LLMInterface Env}.
Variable toolRegistry : list (string * Tool.t Env).
Import Orchestrator.




End Facts.
End RunFacts.



(** X17. A plan in which every task declares a dependency never starts.
    When the decomposition of the goal gives such a checklist (two tasks
    that wait for each other, or no task at all) and the goal check
    answers no, the run ends in its first turn: status [no_viable_tasks],
    no iteration counted, nothing in the ledger. *)
Theorem plan_without_free_task {Env : Type} {clock : Clock Env}
    {llm : LLM.LLMInterface Env}
    (maxIterations : Z) (toolRegistry : list (string * Tool.t Env))
    (goal : string) (context : Json) (w w1 w2 w3 : World Env)
    (g : GoalDefinition) (cl : Checklist.t) :
  (0 < maxIterations)%Z ->
  Orchestrator.defineGoal goal context w = (Ok g, w1) ->
  Orchestrator.createChecklist g w1 = (Ok cl, w2) ->
  (forall task, In task (Checklist.getAllTasks cl) -> deps_of task <> []) ->
  Orchestrator.isGoalAchieved g cl (snd (now w2)) = (Ok false, w3) ->
  exists er,
    Orchestrator.achieveGoal maxIterations toolRegistry goal context w
    = (Ok er, snd (now w3)) /\
    ExecutionResult.status er = run_no_viable_tasks /\
    ExecutionResult.iterations er = 0%nat /\
    ExecutionResult.tasksCompleted er = [].
Proof.
  intros Hmax Hdef Hcreate Hdeps Hassess.
  assert (Hav : Checklist.availableEntries cl = []).
  { apply (map_eq_nil snd). rewrite <- ChecklistFacts.availableEntries_tasks.
    unfold Orchestrator.createChecklist, bind in Hcreate.
    destruct (LLM.decompose g (outside w1)) as [[ts|e] env']; [|discriminate].
    unfold ret in Hcreate. inversion Hcreate; subst cl. clear Hcreate.
    unfold Checklist.getAvailableTasks.
    apply ConstructorFacts.filter_none. intros task Hin.
    rewrite (ConstructorFacts.new_available _ _ _ Hin).
    specialize (Hdeps _ Hin). destruct (deps_of task); congruence. }
  unfold Orchestrator.achieveGoal.
  rewrite (ExecutorFacts.bind_ok _ _ _ _ _ Hdef).
  rewrite (ExecutorFacts.bind_ok _ _ _ _ _ Hcreate).
  unfold bind at 1. unfold now at 1. unfold now in Hassess.
  destruct (date_now (outside w2)) as [startTime env3]. simpl in Hassess.
  cbv beta iota.
  destruct (Z.to_nat maxIterations) as [|fuel] eqn:Hfuel; [lia|].
  assert (Hc : (0 <? maxIterations)%Z = true) by (apply Z.ltb_lt; lia).
  simpl Orchestrator.mainLoop. cbn [ExecutionResult.iterations].
  change (Z.of_nat 0) with 0%Z. rewrite Hc.
  unfold Orchestrator.iteration, bind. cbv beta. rewrite Hassess, Hav.
  unfold ret, now. destruct (date_now (outside w3)) as [endTime env4].
  simpl. eexists. split; [reflexivity|]. simpl. auto.
Qed.

Lemma plan_without_free_task_witness :
  exists er w',
    Orchestrator.achieveGoal
      (llm := Fixture.planning
                [Fixture.task "c" ["d"] false; Fixture.task "d" ["c"] false] "c")
      5 Fixture.registry "goal" Fixture.context
      (Fixture.world (Fixture.env [] []))
    = (Ok er, w') /\
    ExecutionResult.status er = run_no_viable_tasks /\
    ExecutionResult.iterations er = 0%nat /\
    ExecutionResult.tasksCompleted er = [].
Proof.
  destruct (plan_without_free_task (clock := Fixture.clock)
              (llm := Fixture.planning
                        [Fixture.task "c" ["d"] false;
                         Fixture.task "d" ["c"] false] "c")
              5 Fixture.registry "goal" Fixture.context
              (Fixture.world (Fixture.env [] [])) _ _ _ _ _
              ltac:(lia)
              ltac:(vm_compute; reflexivity)
              ltac:(vm_compute; reflexivity)
              ltac:(intros task Hin; vm_compute in Hin;
                    destruct Hin as [<- | [<- | []]]; discriminate)
              ltac:(vm_compute; reflexivity)) as [er Her].
  exists er. eexists. exact Her.
Defined.

(** X18. No task is dispatched twice, and none is lost. After the batch
    of an iteration has been dispatched and recorded, no member of the
    batch is available any more (whether it passed, failed or threw), and
    every task that was available and did not fit in the batch of three is
    still available. *)
Theorem batch_members_leave_the_queue {Env : Type} {clock : Clock Env}
    {llm : LLM.LLMInterface Env}
    (toolRegistry : list (string * Tool.t Env)) (context : Json)
    (cl cl' : Checklist.t) (er er' : ExecutionResult.t) (w w' : World Env) :
  well_keyed cl ->
  Orchestrator.dispatch toolRegistry
    (JS.slice_first 3 (Checklist.availableEntries cl)) context cl er w
  = (Ok (cl', er'), w') ->
  (forall task, In task (Checklist.getAvailableTasks cl') ->
     ~ In (Task.id task)
          (map Task.id (JS.slice_first 3 (Checklist.getAvailableTasks cl)))) /\
  (forall task, In task (Checklist.getAvailableTasks cl) ->
     ~ In (Task.id task)
          (map Task.id (JS.slice_first 3 (Checklist.getAvailableTasks cl))) ->
     In task (Checklist.getAvailableTasks cl')).
Proof.
  intros Hwk Hd.
  rewrite (SchedulerFacts.batch_ids cl Hwk).
  set (batch := JS.slice_first 3 (Checklist.availableEntries cl)) in *.
  pose proof (SchedulerFacts.available_batch cl Hwk) as Hbatch.
  fold batch in Hbatch.
  destruct (SchedulerFacts.dispatch_spec toolRegistry batch context cl er w
              Hwk Hbatch)
    as [rs [w1 [cl2 [entries [w2 [_ [_ [Hlen [Hd' [_ [Hrec Hframe]]]]]]]]]]].
  rewrite Hd in Hd'. inversion Hd'; subst cl2. clear Hd'.
  pose proof (SchedulerFacts.well_keyed_dispatch toolRegistry _ _ _ _ _ _ _ _ Hd Hwk)
    as Hwk'.
  split.
  - intros task Hin Hmem.
    unfold Checklist.getAvailableTasks in Hin. apply filter_In in Hin.
    destruct Hin as [Hval Hav].
    apply ChecklistFacts.available_spec in Hav. destruct Hav as [Hpending _].
    pose proof (ChecklistFacts.well_keyed_getTask cl' task Hwk' Hval) as Hget.
    apply in_map_iff in Hmem. destruct Hmem as [member [Hid Hmember]].
    destruct (In_nth_error _ _ Hmember) as [i Hi].
    assert (Hsome : nth_error rs i <> None).
    { apply nth_error_Some. rewrite Hlen. apply nth_error_Some. congruence. }
    destruct (nth_error rs i) as [r|] eqn:Hr; [|congruence].
    destruct (Hrec i member r Hi Hr) as [x [Hx [_ Hstatus]]].
    rewrite Hid, Hget in Hx. inversion Hx; subst x.
    destruct (TaskResult.success r); congruence.
  - intros task Hin Hout.
    unfold Checklist.getAvailableTasks in *. apply filter_In in Hin.
    destruct Hin as [Hval Hav]. apply filter_In.
    pose proof (ChecklistFacts.well_keyed_getTask cl task Hwk Hval) as Hget.
    rewrite <- (Hframe _ Hout) in Hget. split.
    + exact (ChecklistFacts.getTask_In_values _ _ _ Hget).
    + apply ChecklistFacts.available_spec.
      apply ChecklistFacts.available_spec in Hav.
      destruct Hav as [Hpending Hdeps]. split; [exact Hpending|].
      intros depId HdepId. destruct (Hdeps _ HdepId) as [dep [Hdep Hdone]].
      exists dep. split; [|exact Hdone].
      rewrite Hframe; [exact Hdep|].
      apply (terminal_not_dispatched cl depId dep Hwk Hdep).
      left. exact Hdone.
Qed.

Lemma batch_members_leave_the_queue_witness :
  exists cl' er' w',
    Orchestrator.dispatch (llm := Fixture.raw) Fixture.registry
      (JS.slice_first 3 (Checklist.availableEntries Fixture.graph))
      Fixture.context Fixture.graph (Fixture.ledger [])
      (Fixture.world (Fixture.env [] ["steady"]))
    = (Ok (cl', er'), w') /\
    forall task, In task (Checklist.getAvailableTasks cl') ->
      ~ In (Task.id task)
           (map Task.id
              (JS.slice_first 3 (Checklist.getAvailableTasks Fixture.graph))).
Proof.
  eexists. eexists. eexists. split; [vm_compute; reflexivity|].
  exact (proj1 (batch_members_leave_the_queue (clock := Fixture.clock)
                  (llm := Fixture.raw) Fixture.registry Fixture.context
                  Fixture.graph _ (Fixture.ledger []) _
                  (Fixture.world (Fixture.env [] ["steady"])) _
                  (ConstructorFacts.new_well_keyed _ _)
                  ltac:(vm_compute; reflexivity))).
Defined.

(** X19. [selectNextTask] never returns a task that cannot start. It
    answers without asking the oracle when nothing is available; what it
    returns otherwise is an available task whose id is the oracle's
    choice; and a choice that names no available task gives no task, not
    an error. *)
Theorem selectNextTask_picks_available {Env : Type} {clock : Clock Env}
    {llm : LLM.LLMInterface Env}
    (cl : Checklist.t) (er : ExecutionResult.t) (w : World Env) :
  (Checklist.getAvailableTasks cl = [] ->
   Orchestrator.selectNextTask cl er w = (Ok None, w)) /\
  (forall task w',
     Orchestrator.selectNextTask cl er w = (Ok (Some task), w') ->
     In task (Checklist.getAvailableTasks cl) /\
     Checklist.available cl task = true /\
     exists env',
       LLM.selectTask (Checklist.getAvailableTasks cl)
         (ExecutionResult.tasksCompleted er) (Checklist.goalDefinition cl)
         (outside w)
       = (Ok (Task.id task), env')) /\
  (forall choice env',
     Checklist.getAvailableTasks cl <> [] ->
     LLM.selectTask (Checklist.getAvailableTasks cl)
       (ExecutionResult.tasksCompleted er) (Checklist.goalDefinition cl)
       (outside w)
     = (Ok choice, env') ->
     (forall task, In task (Checklist.getAvailableTasks cl) ->
        Task.id task <> choice) ->
     Orchestrator.selectNextTask cl er w
     = (Ok None, Build_World (executionHistory w) (trace w) env')).
Proof.
  unfold Orchestrator.selectNextTask. split; [|split].
  - intros Hav. rewrite Hav. reflexivity.
  - intros task w'.
    destruct (Checklist.getAvailableTasks cl) as [|a l] eqn:Hav;
      [discriminate|].
    cbv beta iota. remember (a :: l) as queue eqn:Hqueue.
    unfold bind, ret.
    destruct (LLM.selectTask queue (ExecutionResult.tasksCompleted er)
                (Checklist.goalDefinition cl) (outside w))
      as [[choice|e] env'] eqn:Hsel; [|discriminate].
    intros Heq. injection Heq as Hfind Hw.
    apply find_some in Hfind. destruct Hfind as [Hin Hid].
    apply String.eqb_eq in Hid. split; [exact Hin|]. split.
    + rewrite <- Hav in Hin. unfold Checklist.getAvailableTasks in Hin.
      apply filter_In in Hin. tauto.
    + exists env'. now rewrite Hid.
  - intros choice env' Hne Hsel Hnone.
    destruct (Checklist.getAvailableTasks cl) as [|a l] eqn:Hav;
      [congruence|].
    cbv beta iota. remember (a :: l) as queue eqn:Hqueue.
    unfold bind, ret. rewrite Hsel.
    destruct (find (fun t => String.eqb (Task.id t) choice) queue)
      as [task|] eqn:Hfind; [|reflexivity].
    apply find_some in Hfind. destruct Hfind as [Hin Hid].
    apply String.eqb_eq in Hid. elim (Hnone _ Hin Hid).
Qed.

Lemma selectNextTask_picks_available_witness :
  In (Fixture.task "a" [] false) (Checklist.getAvailableTasks Fixture.graph) /\
  Orchestrator.selectNextTask (llm := Fixture.planning [] "b")
    Fixture.graph (Fixture.ledger []) (Fixture.world (Fixture.env [] []))
  = (Ok None, Fixture.world (Fixture.env [] [])).
Proof.
  destruct (selectNextTask_picks_available (clock := Fixture.clock)
              (llm := Fixture.planning [] "a")
              Fixture.graph (Fixture.ledger [])
              (Fixture.world (Fixture.env [] []))) as [_ [Hsome _]].
  destruct (selectNextTask_picks_available (clock := Fixture.clock)
              (llm := Fixture.planning [] "b")
              Fixture.graph (Fixture.ledger [])
              (Fixture.world (Fixture.env [] []))) as [_ [_ Hnone]].
  split.
  - exact (proj1 (Hsome (Fixture.task "a" [] false) _
                    ltac:(vm_compute; reflexivity))).
  - apply (Hnone "b" (Fixture.env [] [])).
    + vm_compute. discriminate.
    + vm_compute. reflexivity.
    + intros task Hin. vm_compute in Hin. destruct Hin as [<- | []].
      vm_compute. discriminate.
Defined.

Module DecomposeFacts.
Import AnthropicLLM.

Lemma objects_some {A} (l : list (option A)) l' :
  objects l = Some l' -> l = map Some l'.
Proof.
  revert l'. induction l as [|[x|] l IH]; simpl; intros l' H.
  - inversion H. reflexivity.
  - destruct (objects l) as [rest|]; [|discriminate].
    inversion H; subst. simpl. now rewrite (IH rest eq_refl).
  - discriminate.
Qed.

Lemma objects_none {A} (l : list (option A)) :
  objects l = None <-> In None l.
Proof.
  induction l as [|[x|] l IH]; simpl.
  - split; [discriminate | tauto].
  - destruct (objects l) as [rest|]; simpl.
    + split; [discriminate|]. intros [H|H]; [discriminate|].
      apply IH in H. discriminate.
    + split; [intros _; right; now apply IH | reflexivity].
  - split; [auto | reflexivity].
Qed.

Lemma mapi_length {A B} (f : nat -> A -> B) n l :
  List.length (mapi f n l) = List.length l.
Proof.
  revert n. induction l as [|x l IH]; intros n; simpl; [reflexivity|].
  now rewrite IH.
Qed.

Lemma mapi_In {A B} (f : nat -> A -> B) n l y :
  In y (mapi f n l) -> exists i x, In x l /\ y = f i x.
Proof.
  revert n. induction l as [|x l IH]; intros n; simpl; [tauto|].
  intros [H | H].
  - exists n, x. auto.
  - destruct (IH _ H) as [i [x' [Hin Hy]]]. exists i, x'. auto.
Qed.

Lemma str_or_default (x : option string) (d : string) :
  JS.str_or x "" = "" -> JS.str_or x d = d.
Proof.
  destruct x as [[|c s]|]; simpl; intros H; try reflexivity. discriminate.
Qed.

Lemma str_or_nonempty (x : option string) (d : string) :
  d <> "" -> JS.str_or x d <> "".
Proof.
  destruct x as [[|c s]|]; simpl; intros H; try exact H. discriminate.
Qed.

Lemma mapi_ids n l :
  (forall raw, In raw l -> JS.str_or (RawTask.id raw) "" = "") ->
  map Task.id (mapi defaultTask n l)
  = map (fun i => ("task_" ++ JS.show_int (Z.of_nat i + 1))%string)
        (seq n (List.length l)).
Proof.
  revert n. induction l as [|x l IH]; intros n Hall; simpl; [reflexivity|].
  rewrite (str_or_default _ _ (Hall x (or_introl eq_refl))).
  f_equal. apply IH. intros raw Hin. apply Hall. now right.
Qed.

Lemma NoDup_map_inj {A B} (f : A -> B) l :
  (forall a b, f a = f b -> a = b) -> NoDup l -> NoDup (map f l).
Proof.
  intros Hinj. induction 1 as [|x l Hx Hnd IH]; simpl; constructor; auto.
  intros Hin. apply in_map_iff in Hin. destruct Hin as [y [Hy Hyin]].
  apply Hinj in Hy. now subst.
Qed.

Lemma with_status_same (task : Task.t) :
  Task.status task = pending -> Task.with_status pending task = task.
Proof. destruct task. simpl. intros ->. reflexivity. Qed.

Lemma map_same {A} (f : A -> A) l :
  (forall x, In x l -> f x = x) -> map f l = l.
Proof.
  induction l as [|x l IH]; simpl; intros H; [reflexivity|].
  rewrite (H x (or_introl eq_refl)), IH; auto.
Qed.

End DecomposeFacts.

(** X20. What [AnthropicLLM.decompose] returns is a plan the scheduler can
    take as it is. Every task of it is [pending], has a non-empty id and
    name, a priority and a success threshold other than zero and a (maybe
    empty) list of dependencies; there is one task per element of the
    reply. When no element of the reply names an id, the ids are
    [task_1], [task_2], ... in order, hence distinct, and the checklist
    built from the plan holds the very tasks of the plan, in order. *)
Theorem decompose_plan {Env : Type}
    (request : Env -> Res (AnthropicLLM.Reply (list (option RawTask.t))) * Env)
    (env env' : Env) (ts : list Task.t) (g : GoalDefinition) :
  AnthropicLLM.decompose request env = (Ok ts, env') ->
  (forall task, In task ts ->
     Task.status task = pending /\
     Task.id task <> "" /\ Task.name task <> "" /\
     ~ (Task.priority task == 0)%Q /\
     ~ (Task.successThreshold task == 0)%Q /\
     Task.dependencies task <> None) /\
  exists raws,
    request env = (Ok (AnthropicLLM.Answer (map Some raws)), env') /\
    List.length ts = List.length raws /\
    ((forall raw, In raw raws -> JS.str_or (RawTask.id raw) "" = "") ->
     map Task.id ts
     = map (fun i => ("task_" ++ JS.show_int (Z.of_nat i + 1))%string)
           (seq 0 (List.length raws)) /\
     NoDup (map Task.id ts) /\
     Checklist.getAllTasks (Checklist.new ts g) = ts).
Proof.
  unfold AnthropicLLM.decompose.
  destruct (request env) as [[[|l]|e] env1]; try discriminate.
  destruct (AnthropicLLM.objects l) as [raws|] eqn:Hobj; [|discriminate].
  intros Heq. inversion Heq; subst. clear Heq.
  assert (Hshape : forall task,
             In task (AnthropicLLM.mapi AnthropicLLM.defaultTask 0 raws) ->
             Task.status task = pending /\
             Task.id task <> "" /\ Task.name task <> "" /\
             ~ (Task.priority task == 0)%Q /\
             ~ (Task.successThreshold task == 0)%Q /\
             Task.dependencies task <> None).
  { intros task Hin. apply DecomposeFacts.mapi_In in Hin.
    destruct Hin as [i [raw [_ ->]]]. unfold AnthropicLLM.defaultTask. simpl.
    split; [reflexivity|].
    split; [apply DecomposeFacts.str_or_nonempty; discriminate|].
    split; [apply DecomposeFacts.str_or_nonempty; discriminate|].
    split; [apply AddFacts.num_or_nonzero; intros H; discriminate H|].
    split; [apply AddFacts.num_or_nonzero; intros H; discriminate H|].
    discriminate. }
  split; [exact Hshape|].
  exists raws. split; [now rewrite (DecomposeFacts.objects_some _ _ Hobj)|].
  split; [apply DecomposeFacts.mapi_length|].
  intros Hnoid.
  pose proof (DecomposeFacts.mapi_ids 0 raws Hnoid) as Hids.
  assert (Hnd : NoDup (map Task.id
                         (AnthropicLLM.mapi AnthropicLLM.defaultTask 0 raws))).
  { rewrite Hids. apply DecomposeFacts.NoDup_map_inj; [|apply seq_NoDup].
    intros a b Hab. simpl in Hab. injection Hab as Hab.
    apply AddFacts.show_int_inj in Hab. lia. }
  split; [exact Hids|]. split; [exact Hnd|].
  unfold Checklist.getAllTasks, Checklist.new. simpl.
  rewrite StrMapMore.of_entries_distinct.
  - unfold StrMap.values. rewrite map_map. simpl.
    apply DecomposeFacts.map_same. intros task Hin.
    apply DecomposeFacts.with_status_same. now apply Hshape.
  - unfold StrMap.keys. rewrite map_map. exact Hnd.
Qed.

Lemma decompose_plan_witness :
  exists ts,
    AnthropicLLM.decompose
      (fun e : Fixture.Env =>
         (Ok (AnthropicLLM.Answer
                [Some (RawTask.mk None (Some "survey") None None None None
                         None None None None);
                 Some (RawTask.mk (Some "") None None (Some 0%Q) None None
                         None None None None)]), e))
      (Fixture.env [] [])
    = (Ok ts, Fixture.env [] []) /\
    map Task.id ts = ["task_1"; "task_2"] /\
    Checklist.getAllTasks (Checklist.new ts Fixture.goal) = ts.
Proof.
  eexists. split; [vm_compute; reflexivity|].
  destruct (decompose_plan
              (fun e : Fixture.Env =>
                 (Ok (AnthropicLLM.Answer
                        [Some (RawTask.mk None (Some "survey") None None None
                                 None None None None None);
                         Some (RawTask.mk (Some "") None None (Some 0%Q) None
                                 None None None None None)]), e))
              (Fixture.env [] []) _ _ Fixture.goal
              ltac:(vm_compute; reflexivity))
    as [_ [raws [Hreq [_ Hplan]]]].
  injection Hreq as Hraws.
  assert (Hr : raws = [RawTask.mk None (Some "survey") None None None None
                         None None None None;
                       RawTask.mk (Some "") None None (Some 0%Q) None None
                         None None None None]).
  { destruct raws as [|r1 [|r2 [|r3 rest]]]; try discriminate.
    simpl in Hraws. now inversion Hraws. }
  subst raws.
  destruct Hplan as [Hids [_ Hall]].
  - intros raw [<- | [<- | []]]; reflexivity.
  - split; [exact Hids | exact Hall].
Defined.

(** X21. [AnthropicLLM.decompose] gives a whole plan or none. It throws
    exactly when the request itself failed, whose error it passes on, or
    when the reply is no JSON array or has a [null] among its elements;
    in these cases the error is "Failed to parse task decomposition
    response" and no task of the reply is returned. *)
Theorem decompose_all_or_nothing {Env : Type}
    (request : Env -> Res (AnthropicLLM.Reply (list (option RawTask.t))) * Env)
    (env env' : Env) (e : JS.exn) :
  AnthropicLLM.decompose request env = (Throw e, env') <->
  request env = (Throw e, env') \/
  (e = JS.ErrorObj "Failed to parse task decomposition response" /\
   exists reply,
     request env = (Ok reply, env') /\
     (reply = AnthropicLLM.Garbled \/
      exists elements, reply = AnthropicLLM.Answer elements /\ In None elements)).
Proof.
  unfold AnthropicLLM.decompose.
  destruct (request env) as [[[|l]|e1] env1].
  - split.
    + intros H. inversion H; subst. right. split; [reflexivity|].
      eexists. split; [reflexivity|]. now left.
    + intros [H | [-> [reply [H _]]]]; [discriminate|].
      inversion H; subst. reflexivity.
  - destruct (AnthropicLLM.objects l) as [raws|] eqn:Hobj.
    + split; [discriminate|].
      intros [H | [_ [reply [H [-> | [elements [-> Hin]]]]]]]; try discriminate.
      inversion H; subst.
      apply DecomposeFacts.objects_none in Hin. congruence.
    + split.
      * intros H. inversion H; subst. right. split; [reflexivity|].
        eexists. split; [reflexivity|]. right. exists l.
        split; [reflexivity|]. now apply DecomposeFacts.objects_none.
      * intros [H | [-> [reply [H _]]]]; [discriminate|].
        inversion H; subst. reflexivity.
  - split.
    + intros H. inversion H; subst. now left.
    + intros [H | [_ [reply [H _]]]]; [|discriminate].
      inversion H; subst. reflexivity.
Qed.

Module ConfigFacts.
Import ConfigManager.

Lemma spread_whole (base c : AgentFlowConfig) : spread base (whole c) = c.
Proof. destruct c. reflexivity. Qed.

Lemma truthy_some (x : option string) :
  truthy x = true -> exists c s, x = Some (String c s).
Proof.
  destruct x as [[|c s]|]; simpl; try discriminate. intros _. eauto.
Qed.

Lemma getAnthropicApiKey_env (c : AgentFlowConfig) (p p' : Process) k :
  envKey p' = envKey p ->
  getAnthropicApiKey c p = Ok k -> getAnthropicApiKey c p' = Ok k.
Proof.
  unfold getAnthropicApiKey. intros ->. tauto.
Qed.

(** The configuration after [setAnthropicApiKey]. *)
Lemma runStart_ready (method : AuthManager.Method) (key : string)
    (p : Process) a c s :
  providers (new p) = Some a ->
  (if truthy (apiKey a) then apiKey a else envKey p) = Some (String c s) ->
  Cli.runStart method key p
  = (Cli.Ready (String c s) (JS.str_or (model a) "claude-3-5-sonnet-20241022"),
     p).
Proof.
  intros Hprov Hk.
  unfold Cli.runStart, AuthManager.ensureAuthenticated, Cli.newAnthropicLLM,
    getAnthropicApiKey.
  rewrite Hprov, Hk. cbn [truthy]. cbv beta iota. rewrite Hk. reflexivity.
Qed.

Lemma runStart_enter (key : string) (p : Process) a :
  providers (new p) = Some a ->
  truthy (if truthy (apiKey a) then apiKey a else envKey p) = false ->
  writeError p = None ->
  Cli.runStart AuthManager.enter key p
  = (Cli.Failed (JS.ErrorObj "Anthropic API key not found"),
     mkProcess
       (Readable
          (whole (mkConfig (Some (mkAnthropic (Some key) (disabled a) (model a)))
                           (maxIterations (new p))
                           (confidenceThreshold (new p))
                           (parallelExecution (new p)))))
       None (envKey p)).
Proof.
  intros Hprov Hk Hwrite.
  unfold Cli.runStart, AuthManager.ensureAuthenticated,
    AuthManager.promptForApiKey, setAnthropicApiKey, saveConfig,
    Cli.newAnthropicLLM, getAnthropicApiKey.
  rewrite Hprov, Hk, Hwrite. cbn [envKey].
  assert (Hfile : truthy (apiKey a) = false).
  { destruct (truthy (apiKey a)) eqn:E; [congruence | reflexivity]. }
  rewrite Hfile in *.
  destruct (envKey p) as [[|c s]|]; simpl in Hk; try discriminate; reflexivity.
Qed.

Lemma runStart_no_key (method : AuthManager.Method) (key : string)
    (p p' : Process) a k m :
  providers (new p) = Some a ->
  truthy (if truthy (apiKey a) then apiKey a else envKey p) = false ->
  Cli.runStart method key p <> (Cli.Ready k m, p').
Proof.
  intros Hprov Hk.
  destruct (writeError p) as [text|] eqn:Hwrite.
  - unfold Cli.runStart, AuthManager.ensureAuthenticated,
      AuthManager.promptForApiKey, setAnthropicApiKey, saveConfig,
      getAnthropicApiKey.
    rewrite Hprov, Hk, Hwrite. destruct method; discriminate.
  - destruct method;
      try (unfold Cli.runStart, AuthManager.ensureAuthenticated,
             getAnthropicApiKey; rewrite Hprov, Hk; discriminate).
    rewrite (runStart_enter key p a Hprov Hk Hwrite). discriminate.
Qed.

End ConfigFacts.

(** X22. A key entered at the prompt of [run] is saved but not used by
    that run. With no key in the file or in the environment and a file
    that can be written, answering [enter] and giving a key makes
    [ensureAuthenticated] succeed and write the key to the file, after
    which building the oracle fails with "Anthropic API key not found",
    because [run] builds it from a manager loaded before the key was
    saved. The next run finds the key in the file and starts with it. *)
Theorem entered_key_is_saved_not_used (p : ConfigManager.Process)
    (key : string) (k : option string) :
  key <> "" ->
  ConfigManager.writeError p = None ->
  ConfigManager.getAnthropicApiKey (ConfigManager.new p) p = Ok k ->
  ConfigManager.truthy k = false ->
  exists p',
    Cli.runStart AuthManager.enter key p
    = (Cli.Failed (JS.ErrorObj "Anthropic API key not found"), p') /\
    ConfigManager.getAnthropicApiKey (ConfigManager.new p') p' = Ok (Some key) /\
    forall method key', exists model,
      Cli.runStart method key' p' = (Cli.Ready key model, p').
Proof.
  intros Hkey Hwrite Hget Hk.
  destruct key as [|ch rest]; [congruence|].
  unfold ConfigManager.getAnthropicApiKey in Hget.
  destruct (ConfigManager.providers (ConfigManager.new p)) as [a|] eqn:Hprov;
    [|discriminate].
  inversion Hget as [Hfound]. rewrite <- Hfound in Hk.
  rewrite (ConfigFacts.runStart_enter _ _ _ Hprov Hk Hwrite).
  eexists. split; [reflexivity|].
  set (p' := ConfigManager.mkProcess _ _ _).
  assert (Hnew : ConfigManager.providers (ConfigManager.new p')
                 = Some (ConfigManager.mkAnthropic (Some (String ch rest))
                           (ConfigManager.disabled a) (ConfigManager.model a))).
  { reflexivity. }
  split.
  - unfold ConfigManager.getAnthropicApiKey. rewrite Hnew. reflexivity.
  - intros method key'. eexists.
    apply (ConfigFacts.runStart_ready method key' p' _ ch rest Hnew).
    reflexivity.
Qed.

Lemma entered_key_is_saved_not_used_witness :
  exists p',
    Cli.runStart AuthManager.enter "sk-ant-1"
      (ConfigManager.mkProcess ConfigManager.Missing None None)
    = (Cli.Failed (JS.ErrorObj "Anthropic API key not found"), p') /\
    exists model,
      Cli.runStart AuthManager.exit "" p' = (Cli.Ready "sk-ant-1" model, p').
Proof.
  destruct (entered_key_is_saved_not_used
              (ConfigManager.mkProcess ConfigManager.Missing None None)
              "sk-ant-1" None
              ltac:(discriminate) eq_refl eq_refl eq_refl)
    as [p' [Hfirst [_ Hnext]]].
  exists p'. split; [exact Hfirst | exact (Hnext AuthManager.exit "")].
Defined.

(** X23. When [run] gets as far as the orchestrator, the oracle holds a
    key that was in the file or in the environment before the command
    started, the file's key if it has one, and nothing was written. The
    key and the model it holds are not empty; a file without a model
    gives the default model. *)
Theorem run_starts_with_stored_key (method : AuthManager.Method)
    (key : string) (p p' : ConfigManager.Process) (apiKey model : string) :
  Cli.runStart method key p = (Cli.Ready apiKey model, p') ->
  p' = p /\ apiKey <> "" /\ model <> "" /\
  exists a,
    ConfigManager.providers (ConfigManager.new p) = Some a /\
    (if ConfigManager.truthy (ConfigManager.apiKey a)
     then ConfigManager.apiKey a
     else ConfigManager.envKey p) = Some apiKey /\
    model = JS.str_or (ConfigManager.model a) "claude-3-5-sonnet-20241022".
Proof.
  intros Hrun.
  destruct (ConfigManager.providers (ConfigManager.new p)) as [a|] eqn:Hprov.
  - set (found := if ConfigManager.truthy (ConfigManager.apiKey a)
                  then ConfigManager.apiKey a else ConfigManager.envKey p).
    destruct (ConfigManager.truthy found) eqn:Hfound.
    + destruct (ConfigFacts.truthy_some _ Hfound) as [c [s Hs]].
      rewrite (ConfigFacts.runStart_ready method key p a c s Hprov Hs) in Hrun.
      inversion Hrun; subst. clear Hrun.
      split; [reflexivity|]. split; [discriminate|]. split.
      { destruct (ConfigManager.model a) as [[|c1 s1]|]; simpl; discriminate. }
      exists a. auto.
    + elim (ConfigFacts.runStart_no_key method key p p' a apiKey model
              Hprov Hfound Hrun).
  - unfold Cli.runStart, AuthManager.ensureAuthenticated,
      ConfigManager.getAnthropicApiKey in Hrun.
    rewrite Hprov in Hrun. discriminate.
Qed.

Lemma run_starts_with_stored_key_witness :
  Cli.runStart AuthManager.exit ""
    (ConfigManager.mkProcess
       (ConfigManager.Readable
          (ConfigManager.mkUser
             (Some (Some (ConfigManager.mkAnthropic (Some "sk-ant-file")
                            None None)))
             None None None))
       None (Some "sk-ant-env"))
  = (Cli.Ready "sk-ant-file" "claude-3-5-sonnet-20241022",
     ConfigManager.mkProcess
       (ConfigManager.Readable
          (ConfigManager.mkUser
             (Some (Some (ConfigManager.mkAnthropic (Some "sk-ant-file")
                            None None)))
             None None None))
       None (Some "sk-ant-env")) /\
  "sk-ant-file" <> "".
Proof.
  split; [vm_compute; reflexivity|].
  exact (proj1 (proj2 (run_starts_with_stored_key AuthManager.exit "" _ _
                         "sk-ant-file" "claude-3-5-sonnet-20241022"
                         (eq_refl : Cli.runStart AuthManager.exit ""
                            (ConfigManager.mkProcess
                               (ConfigManager.Readable
                                  (ConfigManager.mkUser
                                     (Some (Some (ConfigManager.mkAnthropic
                                                    (Some "sk-ant-file")
                                                    None None)))
                                     None None None))
                               None (Some "sk-ant-env")) = _)))).
Defined.

(** X24. [logout] removes the key of the file and nothing else. When the
    file can be written, the manager that logged out and a manager
    created afterwards both answer [getAnthropicApiKey] with the key of
    the environment, so that the service stays enabled when the
    environment has one; the model and the [disabled] flag are kept. *)
Theorem logout_keeps_environment_key (p : ConfigManager.Process)
    (a : ConfigManager.Anthropic) :
  ConfigManager.providers (ConfigManager.new p) = Some a ->
  ConfigManager.writeError p = None ->
  exists c' p',
    AuthManager.logout (ConfigManager.new p) p = (Ok tt, c', p') /\
    ConfigManager.envKey p' = ConfigManager.envKey p /\
    ConfigManager.getAnthropicApiKey c' p' = Ok (ConfigManager.envKey p) /\
    ConfigManager.getAnthropicApiKey (ConfigManager.new p') p'
    = Ok (ConfigManager.envKey p) /\
    ConfigManager.isAnthropicEnabled c' p'
    = Ok (match ConfigManager.disabled a with
          | Some true => false
          | _ => ConfigManager.truthy (ConfigManager.envKey p)
          end) /\
    exists a',
      ConfigManager.providers c' = Some a' /\
      ConfigManager.disabled a' = ConfigManager.disabled a /\
      ConfigManager.model a' = ConfigManager.model a.
Proof.
  intros Hprov Hwrite. unfold AuthManager.logout. rewrite Hprov.
  destruct (ConfigManager.truthy (ConfigManager.apiKey a)) eqn:Hfile.
  - unfold ConfigManager.updateConfig, ConfigManager.saveConfig.
    rewrite Hwrite, ConfigFacts.spread_whole.
    eexists. eexists. split; [reflexivity|]. split; [reflexivity|].
    split; [reflexivity|]. split.
    { unfold ConfigManager.new at 1, ConfigManager.loadConfig. simpl.
      reflexivity. }
    split.
    { unfold ConfigManager.isAnthropicEnabled. simpl.
      destruct (ConfigManager.disabled a) as [[|]|]; reflexivity. }
    eexists. split; [reflexivity|]. split; reflexivity.
  - exists (ConfigManager.new p), p. split; [reflexivity|].
    split; [reflexivity|].
    assert (Hget : ConfigManager.getAnthropicApiKey (ConfigManager.new p) p
                   = Ok (ConfigManager.envKey p)).
    { unfold ConfigManager.getAnthropicApiKey. now rewrite Hprov, Hfile. }
    split; [exact Hget|]. split; [exact Hget|]. split.
    { unfold ConfigManager.isAnthropicEnabled. rewrite Hprov, Hfile.
      destruct (ConfigManager.disabled a) as [[|]|]; reflexivity. }
    exists a. auto.
Qed.

Lemma logout_keeps_environment_key_witness :
  exists c' p',
    AuthManager.logout
      (ConfigManager.new
         (ConfigManager.mkProcess
            (ConfigManager.Readable
               (ConfigManager.mkUser
                  (Some (Some (ConfigManager.mkAnthropic (Some "sk-ant-file")
                                 None None)))
                  None None None))
            None (Some "sk-ant-env")))
      (ConfigManager.mkProcess
         (ConfigManager.Readable
            (ConfigManager.mkUser
               (Some (Some (ConfigManager.mkAnthropic (Some "sk-ant-file")
                              None None)))
               None None None))
         None (Some "sk-ant-env"))
    = (Ok tt, c', p') /\
    ConfigManager.isAnthropicEnabled c' p' = Ok true.
Proof.
  destruct (logout_keeps_environment_key
              (ConfigManager.mkProcess
                 (ConfigManager.Readable
                    (ConfigManager.mkUser
                       (Some (Some (ConfigManager.mkAnthropic
                                      (Some "sk-ant-file") None None)))
                       None None None))
                 None (Some "sk-ant-env"))
              (ConfigManager.mkAnthropic (Some "sk-ant-file") None None)
              eq_refl eq_refl)
    as [c' [p' [Hout [_ [_ [_ [Hen _]]]]]]].
  exists c', p'. split; [exact Hout | exact Hen].
Defined.

(** X25. What a manager saves is what the next manager loads. After a
    successful [updateConfig] or [setAnthropicApiKey] the configuration
    loaded from the file is the one the saving manager holds, the
    environment is as before, and after [setAnthropicApiKey] with a
    non-empty key that key is the one [getAnthropicApiKey] returns,
    whatever the environment has. When the file cannot be written
    [setAnthropicApiKey] throws, the file is as before, and the key is
    in force for the throwing manager all the same. *)
Theorem saved_config_is_loaded (c : ConfigManager.AgentFlowConfig)
    (p : ConfigManager.Process) :
  (forall updates c' p',
     ConfigManager.updateConfig updates c p = (Ok tt, c', p') ->
     ConfigManager.new p' = c' /\
     ConfigManager.envKey p' = ConfigManager.envKey p) /\
  (forall key c' p',
     key <> "" ->
     ConfigManager.setAnthropicApiKey key c p = (Ok tt, c', p') ->
     ConfigManager.new p' = c' /\
     ConfigManager.envKey p' = ConfigManager.envKey p /\
     ConfigManager.getAnthropicApiKey c' p' = Ok (Some key)) /\
  (forall key e c' p' a,
     key <> "" ->
     ConfigManager.providers c = Some a ->
     ConfigManager.setAnthropicApiKey key c p = (Throw e, c', p') ->
     p' = p /\
     ConfigManager.getAnthropicApiKey c' p' = Ok (Some key)).
Proof.
  split; [|split].
  - intros updates c' p'.
    unfold ConfigManager.updateConfig, ConfigManager.saveConfig.
    destruct (ConfigManager.writeError p) as [text|]; [discriminate|].
    intros Heq. inversion Heq; subst. clear Heq.
    unfold ConfigManager.new, ConfigManager.loadConfig. simpl.
    rewrite ConfigFacts.spread_whole. auto.
  - intros key c' p' Hkey.
    unfold ConfigManager.setAnthropicApiKey, ConfigManager.saveConfig.
    destruct (ConfigManager.providers c) as [a|]; [|discriminate].
    destruct (ConfigManager.writeError p) as [text|]; [discriminate|].
    intros Heq. inversion Heq; subst. clear Heq.
    unfold ConfigManager.new, ConfigManager.loadConfig. simpl.
    split; [reflexivity|]. split; [reflexivity|].
    unfold ConfigManager.getAnthropicApiKey. simpl.
    destruct key as [|ch rest]; [congruence | reflexivity].
  - intros key e c' p' a Hkey Hprov.
    unfold ConfigManager.setAnthropicApiKey, ConfigManager.saveConfig.
    rewrite Hprov.
    destruct (ConfigManager.writeError p) as [text|]; [|discriminate].
    intros Heq. inversion Heq; subst. clear Heq.
    split; [reflexivity|].
    unfold ConfigManager.getAnthropicApiKey. simpl.
    destruct key as [|ch rest]; [congruence | reflexivity].
Qed.

Lemma saved_config_is_loaded_witness :
  exists c' p',
    ConfigManager.setAnthropicApiKey "sk-ant-1" ConfigManager.defaultConfig
      (ConfigManager.mkProcess ConfigManager.Missing None (Some "sk-ant-env"))
    = (Ok tt, c', p') /\
    ConfigManager.new p' = c' /\
    ConfigManager.getAnthropicApiKey c' p' = Ok (Some "sk-ant-1").
Proof.
  eexists. eexists. split; [vm_compute; reflexivity|].
  destruct (proj1 (proj2 (saved_config_is_loaded ConfigManager.defaultConfig
                            (ConfigManager.mkProcess ConfigManager.Missing None
                               (Some "sk-ant-env"))))
              "sk-ant-1" _ _ ltac:(discriminate) eq_refl)
    as [Hnew [_ Hget]].
  split; [exact Hnew | exact Hget].
Defined.

(** X26. [login] never throws once the configuration has its provider
    section, not even when the key cannot be saved, and it leaves the
    manager with a non-empty key in force: the key entered, unless a key
    was there and the user declined to replace it, in which case nothing
    changes. A key that could not be saved is in force for this manager
    only: the file is as before. *)
Theorem login_outcome (overwrite : bool) (key : string)
    (c : ConfigManager.AgentFlowConfig) (p : ConfigManager.Process)
    (a : ConfigManager.Anthropic) (found : option string) :
  key <> "" ->
  ConfigManager.providers c = Some a ->
  ConfigManager.getAnthropicApiKey c p = Ok found ->
  exists c' p' k,
    AuthManager.login overwrite key c p = (Ok tt, c', p') /\
    ConfigManager.getAnthropicApiKey c' p' = Ok (Some k) /\ k <> "" /\
    (if ConfigManager.truthy found && negb overwrite
     then c' = c /\ p' = p /\ found = Some k
     else k = key /\
          match ConfigManager.writeError p with
          | Some _ => p' = p
          | None => ConfigManager.new p' = c'
          end).
Proof.
  intros Hkey Hprov Hfound. unfold AuthManager.login. rewrite Hfound.
  destruct (ConfigManager.truthy found && negb overwrite) eqn:Hkeep.
  - apply andb_true_iff in Hkeep. destruct Hkeep as [Ht _].
    destruct (ConfigFacts.truthy_some _ Ht) as [ch [rest ->]].
    exists c, p, (String ch rest). split; [reflexivity|].
    split; [exact Hfound|]. split; [discriminate | auto].
  - unfold AuthManager.promptForApiKey, ConfigManager.setAnthropicApiKey,
      ConfigManager.saveConfig.
    rewrite Hprov.
    assert (Hget : forall c1 p1,
               ConfigManager.providers c1
               = Some (ConfigManager.mkAnthropic (Some key)
                         (ConfigManager.disabled a) (ConfigManager.model a)) ->
               ConfigManager.getAnthropicApiKey c1 p1 = Ok (Some key)).
    { intros c1 p1 H1. unfold ConfigManager.getAnthropicApiKey. rewrite H1.
      simpl. destruct key as [|ch rest]; [congruence | reflexivity]. }
    destruct (ConfigManager.writeError p) as [text|].
    + eexists. eexists. exists key. split; [reflexivity|].
      split; [apply Hget; reflexivity|]. auto.
    + eexists. eexists. exists key. split; [reflexivity|].
      split; [apply Hget; reflexivity|]. split; [exact Hkey|].
      split; [reflexivity|].
      unfold ConfigManager.new, ConfigManager.loadConfig. simpl. reflexivity.
Qed.

Lemma login_outcome_witness :
  exists c' p',
    AuthManager.login false "sk-ant-1" ConfigManager.defaultConfig
      (ConfigManager.mkProcess ConfigManager.Missing (Some "EACCES") None)
    = (Ok tt, c', p') /\
    ConfigManager.getAnthropicApiKey c' p' = Ok (Some "sk-ant-1") /\
    ConfigManager.file p' = ConfigManager.Missing.
Proof.
  destruct (login_outcome false "sk-ant-1" ConfigManager.defaultConfig
              (ConfigManager.mkProcess ConfigManager.Missing (Some "EACCES") None)
              _ None ltac:(discriminate) eq_refl eq_refl)
    as [c' [p' [k [Hlogin [Hget [_ Hrest]]]]]].
  simpl in Hrest. destruct Hrest as [-> ->].
  exists c'. eexists. split; [exact Hlogin|]. split; [exact Hget | reflexivity].
Defined.
